(** * Teams transcript MCP server: meeting resolution and VTT normalisation

    A shallow embedding of [vtt-parser.ts] (cleanVttTranscript,
    mergeSpeakerLines), [graph.ts] (calendar discovery, join-URL resolution,
    findMeetingsByName, listMeetings) and the two tool handlers of
    [server.ts] that use them, with the properties the specification states
    about them.

    JavaScript strings are sequences of UTF-16 code units; they are modelled
    as [list N].  Regular expressions of the source are translated one by
    one into matchers over such lists; each matcher quotes its expression.
    JavaScript numbers are IEEE 754 doubles ([spec_float]); they are
    compared by their values, which are rationals. *)

From Stdlib Require Import List NArith ZArith Bool Lia String Ascii DecimalString.
From Stdlib Require QArith Qround Qpower SpecFloat.
Import ListNotations.

Set Implicit Arguments.

(* ================================================================== *)
(** ** JavaScript strings *)

Module JsString.

Open Scope N_scope.

Definition jsstring := list N.

(** A literal: the code units of an ASCII string. *)
Definition js (s : string) : jsstring :=
  List.map N_of_ascii (list_ascii_of_string s).

(** [a === b] on strings. *)
Fixpoint streq (a b : jsstring) : bool :=
  match a, b with
  | [], [] => true
  | x :: a', y :: b' => (x =? y) && streq a' b'
  | _, _ => false
  end.

(** [s.length > 0], the truthiness of a string. *)
Definition truthy (s : jsstring) : bool :=
  match s with [] => false | _ :: _ => true end.

(** WhiteSpace and LineTerminator code units: what [\s] matches and what
    [String.prototype.trim] removes (TAB, LF, VT, FF, CR, SP, NBSP, the
    Unicode space separators, LS, PS and the BOM). *)
Definition isSpace (c : N) : bool :=
  ((9 <=? c) && (c <=? 13)) || (c =? 32) || (c =? 160) || (c =? 5760)
  || ((8192 <=? c) && (c <=? 8202)) || (c =? 8232) || (c =? 8233)
  || (c =? 8239) || (c =? 8287) || (c =? 12288) || (c =? 65279).

(** LineTerminator code units: what [.] does not match. *)
Definition isLineTerminator (c : N) : bool :=
  (c =? 10) || (c =? 13) || (c =? 8232) || (c =? 8233).

Definition isDigit (c : N) : bool := (48 <=? c) && (c <=? 57).

(** Canonicalisation of a code unit under the [i] flag (no [u] flag), as far
    as a comparison with an ASCII pattern character can tell: ASCII lower
    case letters go to upper case; a code unit above 127 never canonicalises
    to an ASCII one. *)
Definition upperAscii (c : N) : N :=
  if (97 <=? c) && (c <=? 122) then c - 32 else c.

(** [[0-9a-f]] under the [i] flag. *)
Definition isHex (c : N) : bool :=
  isDigit c || ((65 <=? upperAscii c) && (upperAscii c <=? 70)).

(** [\w] without the [u] flag: [[A-Za-z0-9_]]. *)
Definition isWordChar (c : N) : bool :=
  isDigit c || ((65 <=? upperAscii c) && (upperAscii c <=? 90)) || (c =? 95).

(** Without the leading white space. *)
Fixpoint trimStart (s : jsstring) : jsstring :=
  match s with
  | [] => []
  | c :: r => if isSpace c then trimStart r else s
  end.

(** Without the trailing white space: a code unit goes when it is white
    space and nothing is left of what follows it. *)
Fixpoint trimEnd (s : jsstring) : jsstring :=
  match s with
  | [] => []
  | c :: r =>
      match trimEnd r with
      | [] => if isSpace c then [] else [c]
      | r' => c :: r'
      end
  end.

(** [s.trim()] *)
Definition trim (s : jsstring) : jsstring := trimEnd (trimStart s).

(** [lines.join(sep)] *)
Fixpoint join (sep : jsstring) (ls : list jsstring) : jsstring :=
  match ls with
  | [] => []
  | [l] => l
  | l :: ls' => l ++ sep ++ join sep ls'
  end.

Definition startsWithLF (s : jsstring) : bool :=
  match s with c :: _ => c =? 10 | [] => false end.

(** [s.split(/\r?\n/)]: a separator is a line feed together with the
    carriage return just before it, if there is one.  The empty string
    splits into one empty line. *)
Fixpoint splitLines (s : jsstring) : list jsstring :=
  match s with
  | [] => [[]]
  | c :: r =>
      let ls := splitLines r in
      if c =? 10 then [] :: ls
      else if (c =? 13) && startsWithLF r then ls
      else match ls with
           | l :: ls' => (c :: l) :: ls'
           | [] => [[c]]
           end
  end.

(** The longest prefix whose code units satisfy [p], and the rest. *)
Fixpoint span (p : N -> bool) (s : jsstring) : jsstring * jsstring :=
  match s with
  | [] => ([], [])
  | c :: r =>
      if p c then let (a, b) := span p r in (c :: a, b) else ([], s)
  end.

Definition startsWithSpace (s : jsstring) : bool :=
  match s with c :: _ => isSpace c | [] => false end.

Fixpoint endsWithSpace (s : jsstring) : bool :=
  match s with
  | [] => false
  | [c] => isSpace c
  | _ :: r => endsWithSpace r
  end.

(** [\s*] in front of something that is not white space. *)
Fixpoint skipSpaces (s : jsstring) : jsstring :=
  match s with
  | [] => []
  | c :: r => if isSpace c then skipSpaces r else s
  end.

(** A case-insensitive ASCII prefix; [pat] is given in upper case. *)
Fixpoint startsWithCI (pat s : jsstring) : bool :=
  match pat, s with
  | [], _ => true
  | p :: pat', c :: s' => (upperAscii c =? p) && startsWithCI pat' s'
  | _ :: _, [] => false
  end.

(** [pat] is a prefix of [s]. *)
Fixpoint startsWith (pat s : jsstring) : bool :=
  match pat, s with
  | [], _ => true
  | p :: pat', c :: s' => (c =? p) && startsWith pat' s'
  | _ :: _, [] => false
  end.

(** [haystack.includes(needle)] *)
Fixpoint includes (haystack needle : jsstring) : bool :=
  startsWith needle haystack ||
  match haystack with
  | [] => false
  | _ :: r => includes r needle
  end.

End JsString.

(* ================================================================== *)
(** ** vtt-parser.ts *)

Module VttParser.

Import JsString.
Open Scope N_scope.

(** *** Line classification *)

(** [/^WEBVTT/i] *)
Definition isHeaderLine (s : jsstring) : bool :=
  startsWithCI (js "WEBVTT") s.

(** [/^NOTE\b/i]: after NOTE the input ends or a non-word character
    follows (the E before the boundary is a word character). *)
Definition isNoteLine (s : jsstring) : bool :=
  startsWithCI (js "NOTE") s &&
  match skipn 4 s with
  | [] => true
  | c :: _ => negb (isWordChar c)
  end.

(** A matcher consumes a prefix and returns what is left. *)
Definition matcher := jsstring -> option jsstring.

Definition andThen (m1 m2 : matcher) : matcher :=
  fun s => match m1 s with Some r => m2 r | None => None end.

Infix ">>" := andThen (at level 61, left associativity).

(** One code unit satisfying [p], [n] times: [\d{n}], [[0-9a-f]{n}]. *)
Fixpoint times (n : nat) (p : N -> bool) : matcher :=
  fun s =>
    match n with
    | O => Some s
    | S k =>
        match s with
        | c :: r => if p c then times k p r else None
        | [] => None
        end
    end.

Definition lit (c : N) : matcher :=
  fun s =>
    match s with
    | x :: r => if x =? c then Some r else None
    | [] => None
    end.

Definition spaces : matcher := fun s => Some (skipSpaces s).

(** [$] without the [m] flag. *)
Definition atEnd (r : option jsstring) : bool :=
  match r with Some [] => true | _ => false end.

Definition matched (r : option jsstring) : bool :=
  match r with Some _ => true | None => false end.

(** [\d{2}:\d{2}:\d{2}\.\d{3}] *)
Definition timestamp : matcher :=
  times 2 isDigit >> lit 58 >> times 2 isDigit >> lit 58 >>
  times 2 isDigit >> lit 46 >> times 3 isDigit.

(** [/^\d{2}:\d{2}:\d{2}\.\d{3}\s*-->\s*\d{2}:\d{2}:\d{2}\.\d{3}/] *)
Definition isTimingLine (s : jsstring) : bool :=
  matched ((timestamp >> spaces >> lit 45 >> lit 45 >> lit 62 >>
            spaces >> timestamp) s).

(** [/^\d+$/] *)
Definition isNumericId (s : jsstring) : bool :=
  truthy s && forallb isDigit s.

(** [/^[0-9a-f]{8}-[0-9a-f]{4}-[0-9a-f]{4}-[0-9a-f]{4}-[0-9a-f]{12}$/i] *)
Definition isUuidId (s : jsstring) : bool :=
  atEnd ((times 8 isHex >> lit 45 >> times 4 isHex >> lit 45 >>
          times 4 isHex >> lit 45 >> times 4 isHex >> lit 45 >>
          times 12 isHex) s).

(** *** Markup removal *)

Definition notGt (c : N) : bool := negb (c =? 62).

(** One match of [/<v\s+([^>]+)>/i] at the head of [s]: the captured name
    and the length of the match.  [\s+] is greedy, so the name starts after
    the white space; when ['>'] follows the white space at once, [\s+]
    gives its last code unit back to the group. *)
Definition matchVoiceOpen (s : jsstring) : option (jsstring * nat) :=
  match s with
  | lt :: v :: rest =>
      if (lt =? 60) && (upperAscii v =? 86) then
        let (ws, rest1) := span isSpace rest in
        let (name, rest2) := span notGt rest1 in
        match ws, rest2 with
        | _ :: _, _ :: _ =>
            match name with
            | _ :: _ => Some (name, (2 + List.length ws + List.length name + 1)%nat)
            | [] =>
                match ws with
                | _ :: _ :: _ => Some ([last ws 0], (2 + List.length ws + 1)%nat)
                | _ => None
                end
            end
        | _, _ => None
        end
      else None
  | _ => None
  end.

(** [s.replace(/<v\s+([^>]+)>/gi, '$1: ')].  [skip] counts the code units of
    the current match that are still to be passed over. *)
Fixpoint replaceVoiceOpen (skip : nat) (s : jsstring) : jsstring :=
  match s with
  | [] => []
  | c :: r =>
      match skip with
      | S k => replaceVoiceOpen k r
      | O =>
          match matchVoiceOpen (c :: r) with
          | Some (name, len) =>
              name ++ js ": " ++ replaceVoiceOpen (len - 1) r
          | None => c :: replaceVoiceOpen 0 r
          end
      end
  end.

(** One match of [/<\/v>/i] at the head of [s]. *)
Definition matchVoiceClose (s : jsstring) : bool :=
  match s with
  | a :: b :: c :: d :: _ =>
      (a =? 60) && (b =? 47) && (upperAscii c =? 86) && (d =? 62)
  | _ => false
  end.

(** [s.replace(/<\/v>/gi, '')] *)
Fixpoint removeVoiceClose (skip : nat) (s : jsstring) : jsstring :=
  match s with
  | [] => []
  | c :: r =>
      match skip with
      | S k => removeVoiceClose k r
      | O =>
          if matchVoiceClose (c :: r) then removeVoiceClose 3 r
          else c :: removeVoiceClose 0 r
      end
  end.

(** One match of [/<[^>]+>/] at the head of [s]: its length. *)
Definition matchTag (s : jsstring) : option nat :=
  match s with
  | lt :: rest =>
      if lt =? 60 then
        let (body, rest1) := span notGt rest in
        match body, rest1 with
        | _ :: _, _ :: _ => Some (1 + List.length body + 1)%nat
        | _, _ => None
        end
      else None
  | [] => None
  end.

(** [s.replace(/<[^>]+>/g, '')] *)
Fixpoint removeTags (skip : nat) (s : jsstring) : jsstring :=
  match s with
  | [] => []
  | c :: r =>
      match skip with
      | S k => removeTags k r
      | O =>
          match matchTag (c :: r) with
          | Some len => removeTags (len - 1) r
          | None => c :: removeTags 0 r
          end
      end
  end.

(** [s.replace(/\s{2,}/g, ' ')]: [inRun] holds inside a run of two or more
    white-space code units whose single space is already written. *)
Fixpoint collapseSpaces (inRun : bool) (s : jsstring) : jsstring :=
  match s with
  | [] => []
  | c :: r =>
      if isSpace c then
        if inRun then collapseSpaces true r
        else if startsWithSpace r then 32 :: collapseSpaces true r
        else c :: collapseSpaces false r
      else c :: collapseSpaces false r
  end.

(** The dialogue branch of the loop body: the four replacements and the
    final trim. *)
Definition cleanDialogue (trimmed : jsstring) : jsstring :=
  let cleaned := replaceVoiceOpen 0 trimmed in
  let cleaned := removeVoiceClose 0 cleaned in
  let cleaned := removeTags 0 cleaned in
  trim (collapseSpaces false cleaned).

(** *** The line loop of cleanVttTranscript *)

Record LoopState := { cleanedLines : list jsstring; skipNote : bool }.

Definition cleanStep (st : LoopState) (line : jsstring) : LoopState :=
  let trimmed := trim line in
  if negb (truthy trimmed) then
    {| cleanedLines := cleanedLines st; skipNote := false |}
  else if isHeaderLine trimmed then st
  else if isNoteLine trimmed then
    {| cleanedLines := cleanedLines st; skipNote := true |}
  else if skipNote st then st
  else if isTimingLine trimmed then st
  else if isNumericId trimmed then st
  else if isUuidId trimmed then st
  else
    let cleaned := cleanDialogue trimmed in
    if truthy cleaned then
      {| cleanedLines := cleanedLines st ++ [cleaned];
         skipNote := skipNote st |}
    else st.

Definition cleanLines (rawVtt : jsstring) : list jsstring :=
  cleanedLines
    (fold_left cleanStep (splitLines rawVtt)
       {| cleanedLines := []; skipNote := false |}).

(** *** mergeSpeakerLines *)

Definition notColon (c : N) : bool := negb (c =? 58).

(** [line.match(/^([^:]+):\s*(REST)/)] with [.*] for REST: the two groups.
    The first group is everything before the first colon and must not be
    empty; the second runs from the first non-space code unit after the
    colon to the next line terminator. *)
Definition speakerMatch (line : jsstring) : option (jsstring * jsstring) :=
  let (g1, rest) := span notColon line in
  match g1, rest with
  | _ :: _, _ :: r =>
      Some (g1, fst (span (fun c => negb (isLineTerminator c)) (skipSpaces r)))
  | _, _ => None
  end.

Record MergeState := {
  merged : list jsstring;
  currentSpeaker : jsstring;
  currentText : jsstring
}.

(** [`${currentSpeaker}: ${currentText}`] *)
Definition paragraph (speaker text : jsstring) : jsstring :=
  speaker ++ js ": " ++ text.

Definition mergeStep (st : MergeState) (line : jsstring) : MergeState :=
  match speakerMatch line with
  | Some (g1, g2) =>
      let speaker := trim g1 in
      let text := trim g2 in
      if streq speaker (currentSpeaker st) then
        {| merged := merged st;
           currentSpeaker := currentSpeaker st;
           currentText := currentText st ++ js " " ++ text |}
      else
        {| merged :=
             if truthy (currentSpeaker st)
             then merged st ++ [paragraph (currentSpeaker st) (currentText st)]
             else merged st;
           currentSpeaker := speaker;
           currentText := text |}
  | None =>
      if truthy (currentSpeaker st) then
        {| merged := merged st;
           currentSpeaker := currentSpeaker st;
           currentText := currentText st ++ js " " ++ line |}
      else
        {| merged := merged st ++ [line];
           currentSpeaker := currentSpeaker st;
           currentText := currentText st |}
  end.

Definition mergeFlush (st : MergeState) : list jsstring :=
  if truthy (currentSpeaker st)
  then merged st ++ [paragraph (currentSpeaker st) (currentText st)]
  else merged st.

Definition mergeInit : MergeState :=
  {| merged := []; currentSpeaker := []; currentText := [] |}.

Definition mergeSpeakerLines (lines : list jsstring) : jsstring :=
  match lines with
  | [] => []
  | _ :: _ => join [10] (mergeFlush (fold_left mergeStep lines mergeInit))
  end.

Definition cleanVttTranscript (rawVtt : jsstring) : jsstring :=
  mergeSpeakerLines (cleanLines rawVtt).

End VttParser.

(* ================================================================== *)
(** ** encodeURIComponent and decodeURIComponent (ECMA-262, 19.2.6) *)

Module Uri.

Import JsString.
Open Scope N_scope.

Definition hexValue (c : N) : option N :=
  if isDigit c then Some (c - 48)
  else if (65 <=? c) && (c <=? 70) then Some (c - 55)
  else if (97 <=? c) && (c <=? 102) then Some (c - 87)
  else None.

(** ParseHexOctet: the two hexadecimal digits at the head of [s]. *)
Definition parseHexOctet (s : jsstring) : option N :=
  match s with
  | h :: l :: _ =>
      match hexValue h, hexValue l with
      | Some a, Some b => Some (16 * a + b)
      | _, _ => None
      end
  | _ => None
  end.

(** An escape [%XX] at the head of [s]. *)
Definition readEscape (s : jsstring) : option N :=
  match s with
  | c :: r => if c =? 37 then parseHexOctet r else None
  | [] => None
  end.

(** [k] escapes in a row. *)
Fixpoint readEscapes (k : nat) (s : jsstring) : option (list N) :=
  match k with
  | O => Some []
  | S k' =>
      match readEscape s, readEscapes k' (skipn 3 s) with
      | Some b, Some bs => Some (b :: bs)
      | _, _ => None
      end
  end.

(** The number of leading 1 bits of an octet. *)
Definition leadingOnes (b : N) : nat :=
  if b <? 128 then 0 else if b <? 192 then 1 else if b <? 224 then 2
  else if b <? 240 then 3 else if b <? 248 then 4 else 5.

Definition isContinuation (b : N) : bool := (128 <=? b) && (b <? 192).

(** The code point of a well-formed UTF-8 sequence of two to four octets;
    overlong forms, surrogates and values above U+10FFFF are ill-formed. *)
Definition utf8CodePoint (octets : list N) : option N :=
  match octets with
  | [b0; b1] =>
      let cp := N.land b0 31 * 64 + N.land b1 63 in
      if isContinuation b1 && (128 <=? cp) then Some cp else None
  | [b0; b1; b2] =>
      let cp := N.land b0 15 * 4096 + N.land b1 63 * 64 + N.land b2 63 in
      if isContinuation b1 && isContinuation b2 && (2048 <=? cp)
         && negb ((55296 <=? cp) && (cp <=? 57343))
      then Some cp else None
  | [b0; b1; b2; b3] =>
      let cp := N.land b0 7 * 262144 + N.land b1 63 * 4096
                + N.land b2 63 * 64 + N.land b3 63 in
      if isContinuation b1 && isContinuation b2 && isContinuation b3
         && (65536 <=? cp) && (cp <=? 1114111)
      then Some cp else None
  | _ => None
  end.

(** UTF16EncodeCodePoint *)
Definition utf16Encode (cp : N) : jsstring :=
  if cp <? 65536 then [cp]
  else [55296 + (cp - 65536) / 1024; 56320 + (cp - 65536) mod 1024].

Definition prepend (a : jsstring) (r : option jsstring) : option jsstring :=
  match r with Some b => Some (a ++ b) | None => None end.

(** Decode with an empty reserved set; [None] is a thrown URIError.  [skip]
    counts the code units of the current escape sequence still to pass. *)
Fixpoint decodeFrom (skip : nat) (s : jsstring) : option jsstring :=
  match s with
  | [] => Some []
  | c :: r =>
      match skip with
      | S k => decodeFrom k r
      | O =>
          if c =? 37 then
            match parseHexOctet r with
            | None => None
            | Some b =>
                match leadingOnes b with
                | O => prepend [b] (decodeFrom 2 r)
                | S O => None
                | S (S (S (S (S _)))) => None
                | S m =>
                    match readEscapes m (skipn 2 r) with
                    | None => None
                    | Some rest =>
                        match utf8CodePoint (b :: rest) with
                        | None => None
                        | Some cp =>
                            prepend (utf16Encode cp)
                              (decodeFrom (3 * S m - 1) r)
                        end
                    end
                end
            end
          else prepend [c] (decodeFrom 0 r)
      end
  end.

Definition decodeURIComponent (s : jsstring) : option jsstring :=
  decodeFrom 0 s.

(** The code units encodeURIComponent leaves as they are: ASCII letters,
    digits and [- _ . ! ~ * ' ( )]. *)
Definition isUnescaped (c : N) : bool :=
  isWordChar c || (c =? 45) || (c =? 46) || (c =? 33) || (c =? 126)
  || (c =? 42) || (c =? 39) || (c =? 40) || (c =? 41).

Definition isHighSurrogate (c : N) : bool := (55296 <=? c) && (c <=? 56319).
Definition isLowSurrogate (c : N) : bool := (56320 <=? c) && (c <=? 57343).

Definition utf8Encode (cp : N) : list N :=
  if cp <? 128 then [cp]
  else if cp <? 2048 then [192 + cp / 64; 128 + cp mod 64]
  else if cp <? 65536 then
    [224 + cp / 4096; 128 + (cp / 64) mod 64; 128 + cp mod 64]
  else
    [240 + cp / 262144; 128 + (cp / 4096) mod 64;
     128 + (cp / 64) mod 64; 128 + cp mod 64].

Definition hexDigit (n : N) : N := if n <? 10 then 48 + n else 55 + n.

Definition escapeOctets (octets : list N) : jsstring :=
  flat_map (fun b => [37; hexDigit (b / 16); hexDigit (b mod 16)]) octets.

(** Encode; [None] is a thrown URIError (an unpaired surrogate). *)
Fixpoint encodeFrom (skip : nat) (s : jsstring) : option jsstring :=
  match s with
  | [] => Some []
  | c :: r =>
      match skip with
      | S k => encodeFrom k r
      | O =>
          if isUnescaped c then prepend [c] (encodeFrom 0 r)
          else if isLowSurrogate c then None
          else if isHighSurrogate c then
            match r with
            | d :: _ =>
                if isLowSurrogate d then
                  prepend
                    (escapeOctets
                       (utf8Encode (65536 + (c - 55296) * 1024 + (d - 56320))))
                    (encodeFrom 1 r)
                else None
            | [] => None
            end
          else prepend (escapeOctets (utf8Encode c)) (encodeFrom 0 r)
      end
  end.

Definition encodeURIComponent (s : jsstring) : option jsstring :=
  encodeFrom 0 s.

End Uri.

(* ================================================================== *)
(** ** JavaScript numbers *)

Module JsNumber.

Import QArith Qround SpecFloat.

(** A Number is an IEEE 754 binary64 value, not a number included: the
    [spec_float] of the Standard Library with 53 bits of precision and the
    exponent 1024 of the infinities.  The doubles are the values [isDouble]
    accepts. *)
Definition number : Type := spec_float.

Definition isDouble (x : number) : bool := valid_binary 53 1024 x.

(** The Number of an integer literal. *)
Definition ofZ (z : Z) : number := binary_normalize 53 1024 z 0 false.

(** [x * y], rounded to the nearest double, ties to even. *)
Definition mul (x y : number) : number := SFmul 53 1024 x y.

Definition isNaN (x : number) : bool :=
  match x with S754_nan => true | _ => false end.

Definition isNegZero (x : number) : bool :=
  match x with S754_zero true => true | _ => false end.

Definition isPosZero (x : number) : bool :=
  match x with S754_zero false => true | _ => false end.

(** What a Number stands for; the comparisons of the language go by it. *)
Inductive value :=
| NotANumber
| MinusInfinity
| Real (q : Q)
| PlusInfinity.

Definition valueOf (x : number) : value :=
  match x with
  | S754_nan => NotANumber
  | S754_infinity true => MinusInfinity
  | S754_infinity false => PlusInfinity
  | S754_zero _ => Real 0
  | S754_finite s m e => Real (inject_Z (if s then Zneg m else Zpos m) * 2 ^ e)
  end.

(** The value of [xs.length]: the length of an array is an integer below
    2^32, and every such integer is a Number. *)
Definition lengthValue (n : nat) : value := Real (inject_Z (Z.of_nat n)).

(** Number::lessThan, on the values of its operands; [None] is its
    undefined. *)
Definition lessThan (x y : value) : option bool :=
  match x, y with
  | NotANumber, _ | _, NotANumber => None
  | PlusInfinity, _ => Some false
  | _, PlusInfinity => Some true
  | _, MinusInfinity => Some false
  | MinusInfinity, _ => Some true
  | Real p, Real q => Some (negb (Qle_bool q p))
  end.

(** [x >= y]: false when [x < y] is true or undefined. *)
Definition geq (x y : value) : bool :=
  match lessThan x y with
  | Some false => true
  | _ => false
  end.

Module Math.

(** One round of the loop of Math.min over its arguments. *)
Definition lower (lowest n : number) : number :=
  if isNegZero n && isPosZero lowest then n
  else match lessThan (valueOf n) (valueOf lowest) with
       | Some true => n
       | _ => lowest
       end.

(** [Math.min(a, b)] *)
Definition min (a b : number) : number :=
  if isNaN a || isNaN b then S754_nan
  else lower (lower (S754_infinity false) a) b.

End Math.

(** The least integer that is not below a finite Number. *)
Definition ceiling (x : number) : option Z :=
  match valueOf x with
  | Real q => Some (Qceiling q)
  | _ => None
  end.

(** The greatest integer that is not above a finite Number. *)
Definition floor (x : number) : option Z :=
  match valueOf x with
  | Real q => Some (Qfloor q)
  | _ => None
  end.

Arguments ofZ : simpl never.
Arguments mul : simpl never.
Arguments Math.min : simpl never.
Arguments geq : simpl never.

End JsNumber.

(* ================================================================== *)
(** ** graph.ts *)

Module Graph.

Import JsString Uri JsNumber.

Definition GRAPH_BASE : jsstring := js "https://graph.microsoft.com/v1.0".

(** *** Types *)

Module OnlineMeeting.
Record t := {
  id : jsstring;
  subject : jsstring;
  startDateTime : jsstring;
  endDateTime : jsstring;
  joinWebUrl : jsstring
}.
(** [meeting.subject = s] *)
Definition setSubject (s : jsstring) (m : t) : t :=
  {| id := id m; subject := s; startDateTime := startDateTime m;
     endDateTime := endDateTime m; joinWebUrl := joinWebUrl m |}.
End OnlineMeeting.

Module TranscriptInfo.
(** [transcriptContentUrl] is not in the interface; server.ts reads it from
    the object the service sent, where it may be missing. *)
Record t := {
  id : jsstring;
  meetingId : jsstring;
  createdDateTime : jsstring;
  transcriptContentUrl : option jsstring
}.
(** [{ ...t, meetingId }] *)
Definition setMeetingId (mid : jsstring) (x : t) : t :=
  {| id := id x; meetingId := mid; createdDateTime := createdDateTime x;
     transcriptContentUrl := transcriptContentUrl x |}.
End TranscriptInfo.

Record DateTimeTimeZone := { dateTime : jsstring; timeZone : jsstring }.

Record JoinInfo := { joinUrl : jsstring }.

Module CalendarEvent.
(** [subject] is [None] when the event carries none (the code guards every
    use with [?.] or [||]); [onlineMeeting] is optional in the interface. *)
Record t := {
  subject : option jsstring;
  start : DateTimeTimeZone;
  end_ : DateTimeTimeZone;
  isOnlineMeeting : bool;
  onlineMeeting : option JoinInfo
}.
End CalendarEvent.

(** [e.onlineMeeting?.joinUrl] where it is truthy. *)
Definition joinUrlOf (e : CalendarEvent.t) : option jsstring :=
  match CalendarEvent.onlineMeeting e with
  | Some j => if truthy (joinUrl j) then Some (joinUrl j) else None
  | None => None
  end.

(** *** The Graph service *)

Inductive exn :=
| GraphApiError (status : N) (body : jsstring)
| FetchFailure
| JsonSyntaxError
| URIError
| TypeError.

(** The four requests graph.ts sends.  The calendarView URL is built with
    URLSearchParams from three varying parameters, which stand for it here
    ([$top] is the String of the Number [top]); the other requests are
    identified by their URL. *)
Inductive Request :=
| CalendarViewRequest (startDateTime endDateTime : jsstring) (top : number)
| MeetingLookup (url : jsstring)
| TranscriptList (url : jsstring)
| ContentDownload (url : jsstring).

(** A JSON object [{ value: X[] }]; [value] may be missing. *)
Record Collection (X : Type) := { value : option (list X) }.

(** The body of a reply as [res.json()] reads it. *)
Inductive Body (T : Type) :=
| NotJson
| JsonNull
| JsonObject (data : T).

Arguments NotJson {T}.
Arguments JsonNull {T}.
Arguments JsonObject {T} data.

(** The shape the caller casts the JSON body of a reply to. *)
Definition Payload (r : Request) : Type :=
  match r with
  | CalendarViewRequest _ _ _ => Collection CalendarEvent.t
  | MeetingLookup _ => Collection OnlineMeeting.t
  | TranscriptList _ => Collection TranscriptInfo.t
  | ContentDownload _ => unit
  end.

(** A [fetch] either fails, or answers with a status that is not ok, or
    answers ok with a body, which [res.json()] and [res.text()] read. *)
Inductive Reply (T : Type) :=
| NetworkError
| NotOk (status : N) (message : jsstring)
| Ok (json : Body T) (text : jsstring).

Arguments NetworkError {T}.
Arguments NotOk {T} status message.
Arguments Ok {T} json text.

(** What the program runs against: the Graph service as a state machine
    answering requests, and the two things of the JavaScript host that are
    left abstract, Unicode lower-casing and the clock. *)
Class GraphService := {
  service : Type;
  respond : forall r : Request, jsstring -> service -> Reply (Payload r) * service;
  toLowerCase : jsstring -> jsstring;
  isoDaysFromNow : Z -> service -> jsstring
}.

(** The lines graph.ts writes to the console, by what they report (their
    wording is left out). *)
Inductive Diagnostic :=
| GetFailed (r : Request) (err : exn)
| CalendarViewRequested (startDT endDT : jsstring)
| CalendarViewReturned (events : nat)
| CouldNotResolve (joinUrl : jsstring)
| ResolutionFailed (subject : option jsstring) (joinUrl : jsstring)
| TeamsEvents (withJoinUrl events : nat)
| ResolvedMeetings (resolved : nat)
| NameMatches (meetingName : jsstring) (matches events : nat) (subjects : list (option jsstring))
| NoNameMatch (meetingName : jsstring) (subjects : list (option jsstring))
| NameResolved (resolved : nat).

(** What a run leaves behind: the requests sent, the console lines, and a
    mark for each entry into resolveOnlineMeeting. *)
Inductive Event :=
| Sent (r : Request)
| Logged (d : Diagnostic)
| Resolving (joinUrl : jsstring).

Inductive Outcome (A : Type) :=
| Returned (a : A)
| Thrown (e : exn).

Arguments Returned {A} a.
Arguments Thrown {A} e.

Section Client.

Context {G : GraphService}.

Record Run (A : Type) := {
  outcome : Outcome A;
  after : service;
  emitted : list Event
}.

(** An async function: from the state of the service to its outcome. *)
Definition M (A : Type) : Type := service -> Run A.

Definition ret {A} (a : A) : M A :=
  fun s => {| outcome := Returned a; after := s; emitted := [] |}.

Definition throw {A} (e : exn) : M A :=
  fun s => {| outcome := Thrown e; after := s; emitted := [] |}.

Definition bind {A B} (m : M A) (f : A -> M B) : M B :=
  fun s =>
    let r := m s in
    match outcome r with
    | Returned a =>
        let r' := f a (after r) in
        {| outcome := outcome r'; after := after r';
           emitted := emitted r ++ emitted r' |}
    | Thrown e =>
        {| outcome := Thrown e; after := after r; emitted := emitted r |}
    end.

(** [try { m } catch (err) { h err }] *)
Definition tryCatch {A} (m : M A) (h : exn -> M A) : M A :=
  fun s =>
    let r := m s in
    match outcome r with
    | Returned a => r
    | Thrown e =>
        let r' := h e (after r) in
        {| outcome := outcome r'; after := after r';
           emitted := emitted r ++ emitted r' |}
    end.

Definition emit (e : Event) : M unit :=
  fun s => {| outcome := Returned tt; after := s; emitted := [e] |}.

(** [console.log], [console.warn], [console.error] *)
Definition log (d : Diagnostic) : M unit := emit (Logged d).

Notation "x <- m1 ;; m2" := (bind m1 (fun x => m2))
  (at level 100, m1 at next level, right associativity).

(** *** Graph helpers *)

(** The response of a fetch that was ok. *)
Record Response (T : Type) := { json : Body T; text : jsstring }.

Definition graphGet (r : Request) (accessToken : jsstring) : M (Response (Payload r)) :=
  fun s =>
    let (reply, s') := respond r accessToken s in
    {| outcome :=
         match reply with
         | NetworkError => Thrown FetchFailure
         | NotOk status message => Thrown (GraphApiError status message)
         | Ok j t => Returned {| json := j; text := t |}
         end;
       after := s';
       emitted := [Sent r] |}.

(** [await res.json()] *)
Definition resJson {T} (res : Response T) : M (option T) :=
  match json res with
  | JsonObject data => ret (Some data)
  | JsonNull => ret None
  | NotJson => throw JsonSyntaxError
  end.

(** Non-throwing GET that returns the parsed JSON or null on error. *)
Definition graphGetSafe (r : Request) (accessToken : jsstring) : M (option (Payload r)) :=
  tryCatch (res <- graphGet r accessToken ;; resJson res)
           (fun err => _ <- log (GetFailed r err) ;; ret None).

(** [data?.value || []] *)
Definition valueOrEmpty {X} (data : option (Collection X)) : list X :=
  match data with
  | Some {| value := Some v |} => v
  | _ => []
  end.

Definition fetchCalendarEvents (accessToken startDT endDT : jsstring) (maxEvents : number) : M (list CalendarEvent.t) :=
  _ <- log (CalendarViewRequested startDT endDT) ;;
  data <- graphGetSafe (CalendarViewRequest startDT endDT (Math.min maxEvents (ofZ 100))) accessToken ;;
  let events := valueOrEmpty data in
  _ <- log (CalendarViewReturned (List.length events)) ;;
  ret events.

Definition buildDateRange (filterDate : option jsstring) : M (jsstring * jsstring) :=
  match filterDate with
  | Some d =>
      if truthy d then ret (d ++ js "T00:00:00Z", d ++ js "T23:59:59Z")
      else fun s => ret (isoDaysFromNow (-30) s, isoDaysFromNow 7 s) s
  | None => fun s => ret (isoDaysFromNow (-30) s, isoDaysFromNow 7 s) s
  end.

(** The URL of the lookup by join URL; [None] when encodeURIComponent
    throws. *)
Definition lookupUrl (joinUrl : jsstring) : option jsstring :=
  match encodeURIComponent (js "JoinWebUrl eq '" ++ joinUrl ++ js "'") with
  | Some q => Some (GRAPH_BASE ++ js "/me/onlineMeetings?$filter=" ++ q)
  | None => None
  end.

(** [data?.value?.[0] ?? null] *)
Definition firstOrNull {X} (data : option (Collection X)) : option X :=
  match data with
  | Some {| value := Some (x :: _) |} => Some x
  | _ => None
  end.

Definition tryResolveByJoinUrl (accessToken joinUrl : jsstring) : M (option OnlineMeeting.t) :=
  match lookupUrl joinUrl with
  | Some url =>
      data <- graphGetSafe (MeetingLookup url) accessToken ;;
      ret (firstOrNull data)
  | None => throw URIError
  end.

Definition resolveOnlineMeeting (accessToken joinUrl : jsstring) : M (option OnlineMeeting.t) :=
  _ <- emit (Resolving joinUrl) ;;
  result <- tryResolveByJoinUrl accessToken joinUrl ;;
  match result with
  | Some m => ret (Some m)
  | None =>
      match decodeURIComponent joinUrl with
      | None => throw URIError
      | Some decoded =>
          if negb (streq decoded joinUrl) then
            result2 <- tryResolveByJoinUrl accessToken decoded ;;
            match result2 with
            | Some m => ret (Some m)
            | None => _ <- log (CouldNotResolve joinUrl) ;; ret None
            end
          else _ <- log (CouldNotResolve joinUrl) ;; ret None
      end
  end.

(** [event.subject || meeting.subject] *)
Definition preferredSubject (e : CalendarEvent.t) (m : OnlineMeeting.t) : jsstring :=
  match CalendarEvent.subject e with
  | Some s => if truthy s then s else OnlineMeeting.subject m
  | None => OnlineMeeting.subject m
  end.

Definition resolveCalendarEvent (accessToken : jsstring) (event : CalendarEvent.t) : M (option OnlineMeeting.t) :=
  match joinUrlOf event with
  | None => ret None
  | Some joinUrl =>
      meeting <- resolveOnlineMeeting accessToken joinUrl ;;
      match meeting with
      | Some m => ret (Some (OnlineMeeting.setSubject (preferredSubject event m) m))
      | None =>
          _ <- log (ResolutionFailed (CalendarEvent.subject event) joinUrl) ;;
          ret None
      end
  end.

(** *** Public API *)

Definition hasJoinUrl (e : CalendarEvent.t) : bool :=
  match joinUrlOf e with Some _ => true | None => false end.

(** The loop of listMeetings: it stops when [resolved.length >= limit]. *)
Fixpoint resolveUpTo (accessToken : jsstring) (limit : number) (events : list CalendarEvent.t) (resolved : list OnlineMeeting.t) : M (list OnlineMeeting.t) :=
  match events with
  | [] => ret resolved
  | event :: rest =>
      if geq (lengthValue (List.length resolved)) (valueOf limit) then ret resolved
      else
        meeting <- resolveCalendarEvent accessToken event ;;
        match meeting with
        | Some m => resolveUpTo accessToken limit rest (resolved ++ [m])
        | None => resolveUpTo accessToken limit rest resolved
        end
  end.

Definition listMeetings (accessToken : jsstring) (top : option number) (filterDate : option jsstring) : M (list OnlineMeeting.t) :=
  let limit := match top with Some n => n | None => ofZ 10 end in
  range <- buildDateRange filterDate ;;
  events <- fetchCalendarEvents accessToken (fst range) (snd range)
              (Math.min (mul limit (ofZ 3)) (ofZ 100)) ;;
  let teamsMeetings := filter hasJoinUrl events in
  _ <- log (TeamsEvents (List.length teamsMeetings) (List.length events)) ;;
  resolved <- resolveUpTo accessToken limit teamsMeetings [] ;;
  _ <- log (ResolvedMeetings (List.length resolved)) ;;
  ret resolved.

Definition listTranscripts (accessToken meetingId : jsstring) : M (list TranscriptInfo.t) :=
  let url := GRAPH_BASE ++ js "/me/onlineMeetings/" ++ meetingId ++ js "/transcripts" in
  res <- graphGet (TranscriptList url) accessToken ;;
  data <- resJson res ;;
  match data with
  | None => throw TypeError
  | Some coll =>
      ret (List.map (TranscriptInfo.setMeetingId meetingId)
             (match value coll with Some v => v | None => [] end))
  end.

Definition getTranscriptContent (accessToken meetingId transcriptId : jsstring) : M jsstring :=
  let url := GRAPH_BASE ++ js "/me/onlineMeetings/" ++ meetingId
             ++ js "/transcripts/" ++ transcriptId
             ++ js "/content?$format=text/vtt" in
  res <- graphGet (ContentDownload url) accessToken ;;
  ret (text res).

(** The filter of findMeetingsByName:
    [e.subject?.toLowerCase().includes(needle) && e.onlineMeeting?.joinUrl] *)
Definition nameMatch (needle : jsstring) (e : CalendarEvent.t) : bool :=
  match CalendarEvent.subject e with
  | Some s => includes (toLowerCase s) needle
  | None => false
  end && hasJoinUrl e.

(** The loop of findMeetingsByName. *)
Fixpoint resolveAll (accessToken : jsstring) (events : list CalendarEvent.t) (resolved : list OnlineMeeting.t) : M (list OnlineMeeting.t) :=
  match events with
  | [] => ret resolved
  | event :: rest =>
      meeting <- resolveCalendarEvent accessToken event ;;
      match meeting with
      | Some m => resolveAll accessToken rest (resolved ++ [m])
      | None => resolveAll accessToken rest resolved
      end
  end.

Definition findMeetingsByName (accessToken meetingName : jsstring) (meetingDate : option jsstring) : M (list OnlineMeeting.t) :=
  range <- buildDateRange meetingDate ;;
  events <- fetchCalendarEvents accessToken (fst range) (snd range) (ofZ 100) ;;
  let needle := toLowerCase meetingName in
  let nameMatches := filter (nameMatch needle) events in
  let subjects := List.map CalendarEvent.subject events in
  _ <- log (NameMatches meetingName (List.length nameMatches)
              (List.length events) subjects) ;;
  match nameMatches with
  | [] => _ <- log (NoNameMatch meetingName subjects) ;; ret []
  | _ :: _ =>
      resolved <- resolveAll accessToken nameMatches [] ;;
      _ <- log (NameResolved (List.length resolved)) ;;
      ret resolved
  end.

End Client.

End Graph.

(* ================================================================== *)
(** ** server.ts: the tool handlers *)

Module Server.

Import JsString VttParser JsNumber Graph.

Notation "x <- m1 ;; m2" := (bind m1 (fun x => m2))
  (at level 100, m1 at next level, right associativity).

Definition quote : jsstring := [34%N].
Definition newline : jsstring := [10%N].

(** [{ content: [{ type: 'text', text }], isError }] *)
Record ToolResult := { content : jsstring; isError : bool }.

Definition reply (t : jsstring) : ToolResult :=
  {| content := t; isError := false |}.

(** [args.date], and [args.limit] when [typeof args.limit] is ['number']. *)
Record ListArgs := { date : option jsstring; limit : option number }.

Record TranscriptArgs := {
  meetingName : option jsstring;
  meetingDate : option jsstring
}.

(** The truthiness of an optional string. *)
Definition given (o : option jsstring) : option jsstring :=
  match o with
  | Some s => if truthy s then Some s else None
  | None => None
  end.

(** String concatenation with a value that may be undefined. *)
Definition show (o : option jsstring) : jsstring :=
  match o with Some s => s | None => js "undefined" end.

Definition showNat (n : nat) : jsstring :=
  js (DecimalString.NilZero.string_of_uint (Nat.to_uint n)).

Record Listing := {
  subject : jsstring;
  startDateTime : jsstring;
  endDateTime : jsstring;
  meetingId : jsstring;
  hasTranscript : bool
}.

Definition renderListing (i : nat) (r : Listing) : jsstring :=
  showNat (i + 1) ++ js ". **" ++ subject r ++ js "**" ++ newline ++
  js "   Start: " ++ startDateTime r ++ newline ++
  js "   End: " ++ endDateTime r ++ newline ++
  js "   Transcript: " ++
    (if hasTranscript r then js "Available" else js "Not available") ++ newline ++
  js "   Meeting ID: " ++ meetingId r.

Fixpoint renderListings (i : nat) (rs : list Listing) : list jsstring :=
  match rs with
  | [] => []
  | r :: rs' => renderListing i r :: renderListings (S i) rs'
  end.

Definition notFoundText (name : jsstring) (onDate : option jsstring) : jsstring :=
  js "No meeting found matching " ++ quote ++ name ++ quote ++
  match given onDate with Some d => js " on " ++ d | None => [] end ++
  js ". Try broadening your search term or checking the date.".

Definition noTranscriptText (m : OnlineMeeting.t) : jsstring :=
  js "Meeting " ++ quote ++ OnlineMeeting.subject m ++ quote ++
  js " was found (" ++ OnlineMeeting.startDateTime m ++
  js ") but has no transcript available. Ensure transcription was enabled during the meeting.".

Definition transcriptHeader (m : OnlineMeeting.t) (t : TranscriptInfo.t) : jsstring :=
  js "Meeting: " ++ OnlineMeeting.subject m ++ newline ++
  js "Date: " ++ OnlineMeeting.startDateTime m ++ newline ++
  js "Transcript URL: " ++ show (TranscriptInfo.transcriptContentUrl t) ++ newline ++
  js "Transcript ID: " ++ TranscriptInfo.id t ++ newline ++
  js "Transcript created: " ++ TranscriptInfo.createdDateTime t ++ newline ++
  js "---" ++ newline ++ newline.

Section Handlers.

Context {G : GraphService}.

(** The availability probe of one meeting; a failure of listTranscripts
    leaves [hasTranscript] false. *)
Definition probe (graphToken : jsstring) (m : OnlineMeeting.t) : M Listing :=
  has <- tryCatch
           (transcripts <- listTranscripts graphToken (OnlineMeeting.id m) ;;
            ret (match transcripts with [] => false | _ :: _ => true end))
           (fun _ => ret false) ;;
  ret {| subject := if truthy (OnlineMeeting.subject m)
                    then OnlineMeeting.subject m else js "(No subject)";
         startDateTime := OnlineMeeting.startDateTime m;
         endDateTime := OnlineMeeting.endDateTime m;
         meetingId := OnlineMeeting.id m;
         hasTranscript := has |}.

(** [Promise.all(meetings.map(probe))]; the probes start in the order of
    the list, and the service answers them in that order. *)
Fixpoint probeAll (graphToken : jsstring) (meetings : list OnlineMeeting.t) : M (list Listing) :=
  match meetings with
  | [] => ret []
  | m :: rest =>
      r <- probe graphToken m ;;
      rs <- probeAll graphToken rest ;;
      ret (r :: rs)
  end.

(** What handleListRecentMeetings does with the meetings it has got. *)
Definition recentMeetingsReply (graphToken : jsstring) (date : option jsstring) (meetings : list OnlineMeeting.t) : M ToolResult :=
  match meetings with
  | [] =>
      ret (reply (match given date with
                  | Some d => js "No meetings found for " ++ d ++ js "."
                  | None => js "No recent meetings found."
                  end))
  | _ :: _ =>
      results <- probeAll graphToken meetings ;;
      ret (reply (join (newline ++ newline) (renderListings 0 results)))
  end.

Definition handleListRecentMeetings (graphToken : jsstring) (args : ListArgs) : M ToolResult :=
  let limit := match limit args with Some n => n | None => ofZ 10 end in
  let top := Math.min limit (ofZ 50) in
  meetings <- listMeetings graphToken (Some top) (date args) ;;
  recentMeetingsReply graphToken (date args) meetings.

Definition handleGetMeetingTranscript (graphToken : jsstring) (args : TranscriptArgs) : M ToolResult :=
  match given (meetingName args) with
  | None => ret {| content := js "meetingName is required."; isError := true |}
  | Some name =>
      meetings <- findMeetingsByName graphToken name (meetingDate args) ;;
      match meetings with
      | [] => ret (reply (notFoundText name (meetingDate args)))
      | meeting :: _ =>
          transcripts <- listTranscripts graphToken (OnlineMeeting.id meeting) ;;
          match transcripts with
          | [] => ret (reply (noTranscriptText meeting))
          | t0 :: _ =>
              rawVtt <- getTranscriptContent graphToken (OnlineMeeting.id meeting)
                          (TranscriptInfo.id t0) ;;
              let cleanText := cleanVttTranscript rawVtt in
              ret (reply (transcriptHeader meeting t0 ++ cleanText))
          end
      end
  end.

End Handlers.

End Server.

(* ================================================================== *)
(** ** The cleaned transcript as a sequence of paragraphs *)

Module Transcript.

Import JsString VttParser.
Open Scope N_scope.

(** What mergeSpeakerLines pushes: a line without speaker, or the paragraph
    of one speaker turn. *)
Inductive Entry :=
| Unattributed (line : jsstring)
| Turn (speaker text : jsstring).

Definition render (e : Entry) : jsstring :=
  match e with
  | Unattributed line => line
  | Turn speaker text => paragraph speaker text
  end.

Definition speakerOf (e : Entry) : option jsstring :=
  match e with
  | Unattributed _ => None
  | Turn speaker _ => Some speaker
  end.

(** The merge pass once more, pushing entries where mergeStep pushes their
    rendering. *)
Record ViewState := {
  entries : list Entry;
  speaker : jsstring;
  buffer : jsstring
}.

Definition viewStep (st : ViewState) (line : jsstring) : ViewState :=
  match speakerMatch line with
  | Some (g1, g2) =>
      if streq (trim g1) (speaker st) then
        {| entries := entries st; speaker := speaker st;
           buffer := buffer st ++ js " " ++ trim g2 |}
      else
        {| entries :=
             if truthy (speaker st)
             then entries st ++ [Turn (speaker st) (buffer st)]
             else entries st;
           speaker := trim g1;
           buffer := trim g2 |}
  | None =>
      if truthy (speaker st) then
        {| entries := entries st; speaker := speaker st;
           buffer := buffer st ++ js " " ++ line |}
      else
        {| entries := entries st ++ [Unattributed line];
           speaker := speaker st; buffer := buffer st |}
  end.

Definition viewFlush (st : ViewState) : list Entry :=
  if truthy (speaker st)
  then entries st ++ [Turn (speaker st) (buffer st)]
  else entries st.

Definition viewInit : ViewState :=
  {| entries := []; speaker := []; buffer := [] |}.

Definition paragraphsOf (lines : list jsstring) : list Entry :=
  viewFlush (fold_left viewStep lines viewInit).

(** The paragraphs of the cleaned transcript of [rawVtt]. *)
Definition cleanedTranscript (rawVtt : jsstring) : list Entry :=
  paragraphsOf (cleanLines rawVtt).

(** No two neighbours are turns of the same speaker. *)
Fixpoint noRepeatedSpeaker (speakers : list (option jsstring)) : Prop :=
  match speakers with
  | [] => True
  | x :: rest =>
      match x, rest with
      | Some a, Some b :: _ => a <> b
      | _, _ => True
      end /\ noRepeatedSpeaker rest
  end.

(** Lines that are all metadata: each is blank, a header line, a NOTE line,
    a line of the comment block a NOTE line opens (which the next blank
    line ends), a timing line, or a numeric or UUID cue identifier.
    [inNote] tells whether the first line is inside a comment block. *)
Fixpoint isMetadataOnly (inNote : bool) (lines : list jsstring) : bool :=
  match lines with
  | [] => true
  | line :: rest =>
      let trimmed := trim line in
      if negb (truthy trimmed) then isMetadataOnly false rest
      else if isHeaderLine trimmed then isMetadataOnly inNote rest
      else if isNoteLine trimmed then isMetadataOnly true rest
      else if inNote then isMetadataOnly true rest
      else (isTimingLine trimmed || isNumericId trimmed || isUuidId trimmed)
           && isMetadataOnly false rest
  end.

Fixpoint noSpaceRun (s : jsstring) : bool :=
  match s with
  | [] => true
  | c :: r => negb (isSpace c && startsWithSpace r) && noSpaceRun r
  end.

(** Neither ['<'] nor a line terminator. *)
Definition isPlainUnit (c : N) : bool :=
  negb (c =? 60) && negb (isLineTerminator c).

(** Plain text: not empty, no white space at either end, no run of white
    space, no ['<'] and no line terminator. *)
Definition isPlain (s : jsstring) : bool :=
  truthy s && negb (startsWithSpace s) && negb (endsWithSpace s)
  && noSpaceRun s && forallb isPlainUnit s.

Definition isTurn (e : Entry) : bool :=
  match e with Turn _ _ => true | Unattributed _ => false end.

(** An entry the normaliser reads back as it is.  A turn: plain speaker
    without colon, plain text, and the paragraph is not taken for a header
    or a NOTE line.  A line without speaker: plain, without colon, and not
    taken for a header, a NOTE line or a cue identifier. *)
Definition isPlainEntry (e : Entry) : bool :=
  match e with
  | Unattributed line =>
      isPlain line && forallb notColon line
      && negb (isHeaderLine line) && negb (isNoteLine line)
      && negb (isNumericId line) && negb (isUuidId line)
  | Turn speaker text =>
      isPlain speaker && forallb notColon speaker && isPlain text
      && negb (isHeaderLine (paragraph speaker text))
      && negb (isNoteLine (paragraph speaker text))
  end.

(** *** Notions used in the proofs *)

(** A cleaned line is not empty and starts with something else than white
    space. *)
Definition isTrimmedLine (l : jsstring) : Prop :=
  l <> [] /\ startsWithSpace l = false.

(** The state of mergeSpeakerLines and its reading as entries agree. *)
Definition sameState (ms : MergeState) (vs : ViewState) : Prop :=
  merged ms = List.map render (entries vs)
  /\ currentSpeaker ms = speaker vs /\ currentText ms = buffer vs.

(** The lines without speaker come before the speaker turns. *)
Fixpoint unattributedFirst (es : list Entry) : bool :=
  match es with
  | [] => true
  | Unattributed _ :: rest => unattributedFirst rest
  | Turn _ _ :: rest => forallb isTurn rest
  end.

(** What the loop of the merge pass keeps true. *)
Definition viewInvariant (st : ViewState) : Prop :=
  noRepeatedSpeaker (List.map speakerOf (viewFlush st))
  /\ (speaker st = [] -> Forall (fun e => speakerOf e = None) (entries st)).

(** And: while there is no speaker there is no turn, and the lines without
    speaker come first. *)
Definition viewOrdered (st : ViewState) : Prop :=
  (speaker st = [] -> Forall (fun e => speakerOf e = None) (entries st))
  /\ unattributedFirst (entries st) = true.

(** Entries the merge pass takes one by one when its current speaker is
    [cur]: a line without speaker while there is no speaker yet, a turn
    when its speaker is not the current one. *)
Fixpoint readable (cur : jsstring) (es : list Entry) : Prop :=
  match es with
  | [] => True
  | Unattributed _ :: rest => cur = [] /\ readable [] rest
  | Turn sp _ :: rest => cur <> sp /\ readable sp rest
  end.

(** A line the loop of cleanVttTranscript keeps as it is. *)
Definition isKeptLine (l : jsstring) : Prop :=
  l <> [] /\ startsWithSpace l = false /\ endsWithSpace l = false
  /\ noSpaceRun l = true /\ forallb isPlainUnit l = true
  /\ isHeaderLine l = false /\ isNoteLine l = false /\ isTimingLine l = false
  /\ isNumericId l = false /\ isUuidId l = false.

(** Not ['<']. *)
Definition notLt (c : N) : bool := negb (c =? 60).

(** What a matcher consumes satisfies [q]. *)
Definition consumes (m : matcher) (q : N -> bool) : Prop :=
  forall s r, m s = Some r -> exists pre, s = pre ++ r /\ forallb q pre = true.

(** A hexadecimal digit or ['-']. *)
Definition isUuidUnit (c : N) : bool := isHex c || (c =? 45).

Definition lf : string := String "010"%char EmptyString.

(** The literal case of the specification. *)
Definition literalVtt : jsstring :=
  js ("WEBVTT" ++ lf ++ lf ++
      "1" ++ lf ++ "00:00:00.000 --> 00:00:02.000" ++ lf ++
      "<v Alice>Hello there.</v>" ++ lf ++ lf ++
      "2" ++ lf ++ "00:00:02.000 --> 00:00:04.000" ++ lf ++
      "<v Alice>How are you?</v>" ++ lf ++ lf ++
      "3" ++ lf ++ "00:00:04.000 --> 00:00:06.000" ++ lf ++
      "<v Bob>I'm fine thanks.</v>")%string.

Definition literalCleaned : jsstring :=
  js ("Alice: Hello there. How are you?" ++ lf ++ "Bob: I'm fine thanks.")%string.

(** A transcript whose second cue of Alice is empty. *)
Definition emptyCueVtt : jsstring :=
  js ("<v Alice>Hello</v>" ++ lf ++ "<v Alice></v>")%string.

(** A transcript made of metadata only. *)
Definition metadataVtt : jsstring :=
  js ("WEBVTT" ++ lf ++ lf ++
      "NOTE recorded" ++ lf ++ "<v Alice>not part of the dialogue</v>" ++ lf ++ lf ++
      "7" ++ lf ++ "00:00:00.000 --> 00:00:02.000" ++ lf ++
      "0f8fad5b-d9cb-469f-a165-70867728950e" ++ lf)%string.

End Transcript.


(* ================================================================== *)
(** ** Reading a run, and scripted services to run against *)

Module Scenario.

Import JsString Uri JsNumber Graph Server.
Open Scope N_scope.

(** The join URLs resolveOnlineMeeting was entered with, in order. *)
Fixpoint resolverCalls (evs : list Event) : list jsstring :=
  match evs with
  | [] => []
  | Resolving u :: rest => u :: resolverCalls rest
  | _ :: rest => resolverCalls rest
  end.

(** The requests sent, in order. *)
Fixpoint requests (evs : list Event) : list Request :=
  match evs with
  | [] => []
  | Sent r :: rest => r :: requests rest
  | _ :: rest => requests rest
  end.

(** The resolutions resolveCalendarEvent reported as failed. *)
Fixpoint failedResolutions (evs : list Event) : nat :=
  match evs with
  | [] => O
  | Logged (ResolutionFailed _ _) :: rest => S (failedResolutions rest)
  | _ :: rest => failedResolutions rest
  end.

Create Rewrite HintDb trace.

(** Brings the three readings above to the parts of a run. *)
Ltac read_trace :=
  repeat (progress
    (cbn [requests resolverCalls failedResolutions app];
     autorewrite with trace)).

Definition isContentDownload (r : Request) : bool :=
  match r with ContentDownload _ => true | _ => false end.

Definition isMeetingLookup (r : Request) : bool :=
  match r with MeetingLookup _ => true | _ => false end.

(** One more attempt that failed when the run ended in an exception. *)
Definition thrown {A} (o : Outcome A) : nat :=
  match o with Thrown _ => 1%nat | Returned _ => O end.

(** The request of the lookup by [joinUrl], when its URL can be built. *)
Definition lookupRequest (joinUrl : jsstring) : list Request :=
  match lookupUrl joinUrl with
  | Some url => [MeetingLookup url]
  | None => []
  end.

(** A run that sends nothing, resolves nothing and reports no failed
    resolution. *)
Definition quiet (evs : list Event) : Prop :=
  requests evs = [] /\ resolverCalls evs = [] /\ failedResolutions evs = O.

(** The join URLs of the events that carry one. *)
Definition joinUrls (events : list CalendarEvent.t) : list jsstring :=
  flat_map (fun e => match joinUrlOf e with Some u => [u] | None => [] end) events.

(** [options?.top ?? 10] *)
Definition limitOf (top : option number) : number :=
  match top with Some n => n | None => ofZ 10 end.

(** A count of meetings is below a limit when it is zero, or when the loop
    of listMeetings did not stop at one less: [count - 1 >= limit] is
    false. *)
Definition isBelowLimit (limit : number) (count : nat) : bool :=
  match count with
  | O => true
  | S n => negb (geq (lengthValue n) (valueOf limit))
  end.

(** How many events a service sends for a [$top]: the whole part of it,
    none for a [$top] that is not finite. *)
Definition topCount (top : number) : nat :=
  match floor top with Some n => Z.to_nat n | None => O end.

Section Reading.

Context {G : GraphService}.

(** The date range buildDateRange computes in state [s]. *)
Definition rangeAt (filterDate : option jsstring) (s : service) : jsstring * jsstring :=
  match given filterDate with
  | Some d => (d ++ js "T00:00:00Z", d ++ js "T23:59:59Z")
  | None => (isoDaysFromNow (-30) s, isoDaysFromNow 7 s)
  end.

(** The calendar events findMeetingsByName gets in state [s]. *)
Definition candidates (accessToken : jsstring) (meetingDate : option jsstring) (s : service) : list CalendarEvent.t :=
  let range := rangeAt meetingDate s in
  match outcome (fetchCalendarEvents accessToken (fst range) (snd range) (ofZ 100) s) with
  | Returned events => events
  | Thrown _ => []
  end.

(** The candidates that pass the filter of findMeetingsByName. *)
Definition nameMatches (accessToken meetingName : jsstring) (meetingDate : option jsstring) (s : service) : list CalendarEvent.t :=
  filter (nameMatch (toLowerCase meetingName)) (candidates accessToken meetingDate s).

(** The second lookup of resolveOnlineMeeting, when there is one: after a
    first lookup that found no meeting, for a decoded form that differs. *)
Definition retry (accessToken joinUrl : jsstring) (s : service) : list Request :=
  match outcome (tryResolveByJoinUrl accessToken joinUrl s), decodeURIComponent joinUrl with
  | Returned None, Some decoded =>
      if streq decoded joinUrl then [] else lookupRequest decoded
  | _, _ => []
  end.

End Reading.

(** Lower-casing of the ASCII letters. *)
Definition asciiLower (s : jsstring) : jsstring :=
  List.map (fun c => if (65 <=? c) && (c <=? 90) then c + 32 else c) s.

Definition found {X} (xs : list X) : Reply (Collection X) :=
  Ok (JsonObject {| value := Some xs |}) [].

(** A service without state: it answers calendarView with the first [top]
    of [events], a lookup by what [lookup] says for its URL, the transcript
    list with [transcripts], and a download with [vtt]. *)
Definition scripted (events : list CalendarEvent.t) (lookup : jsstring -> list OnlineMeeting.t) (transcripts : list TranscriptInfo.t) (vtt : jsstring) : GraphService :=
  {| service := unit;
     respond := fun r _ s =>
       (match r as r0 return Reply (Payload r0) with
        | CalendarViewRequest _ _ top => found (firstn (topCount top) events)
        | MeetingLookup url => found (lookup url)
        | TranscriptList _ => found transcripts
        | ContentDownload _ => Ok NotJson vtt
        end, s);
     toLowerCase := asciiLower;
     isoDaysFromNow := fun n _ =>
       if (n <? 0)%Z then js "2026-01-18T09:00:00.000Z"
       else js "2026-02-24T09:00:00.000Z" |}.

(** A service that is out of reach: every fetch fails. *)
Definition unreachable : GraphService :=
  {| service := unit;
     respond := fun r _ s => (NetworkError, s);
     toLowerCase := asciiLower;
     isoDaysFromNow := fun _ _ => js "2026-02-17T09:00:00.000Z" |}.

Definition token : jsstring := js "graph-token".

Definition utc : jsstring := js "UTC".

Definition event (subject joinUrl : string) : CalendarEvent.t :=
  {| CalendarEvent.subject := Some (js subject);
     CalendarEvent.start := {| dateTime := js "2026-02-17T10:00:00.0000000"; timeZone := utc |};
     CalendarEvent.end_ := {| dateTime := js "2026-02-17T11:00:00.0000000"; timeZone := utc |};
     CalendarEvent.isOnlineMeeting := true;
     CalendarEvent.onlineMeeting := Some {| joinUrl := js joinUrl |} |}.

Definition meeting (id subject joinUrl : string) : OnlineMeeting.t :=
  {| OnlineMeeting.id := js id;
     OnlineMeeting.subject := js subject;
     OnlineMeeting.startDateTime := js "2026-02-17T10:00:00Z";
     OnlineMeeting.endDateTime := js "2026-02-17T11:00:00Z";
     OnlineMeeting.joinWebUrl := js joinUrl |}.

(** Two events named Sync; the join URL of the first ends in a percent
    sign, and no lookup finds a meeting. *)
Definition brokenLink : jsstring := js "https://meet.example/100%".

Definition brokenLinkService : GraphService :=
  scripted [event "Sync" "https://meet.example/100%";
            event "Sync notes" "https://meet.example/2";
            event "Lunch" "https://meet.example/3"]
           (fun _ => []) [] [].

(** The service knows the meeting under the decoded join URL only. *)
Definition encodedLink : jsstring := js "https://teams.example/l/19%3ameeting".
Definition decodedLink : jsstring := js "https://teams.example/l/19:meeting".
Definition designReview : OnlineMeeting.t :=
  meeting "MSo1" "Design Review (service)" "https://teams.example/l/19:meeting".

Definition decodedOnlyService : GraphService :=
  scripted [event "Design Review" "https://teams.example/l/19%3ameeting"]
           (fun url =>
              match lookupUrl decodedLink with
              | Some u => if streq url u then [designReview] else []
              | None => []
              end)
           [] [].

(** An event without title whose meeting the service calls Standup, and
    which has no transcript. *)
Definition standup : OnlineMeeting.t :=
  meeting "MSo2" "Standup" "https://teams.example/l/standup".

Definition untitledService : GraphService :=
  scripted [event "" "https://teams.example/l/standup";
            event "Weekly sync" "https://teams.example/l/standup"]
           (fun _ => [standup]) [] [].

(** Fifty-one events, each of which resolves. *)
Definition busyService : GraphService :=
  scripted (repeat (event "Weekly sync" "https://teams.example/l/standup") 51)
           (fun _ => [standup]) [] [].

(** 2.5, a limit that is no whole number: the double of 5 times 2 to the
    -1. *)
Definition twoAndAHalf : number := SpecFloat.binary_normalize 53 1024 5 (-1) false.

Definition weeklySync : OnlineMeeting.t :=
  OnlineMeeting.setSubject (js "Weekly sync") standup.

Definition weeklyArgs : TranscriptArgs :=
  {| meetingName := Some (js "weekly"); meetingDate := None |}.

Definition untitledEvent : CalendarEvent.t :=
  event "" "https://teams.example/l/standup".

Definition weeklyEvent : CalendarEvent.t :=
  event "Weekly sync" "https://teams.example/l/standup".

Definition standupLink : jsstring := js "https://teams.example/l/standup".

End Scenario.

(* ================================================================== *)
(** ** auth.ts: the bearer token of a request *)

Module Auth.

Import JsString.
Open Scope N_scope.

(** [s.split(sep)] for a separator of one code unit: the pieces between the
    separators, so one piece more than there are separators. *)
Fixpoint split (sep : N) (s : jsstring) : list jsstring :=
  match s with
  | [] => [[]]
  | c :: r =>
      let pieces := split sep r in
      if c =? sep then [] :: pieces
      else match pieces with
           | p :: ps => (c :: p) :: ps
           | [] => [[c]]
           end
  end.

Section Host.

(** [String.prototype.toLowerCase], which the host provides. *)
Variable toLowerCase : jsstring -> jsstring.

(** Extract bearer token from an Authorization header value; null if not
    present or malformed. *)
Definition extractBearerToken (authHeader : option jsstring) : option jsstring :=
  match authHeader with
  | None => None
  | Some header =>
      if negb (truthy header) then None
      else
        match split 32 header with
        | [scheme; credentials] =>
            if streq (toLowerCase scheme) (js "bearer") then Some credentials
            else None
        | _ => None
        end
  end.

End Host.

End Auth.

(* ================================================================== *)
(** ** server.ts: the file handleSaveTranscript writes *)

Module SaveTranscript.

Import JsString Graph.
Open Scope N_scope.

(** [[a-zA-Z0-9\s-]] *)
Definition isKeptUnit (c : N) : bool :=
  ((97 <=? c) && (c <=? 122)) || ((65 <=? c) && (c <=? 90)) || isDigit c
  || isSpace c || (c =? 45).

(** [s.replace(/\s+/g, '_')]: [inRun] holds inside a run of white space
    whose underscore is already written. *)
Fixpoint underscoreSpaces (inRun : bool) (s : jsstring) : jsstring :=
  match s with
  | [] => []
  | c :: r =>
      if isSpace c then
        if inRun then underscoreSpaces true r
        else 95 :: underscoreSpaces true r
      else c :: underscoreSpaces false r
  end.

(** [subject.replace(/[^a-zA-Z0-9\s-]/g, '').replace(/\s+/g, '_').substring(0, 80)] *)
Definition safeSubject (subject : jsstring) : jsstring :=
  firstn 80 (underscoreSpaces false (filter isKeptUnit subject)).

(** [meeting.startDateTime.split('T')[0]] *)
Definition meetingDateStr (startDateTime : jsstring) : jsstring :=
  fst (span (fun c => negb (c =? 84)) startDateTime).

(** [`${safeSubject}_${meetingDateStr}.md`] *)
Definition fileName (meeting : OnlineMeeting.t) : jsstring :=
  safeSubject (OnlineMeeting.subject meeting) ++ js "_"
  ++ meetingDateStr (OnlineMeeting.startDateTime meeting) ++ js ".md".



End SaveTranscript.

(* ================================================================== *)
(** ** More readings of a run *)

Module Trace.

Import JsString Uri JsNumber Graph Server Scenario.
Open Scope N_scope.

Definition isTranscriptList (r : Request) : bool :=
  match r with TranscriptList _ => true | _ => false end.

(** The URL listTranscripts asks for. *)
Definition transcriptsUrl (meetingId : jsstring) : jsstring :=
  GRAPH_BASE ++ js "/me/onlineMeetings/" ++ meetingId ++ js "/transcripts".

(** The URL getTranscriptContent asks for. *)
Definition contentUrl (meetingId transcriptId : jsstring) : jsstring :=
  GRAPH_BASE ++ js "/me/onlineMeetings/" ++ meetingId
  ++ js "/transcripts/" ++ transcriptId ++ js "/content?$format=text/vtt".

(** The request by which handleListRecentMeetings probes a meeting. *)
Definition probeRequest (m : OnlineMeeting.t) : Request :=
  TranscriptList (transcriptsUrl (OnlineMeeting.id m)).

(** What a JSON reader gets from a reply: the object of an ok reply with a
    JSON object as body, and nothing otherwise. *)
Definition objectOf {T} (reply : Reply T) : option T :=
  match reply with
  | Ok (JsonObject data) _ => Some data
  | _ => None
  end.

(** The entry of a meeting in the listing of handleListRecentMeetings. *)
Definition listingOf (m : OnlineMeeting.t) (has : bool) : Listing :=
  {| subject := if truthy (OnlineMeeting.subject m)
                then OnlineMeeting.subject m else js "(No subject)";
     startDateTime := OnlineMeeting.startDateTime m;
     endDateTime := OnlineMeeting.endDateTime m;
     meetingId := OnlineMeeting.id m;
     hasTranscript := has |}.

(** What handleListRecentMeetings answers when there is no meeting. *)
Definition noMeetingsText (date : option jsstring) : jsstring :=
  match given date with
  | Some d => js "No meetings found for " ++ d ++ js "."
  | None => js "No recent meetings found."
  end.

(** What handleGetMeetingTranscript answers without a meeting name. *)
Definition nameRequired : ToolResult :=
  {| content := js "meetingName is required."; isError := true |}.

Definition isSurrogate (c : N) : bool := isHighSurrogate c || isLowSurrogate c.

(** A join URL without percent sign and without surrogate code unit. *)
Definition isSimpleUrl (u : jsstring) : bool :=
  forallb (fun c => negb (c =? 37) && negb (isSurrogate c)) u.

Section Reading.

Context {G : GraphService}.

(** The meeting a lookup by [joinUrl] finds in state [s]. *)
Definition lookedUp (accessToken joinUrl : jsstring) (s : service) : option OnlineMeeting.t :=
  match lookupUrl joinUrl with
  | Some url => firstOrNull (objectOf (fst (respond (MeetingLookup url) accessToken s)))
  | None => None
  end.

(** The events the calendarView request for [maxEvents] events gets in
    state [s], as fetchCalendarEvents returns them. *)
Definition calendarEvents (accessToken : jsstring) (filterDate : option jsstring) (maxEvents : number) (s : service) : list CalendarEvent.t :=
  let range := rangeAt filterDate s in
  valueOrEmpty
    (objectOf (fst (respond (CalendarViewRequest (fst range) (snd range) (Math.min maxEvents (ofZ 100)))
                      accessToken s))).

(** The events listMeetings goes through: those with a join URL. *)
Definition teamsMeetings (accessToken : jsstring) (top : option number) (filterDate : option jsstring) (s : service) : list CalendarEvent.t :=
  filter hasJoinUrl
    (calendarEvents accessToken filterDate (Math.min (mul (limitOf top) (ofZ 3)) (ofZ 100)) s).

End Reading.

(** *** More scripted services *)

Definition firstTranscript : TranscriptInfo.t :=
  {| TranscriptInfo.id := js "VHJhbnNjcmlwdDE";
     TranscriptInfo.meetingId := js "someone-else";
     TranscriptInfo.createdDateTime := js "2026-02-17T11:05:00Z";
     TranscriptInfo.transcriptContentUrl := Some (js "https://graph.example/content/1") |}.

(** A weekly sync that was recorded: its transcript is the literal case of
    the specification. *)
Definition recordedService : GraphService :=
  scripted [event "Weekly sync" "https://teams.example/l/standup"]
           (fun _ => [standup]) [firstTranscript] Transcript.literalVtt.

Definition listArgs (date : option jsstring) (limit : option number) : ListArgs :=
  {| Server.date := date; Server.limit := limit |}.

End Trace.

(* ================================================================== *)
(** ** server.ts: the save tool and the dispatch of a tool call *)

Module Tools.

Import JsString VttParser JsNumber Graph Server SaveTranscript Trace.
Open Scope N_scope.

Notation "x <- m1 ;; m2" := (bind m1 (fun x => m2))
  (at level 100, m1 at next level, right associativity).

(** The arguments of a tool call, as far as the handlers read them; a
    call without arguments has none of them. *)
Module ToolArgs.
Record t := {
  date : option jsstring;
  limit : option number;
  meetingName : option jsstring;
  meetingDate : option jsstring;
  siteUrl : option jsstring;
  folderPath : option jsstring
}.
End ToolArgs.

Definition listArgsOf (args : ToolArgs.t) : ListArgs :=
  {| Server.date := ToolArgs.date args; Server.limit := ToolArgs.limit args |}.

Definition transcriptArgsOf (args : ToolArgs.t) : TranscriptArgs :=
  {| Server.meetingName := ToolArgs.meetingName args;
     Server.meetingDate := ToolArgs.meetingDate args |}.

(** [a || b] on optional strings. *)
Definition orElse (a : option jsstring) (b : option jsstring) : option jsstring :=
  match given a with Some x => Some x | None => given b end.

Definition siteRequired : ToolResult :=
  {| content := js "No SharePoint site URL provided. Either pass siteUrl or set the SHAREPOINT_SITE_URL environment variable.";
     isError := true |}.

Definition noTranscriptToSave (m : OnlineMeeting.t) : jsstring :=
  js "Meeting " ++ quote ++ OnlineMeeting.subject m ++ quote
  ++ js " was found but has no transcript available.".

(** The Markdown file. *)
Definition mdContent (m : OnlineMeeting.t) (cleanText : jsstring) : jsstring :=
  js "# " ++ OnlineMeeting.subject m ++ newline ++ newline ++
  js "**Date:** " ++ OnlineMeeting.startDateTime m ++ newline ++ newline ++
  js "**Meeting ID:** " ++ OnlineMeeting.id m ++ newline ++ newline ++
  js "---" ++ newline ++ newline ++ cleanText.

Definition savedText (m : OnlineMeeting.t) (webUrl folderPath cleanText : jsstring) : jsstring :=
  (js "Meeting: " ++ OnlineMeeting.subject m ++ newline ++
   js "Date: " ++ OnlineMeeting.startDateTime m ++ newline)
  ++ (newline ++ js "---" ++ newline ++ newline ++
      js "**Saved to SharePoint:** " ++ webUrl ++ newline ++
      js "**File:** " ++ fileName m ++ newline ++
      js "**Folder:** " ++ folderPath ++ newline ++ newline ++
      js "---" ++ newline ++ newline)
  ++ cleanText.

Definition unknownTool (name : jsstring) : ToolResult :=
  {| content := js "Unknown tool: " ++ name; isError := true |}.

Section Handlers.

Context {G : GraphService}.

(** [process.env.SHAREPOINT_SITE_URL] and [process.env.SHAREPOINT_FOLDER]. *)
Variables SHAREPOINT_SITE_URL SHAREPOINT_FOLDER : option jsstring.

(** The two functions of graph.ts that write to SharePoint; their source is
    not part of what is modelled, so they are any functions here. *)
Variable resolveSiteId : jsstring -> jsstring -> M jsstring.
Variable uploadToSharePoint : jsstring -> jsstring -> jsstring -> jsstring -> jsstring -> M jsstring.

(** The messages of the errors the host raises. *)
Variable hostMessage : exn -> jsstring.

Definition handleSaveTranscript (graphToken : jsstring) (args : ToolArgs.t) : M ToolResult :=
  let siteUrl :=
    match orElse (ToolArgs.siteUrl args) SHAREPOINT_SITE_URL with
    | Some u => u
    | None => []
    end in
  let folderPath :=
    match orElse (ToolArgs.folderPath args) SHAREPOINT_FOLDER with
    | Some f => f
    | None => js "Meeting Transcripts"
    end in
  match given (ToolArgs.meetingName args) with
  | None => ret nameRequired
  | Some name =>
      if negb (truthy siteUrl) then ret siteRequired
      else
        meetings <- findMeetingsByName graphToken name (ToolArgs.meetingDate args) ;;
        match meetings with
        | [] => ret (reply (notFoundText name (ToolArgs.meetingDate args)))
        | meeting :: _ =>
            transcripts <- listTranscripts graphToken (OnlineMeeting.id meeting) ;;
            match transcripts with
            | [] => ret (reply (noTranscriptToSave meeting))
            | t0 :: _ =>
                rawVtt <- getTranscriptContent graphToken (OnlineMeeting.id meeting)
                            (TranscriptInfo.id t0) ;;
                let cleanText := cleanVttTranscript rawVtt in
                siteId <- resolveSiteId graphToken siteUrl ;;
                webUrl <- uploadToSharePoint graphToken siteId folderPath
                            (fileName meeting) (mdContent meeting cleanText) ;;
                ret (reply (savedText meeting webUrl folderPath cleanText))
            end
        end
  end.

(** [err.message]: graphGet words the message of a Graph failure. *)
Definition message (err : exn) : jsstring :=
  match err with
  | GraphApiError status body =>
      js "Graph API " ++ showNat (N.to_nat status) ++ js ": " ++ body
  | _ => hostMessage err
  end.

Definition errorResult (err : exn) : ToolResult :=
  {| content := js "Error: " ++ message err; isError := true |}.

(** The switch over the name of the tool. *)
Definition dispatch (graphToken name : jsstring) (args : ToolArgs.t) : M ToolResult :=
  if streq name (js "list_recent_meetings")
  then handleListRecentMeetings graphToken (listArgsOf args)
  else if streq name (js "get_meeting_transcript")
  then handleGetMeetingTranscript graphToken (transcriptArgsOf args)
  else if streq name (js "save_transcript")
  then handleSaveTranscript graphToken args
  else ret (unknownTool name).

(** The handler of a tool call. *)
Definition callTool (graphToken name : jsstring) (args : ToolArgs.t) : M ToolResult :=
  tryCatch (dispatch graphToken name args) (fun err => ret (errorResult err)).

End Handlers.

End Tools.

(* ================================================================== *)
(** ** Transcripts as Teams writes them *)

Module Cues.

Import JsString VttParser Transcript.
Open Scope N_scope.

(** A cue with a voice tag: who speaks and what is said. *)
Record Cue := { voice : jsstring; said : jsstring }.

(** The payload line of a cue: [<v Speaker>text</v>]. *)
Definition voiceLine (c : Cue) : jsstring :=
  js "<v " ++ voice c ++ js ">" ++ said c ++ js "</v>".

(** A line of a transcript file: one the normaliser is to drop, or the
    payload of a cue. *)
Inductive Item :=
| Dropped (line : jsstring)
| Spoken (c : Cue).

Definition itemLine (i : Item) : jsstring :=
  match i with
  | Dropped line => line
  | Spoken c => voiceLine c
  end.

(** No line feed in it. *)
Definition isOneLine (l : jsstring) : bool := forallb (fun c => negb (c =? 10)) l.

(** A blank line, a header line, a timing line or a cue identifier. *)
Definition isDroppedLine (l : jsstring) : bool :=
  let trimmed := trim l in
  negb (truthy trimmed)
  || (negb (isNoteLine trimmed)
      && (isHeaderLine trimmed || isTimingLine trimmed
          || isNumericId trimmed || isUuidId trimmed)).

(** The speaker of a cue is plain text without [':'] and ['>']; what is
    said is plain text. *)
Definition isWellFormed (i : Item) : bool :=
  match i with
  | Dropped line => isDroppedLine line && isOneLine line
  | Spoken c =>
      isPlain (voice c) && forallb notColon (voice c) && forallb notGt (voice c)
      && isPlain (said c)
  end.

Definition document (items : list Item) : jsstring :=
  join [10] (List.map itemLine items).

(** [`${speaker}: ${text}`] for a cue. *)
Definition paragraphOf (c : Cue) : jsstring := paragraph (voice c) (said c).

Definition cuesOf (items : list Item) : list Cue :=
  flat_map (fun i => match i with Spoken c => [c] | Dropped _ => [] end) items.

(** The turns of a sequence of cues: the cues of one speaker in a row make
    one turn, their texts joined by a space. *)
Fixpoint turnsFrom (speaker text : jsstring) (cues : list Cue) : list Entry :=
  match cues with
  | [] => [Turn speaker text]
  | c :: rest =>
      if streq (voice c) speaker
      then turnsFrom speaker (text ++ js " " ++ said c) rest
      else Turn speaker text :: turnsFrom (voice c) (said c) rest
  end.

Definition turns (cues : list Cue) : list Entry :=
  match cues with
  | [] => []
  | c :: rest => turnsFrom (voice c) (said c) rest
  end.

(** Where a cleaned line is found among the paragraphs [es]: a line in
    which the merge pass finds a speaker prefix, in a turn of that speaker
    whose text contains the second group of the match, trimmed; a line
    without one either as a paragraph of its own, or in the text of a
    turn. *)
Definition isKeptIn (es : list Entry) (line : jsstring) : Prop :=
  match speakerMatch line with
  | Some (g1, g2) =>
      exists text, In (Turn (trim g1) text) es /\ includes text (trim g2) = true
  | None =>
      In (Unattributed line) es
      \/ exists speaker text, In (Turn speaker text) es /\ includes text line = true
  end.

(** Every paragraph of [es] is in [es'], but that a turn may have got more
    text at its end. *)
Definition growsTo (es es' : list Entry) : Prop :=
  forall e, In e es ->
    In e es'
    \/ exists speaker text more,
         e = Turn speaker text /\ In (Turn speaker (text ++ more)) es'.

(** No carriage return, line separator or paragraph separator in it, nor
    a line feed: [.] matches every code unit of it. *)
Definition hasNoLineTerminator (l : jsstring) : bool :=
  forallb (fun c => negb (isLineTerminator c)) l.

(** A line of the output: not empty, no white space at its start, no line
    feed in it. *)
Definition isOutputLine (l : jsstring) : Prop :=
  l <> [] /\ startsWithSpace l = false /\ isOneLine l = true.

(** What the merge pass keeps true of its state, for the lines of the
    output. *)
Definition hasOutputLines (st : ViewState) : Prop :=
  Forall (fun e => isOutputLine (render e)) (entries st)
  /\ startsWithSpace (speaker st) = false
  /\ isOneLine (speaker st) = true /\ isOneLine (buffer st) = true.

(** No match of [/<[^>]+>/] anywhere in [s]. *)
Fixpoint hasNoTag (s : jsstring) : bool :=
  match s with
  | [] => true
  | c :: r =>
      match matchTag (c :: r) with Some _ => false | None => true end
      && hasNoTag r
  end.

(** A file of three cues with identifiers and timing lines; the first two
    are of the same speaker. *)
Definition standupItems : list Item :=
  [Dropped (js "WEBVTT"); Dropped [];
   Dropped (js "0f8fad5b-d9cb-469f-a165-70867728950e");
   Dropped (js "00:00:00.000 --> 00:00:02.000");
   Spoken {| voice := js "Alice Smith"; said := js "Good morning: shall we start?" |};
   Dropped [];
   Dropped (js "2");
   Dropped (js "00:00:02.000 --> 00:00:04.000");
   Spoken {| voice := js "Alice Smith"; said := js "Bob first." |};
   Dropped [];
   Dropped (js "00:00:04.000 --> 00:00:06.000");
   Spoken {| voice := js "Bob"; said := js "Nothing new > yesterday." |}].

(** A cue with a carriage return in what is said, and a second cue. *)
Definition brokenCue : jsstring :=
  js "<v Alice>first" ++ [13] ++ js "second</v>" ++ [10] ++ js "<v Bob>ok</v>".

(** The literal case of the specification with a comment block after its
    first cue, in which a cue payload stands. *)
Definition commentedLines (comment : list jsstring) : list jsstring :=
  [js "WEBVTT"; []; js "1"; js "00:00:00.000 --> 00:00:02.000";
   js "<v Alice>Hello there.</v>"; []]
  ++ comment
  ++ [js "2"; js "00:00:02.000 --> 00:00:04.000"; js "<v Alice>How are you?</v>"].

End Cues.

(* ================================================================== *)
(** ** Properties of the string operations *)

Module StringFacts.

Import JsString.
Open Scope N_scope.

Lemma streq_eq (a b : jsstring) : streq a b = true <-> a = b.
Proof.
  revert b; induction a as [|x a IH]; intros [|y b]; simpl; split;
    try congruence; try reflexivity.
  - intros H. apply andb_true_iff in H as [Hx Hr].
    apply N.eqb_eq in Hx. apply IH in Hr. congruence.
  - intros H. injection H as -> ->. rewrite N.eqb_refl. simpl. now apply IH.
Qed.

Lemma streq_neq (a b : jsstring) : streq a b = false <-> a <> b.
Proof.
  split.
  - intros H E. apply streq_eq in E. congruence.
  - intros H. destruct (streq a b) eqn:E; [|reflexivity].
    apply streq_eq in E. contradiction.
Qed.

Lemma truthy_nonempty (s : jsstring) : truthy s = true <-> s <> [].
Proof. destruct s; simpl; split; congruence. Qed.

Lemma trimStart_head (s : jsstring) : startsWithSpace (trimStart s) = false.
Proof.
  induction s as [|c r IH]; simpl; [reflexivity|].
  destruct (isSpace c) eqn:E; [exact IH|]. simpl. exact E.
Qed.

Lemma trimStart_fixed (s : jsstring) :
  startsWithSpace s = false -> trimStart s = s.
Proof. destruct s as [|c r]; simpl; [reflexivity|]. now intros ->. Qed.

Lemma trimEnd_head (s : jsstring) :
  startsWithSpace s = false -> startsWithSpace (trimEnd s) = false.
Proof.
  destruct s as [|c r]; simpl; [reflexivity|]. intros E.
  destruct (trimEnd r); [rewrite E|]; simpl; auto.
Qed.

Lemma trimEnd_nonempty (c : N) (r : jsstring) :
  isSpace c = false -> trimEnd (c :: r) <> [].
Proof. simpl. intros ->. destruct (trimEnd r); discriminate. Qed.

Lemma trimEnd_fixed (s : jsstring) : endsWithSpace s = false -> trimEnd s = s.
Proof.
  induction s as [|c r IH]; [reflexivity|].
  destruct r as [|d r'].
  - simpl. now intros ->.
  - intros H. change (endsWithSpace (d :: r') = false) in H.
    change (trimEnd (c :: d :: r')) with
      (match trimEnd (d :: r') with
       | [] => if isSpace c then [] else [c]
       | r0 => c :: r0
       end).
    rewrite (IH H). reflexivity.
Qed.

Lemma trim_head (s : jsstring) : startsWithSpace (trim s) = false.
Proof. apply trimEnd_head, trimStart_head. Qed.

Lemma trim_fixed (s : jsstring) :
  startsWithSpace s = false -> endsWithSpace s = false -> trim s = s.
Proof.
  intros H1 H2. unfold trim. rewrite (trimStart_fixed _ H1).
  now apply trimEnd_fixed.
Qed.

(** A string that starts with something else than white space does not trim
    to the empty string. *)
Lemma trim_nonempty (s : jsstring) :
  s <> [] -> startsWithSpace s = false -> trim s <> [].
Proof.
  destruct s as [|c r]; [congruence|]. intros _ H. unfold trim.
  rewrite (trimStart_fixed _ H). now apply trimEnd_nonempty.
Qed.

Lemma endsWithSpace_app (a b : jsstring) :
  b <> [] -> endsWithSpace (a ++ b) = endsWithSpace b.
Proof.
  intros Hb. induction a as [|c a IH]; [reflexivity|].
  simpl. destruct (a ++ b) eqn:E.
  - destruct a; destruct b; simpl in E; congruence.
  - exact IH.
Qed.

Lemma span_app (p : N -> bool) (a : jsstring) (c : N) (b : jsstring) :
  forallb p a = true -> p c = false -> span p (a ++ c :: b) = (a, c :: b).
Proof.
  intros Ha Hc. induction a as [|x a IH]; simpl.
  - now rewrite Hc.
  - simpl in Ha. apply andb_true_iff in Ha as [Hx Ha].
    rewrite Hx, (IH Ha). reflexivity.
Qed.

Lemma span_all (p : N -> bool) (a : jsstring) :
  forallb p a = true -> span p a = (a, []).
Proof.
  induction a as [|x a IH]; simpl; [reflexivity|].
  intros H. apply andb_true_iff in H as [Hx Ha].
  rewrite Hx, (IH Ha). reflexivity.
Qed.

Lemma span_prefix (p : N -> bool) (s : jsstring) :
  s = fst (span p s) ++ snd (span p s).
Proof.
  induction s as [|c r IH]; simpl; [reflexivity|].
  destruct (p c); [|reflexivity].
  destruct (span p r) as [a b]. simpl in *. now rewrite IH at 1.
Qed.

Lemma skipSpaces_fixed (s : jsstring) :
  startsWithSpace s = false -> skipSpaces s = s.
Proof. destruct s as [|c r]; simpl; [reflexivity|]. now intros ->. Qed.

End StringFacts.

(* ================================================================== *)
(** ** Properties of the normaliser *)

Module VttFacts.

Import JsString VttParser Transcript StringFacts.
Open Scope N_scope.

(** *** The lines that reach the merge pass *)

Lemma cleanStep_trimmed (st : LoopState) (line : jsstring) :
  Forall isTrimmedLine (cleanedLines st) ->
  Forall isTrimmedLine (cleanedLines (cleanStep st line)).
Proof.
  intros H. unfold cleanStep.
  repeat match goal with
         | |- context [if ?b then _ else _] => destruct b eqn:?
         end; simpl; try exact H.
  apply Forall_app. split; [exact H|]. constructor; [|constructor].
  split.
  - now apply truthy_nonempty.
  - apply trim_head.
Qed.

Lemma fold_cleanStep_trimmed (lines : list jsstring) (st : LoopState) :
  Forall isTrimmedLine (cleanedLines st) ->
  Forall isTrimmedLine (cleanedLines (fold_left cleanStep lines st)).
Proof.
  revert st. induction lines as [|l ls IH]; simpl; intros st H; [exact H|].
  apply IH, cleanStep_trimmed, H.
Qed.

Lemma cleanLines_trimmed (rawVtt : jsstring) :
  Forall isTrimmedLine (cleanLines rawVtt).
Proof. apply fold_cleanStep_trimmed. constructor. Qed.

Lemma speakerMatch_group1 (l g1 g2 : jsstring) :
  speakerMatch l = Some (g1, g2) ->
  g1 <> [] /\ exists rest, l = g1 ++ rest.
Proof.
  unfold speakerMatch. pose proof (span_prefix notColon l) as E.
  destruct (span notColon l) as [a b]. simpl in E.
  destruct a as [|x a]; [discriminate|]. destruct b as [|y b]; [discriminate|].
  intros H. injection H as <- _. split; [discriminate|]. now exists (y :: b).
Qed.

(** On a cleaned line the speaker, when there is one, is not empty. *)
Lemma speakerMatch_speaker (l g1 g2 : jsstring) :
  isTrimmedLine l -> speakerMatch l = Some (g1, g2) -> trim g1 <> [].
Proof.
  intros [_ Hl] H. apply speakerMatch_group1 in H as [Hne [rest ->]].
  apply trim_nonempty; [exact Hne|].
  destruct g1; [congruence|exact Hl].
Qed.

(** *** The merge pass and its reading as entries *)

Lemma mergeStep_view (ms : MergeState) (vs : ViewState) (line : jsstring) :
  sameState ms vs -> sameState (mergeStep ms line) (viewStep vs line).
Proof.
  intros (Hm & Hs & Ht). unfold mergeStep, viewStep, sameState.
  rewrite Hm, Hs, Ht.
  destruct (speakerMatch line) as [[g1 g2]|].
  - destruct (streq (trim g1) (speaker vs)); simpl; [auto|].
    destruct (truthy (speaker vs)); simpl; [|auto].
    rewrite map_app. auto.
  - destruct (truthy (speaker vs)); simpl; [auto|].
    rewrite map_app. auto.
Qed.

Lemma fold_mergeStep_view (lines : list jsstring) (ms : MergeState) (vs : ViewState) :
  sameState ms vs ->
  sameState (fold_left mergeStep lines ms) (fold_left viewStep lines vs).
Proof.
  revert ms vs. induction lines as [|l ls IH]; simpl; intros ms vs H; [exact H|].
  apply IH, mergeStep_view, H.
Qed.

Lemma mergeFlush_view (ms : MergeState) (vs : ViewState) :
  sameState ms vs -> mergeFlush ms = List.map render (viewFlush vs).
Proof.
  intros (Hm & Hs & Ht). unfold mergeFlush, viewFlush. rewrite Hm, Hs, Ht.
  destruct (truthy (speaker vs)); [|reflexivity].
  rewrite map_app. reflexivity.
Qed.

(** mergeSpeakerLines joins the renderings of the entries. *)
Lemma mergeSpeakerLines_paragraphs (lines : list jsstring) :
  mergeSpeakerLines lines = join [10] (List.map render (paragraphsOf lines)).
Proof.
  destruct lines as [|l ls]; [reflexivity|].
  unfold mergeSpeakerLines, paragraphsOf. f_equal.
  apply mergeFlush_view, fold_mergeStep_view.
  repeat split.
Qed.

(** *** No speaker twice in a row *)

Lemma noRepeatedSpeaker_snoc (l : list (option jsstring)) (x : option jsstring) :
  noRepeatedSpeaker l ->
  (forall a b, last l None = Some a -> x = Some b -> a <> b) ->
  noRepeatedSpeaker (l ++ [x]).
Proof.
  induction l as [|y l IH]; intros Hl Hx.
  - simpl. destruct x; auto.
  - destruct Hl as [Hy Hl]. destruct l as [|z l].
    + simpl. split; [|destruct x; auto].
      destruct y as [a|]; [|exact I]. destruct x as [b|]; [|exact I].
      now apply Hx.
    + split; [exact Hy|]. apply IH; [exact Hl|exact Hx].
Qed.

Lemma last_snoc {A} (l : list A) (x d : A) : last (l ++ [x]) d = x.
Proof.
  induction l as [|y l IH]; [reflexivity|].
  simpl. destruct (l ++ [x]) eqn:E; [destruct l; discriminate|exact IH].
Qed.

Lemma last_unattributed (es : list Entry) :
  Forall (fun e => speakerOf e = None) es ->
  last (List.map speakerOf es) None = None.
Proof.
  induction 1 as [|e es He _ IH]; [reflexivity|].
  simpl. destruct (List.map speakerOf es); [exact He|exact IH].
Qed.

Lemma viewFlush_speakers (st : ViewState) :
  viewInvariant st ->
  forall a, last (List.map speakerOf (viewFlush st)) None = Some a ->
            a = speaker st /\ speaker st <> [].
Proof.
  intros [_ Hnone] a. unfold viewFlush.
  destruct (speaker st) as [|c r] eqn:E; simpl.
  - rewrite last_unattributed by auto. discriminate.
  - rewrite map_app. cbn [List.map speakerOf]. rewrite last_snoc.
    intros H. injection H as <-. split; [reflexivity|discriminate].
Qed.

Lemma viewStep_invariant (st : ViewState) (line : jsstring) :
  isTrimmedLine line -> viewInvariant st -> viewInvariant (viewStep st line).
Proof.
  intros Hline Hinv. pose proof Hinv as [Hrep Hnone]. unfold viewStep.
  destruct (speakerMatch line) as [[g1 g2]|] eqn:Hm.
  - pose proof (speakerMatch_speaker Hline Hm) as Hsp.
    destruct (streq (trim g1) (speaker st)) eqn:Heq.
    + apply streq_eq in Heq. split.
      * unfold viewFlush in *. simpl. rewrite <- Heq in *.
        destruct (truthy (trim g1)); [|exact Hrep].
        rewrite map_app in *. exact Hrep.
      * simpl. intros E. congruence.
    + apply streq_neq in Heq. split.
      * unfold viewFlush at 1. simpl.
        apply truthy_nonempty in Hsp. rewrite Hsp.
        change (if truthy (speaker st)
                then entries st ++ [Turn (speaker st) (buffer st)]
                else entries st) with (viewFlush st).
        rewrite map_app. apply noRepeatedSpeaker_snoc; [exact Hrep|].
        intros a b Ha Hb. simpl in Hb. injection Hb as <-.
        apply (viewFlush_speakers Hinv) in Ha as [-> _]. congruence.
      * simpl. intros E. congruence.
  - destruct (truthy (speaker st)) eqn:Ht.
    + split.
      * unfold viewFlush in *. simpl. rewrite Ht in *.
        rewrite map_app in *. exact Hrep.
      * simpl. intros E. rewrite E in Ht. discriminate.
    + assert (Hs : speaker st = []) by (destruct (speaker st); [reflexivity|discriminate]).
      split.
      * unfold viewFlush in *. simpl. rewrite Ht in *.
        rewrite map_app. apply noRepeatedSpeaker_snoc; [exact Hrep|].
        intros a b _ Hb. discriminate.
      * simpl. intros _. apply Forall_app. split; [auto|].
        constructor; [reflexivity|constructor].
Qed.

Lemma fold_viewStep_invariant (lines : list jsstring) (st : ViewState) :
  Forall isTrimmedLine lines -> viewInvariant st ->
  viewInvariant (fold_left viewStep lines st).
Proof.
  revert st. induction lines as [|l ls IH]; simpl; intros st Hl H; [exact H|].
  inversion Hl; subst. apply IH; [assumption|]. now apply viewStep_invariant.
Qed.

(** The paragraphs of any cleaned transcript never repeat a speaker. *)
Lemma cleanedTranscript_speakers (rawVtt : jsstring) :
  noRepeatedSpeaker (List.map speakerOf (cleanedTranscript rawVtt)).
Proof.
  unfold cleanedTranscript, paragraphsOf.
  apply fold_viewStep_invariant.
  - apply cleanLines_trimmed.
  - split; [exact I|]. intros _. constructor.
Qed.

(** *** Lines without speaker come first *)

Lemma unattributedFirst_snoc_turn (es : list Entry) (sp tx : jsstring) :
  unattributedFirst es = true -> unattributedFirst (es ++ [Turn sp tx]) = true.
Proof.
  induction es as [|[l|sp' tx'] es IH]; [reflexivity|exact IH|].
  cbn [app unattributedFirst]. intros H. now rewrite forallb_app, H.
Qed.

Lemma unattributedFirst_snoc_line (es : list Entry) (l : jsstring) :
  Forall (fun e => speakerOf e = None) es ->
  unattributedFirst (es ++ [Unattributed l]) = true.
Proof.
  induction 1 as [|e es He _ IH]; [reflexivity|].
  destruct e; [exact IH|discriminate].
Qed.

Lemma viewStep_ordered (st : ViewState) (line : jsstring) :
  isTrimmedLine line -> viewOrdered st -> viewOrdered (viewStep st line).
Proof.
  intros Hline [Hnone Hord]. unfold viewStep.
  destruct (speakerMatch line) as [[g1 g2]|] eqn:Hm.
  - pose proof (speakerMatch_speaker Hline Hm) as Hsp.
    destruct (streq (trim g1) (speaker st)) eqn:Heq.
    + apply streq_eq in Heq. split; cbn [speaker entries]; [|exact Hord].
      intros E. congruence.
    + split; cbn [speaker entries]; [intros E; congruence|].
      destruct (truthy (speaker st)); [|exact Hord].
      now apply unattributedFirst_snoc_turn.
  - destruct (truthy (speaker st)) eqn:Ht; [split; [exact Hnone|exact Hord]|].
    assert (Hs : speaker st = []) by (destruct (speaker st); [reflexivity|discriminate]).
    split; cbn [speaker entries].
    + intros _. apply Forall_app. split; [auto|].
      constructor; [reflexivity|constructor].
    + apply unattributedFirst_snoc_line. auto.
Qed.

Lemma fold_viewStep_ordered (lines : list jsstring) (st : ViewState) :
  Forall isTrimmedLine lines -> viewOrdered st ->
  viewOrdered (fold_left viewStep lines st).
Proof.
  revert st. induction lines as [|l ls IH]; simpl; intros st Hl H; [exact H|].
  inversion Hl; subst. apply IH; [assumption|]. now apply viewStep_ordered.
Qed.

(** In any cleaned transcript the lines without speaker come before the
    speaker turns. *)
Lemma cleanedTranscript_ordered (rawVtt : jsstring) :
  unattributedFirst (cleanedTranscript rawVtt) = true.
Proof.
  unfold cleanedTranscript, paragraphsOf.
  assert (H : viewOrdered (fold_left viewStep (cleanLines rawVtt) viewInit)).
  { apply fold_viewStep_ordered; [apply cleanLines_trimmed|].
    split; [intros _; constructor|reflexivity]. }
  destruct H as [_ Hord]. unfold viewFlush.
  destruct (truthy _); [|exact Hord]. now apply unattributedFirst_snoc_turn.
Qed.

(** C4.  For every input, the output of cleanVttTranscript is the
    newline-joined rendering of the paragraphs of the merge pass, and in
    that sequence no two adjacent speaker-attributed paragraphs have the
    same speaker. *)
Theorem cleanVttTranscript_no_adjacent_same_speaker (rawVtt : jsstring) :
  cleanVttTranscript rawVtt
    = join [10] (List.map render (cleanedTranscript rawVtt))
  /\ noRepeatedSpeaker (List.map speakerOf (cleanedTranscript rawVtt)).
Proof.
  split.
  - apply mergeSpeakerLines_paragraphs.
  - apply cleanedTranscript_speakers.
Qed.

(** C2.  The literal case of the specification: header, cue identifiers
    and timing lines are dropped, voice tags become speaker prefixes and
    the two lines of Alice are merged. *)
Theorem cleanVttTranscript_literal_case :
  cleanVttTranscript literalVtt = literalCleaned.
Proof. vm_compute. reflexivity. Qed.

(** *** Metadata only *)

Lemma fold_cleanStep_metadata (lines : list jsstring) (st : LoopState) :
  isMetadataOnly (skipNote st) lines = true ->
  cleanedLines (fold_left cleanStep lines st) = cleanedLines st.
Proof.
  revert st. induction lines as [|l ls IH]; intros st H; [reflexivity|].
  cbn [fold_left]. cbn [isMetadataOnly] in H. cbv zeta in H.
  unfold cleanStep at 2.
  destruct (negb (truthy (trim l))); [now rewrite IH|].
  destruct (isHeaderLine (trim l)); [now rewrite IH|].
  destruct (isNoteLine (trim l)); [now rewrite IH|].
  destruct (skipNote st) eqn:Hskip; [rewrite IH; [reflexivity|now rewrite Hskip]|].
  apply andb_true_iff in H as [Hl Hls].
  destruct (isTimingLine (trim l)); [rewrite IH; [reflexivity|now rewrite Hskip]|].
  destruct (isNumericId (trim l)); [rewrite IH; [reflexivity|now rewrite Hskip]|].
  destruct (isUuidId (trim l)); [rewrite IH; [reflexivity|now rewrite Hskip]|].
  discriminate.
Qed.

(** C10.  cleanVttTranscript is a total function of its input, and when
    every line of the input is blank, a header line, a NOTE line or a line
    of the comment block it opens, a timing line or a numeric or UUID cue
    identifier, it returns the empty string; so it does on the empty
    string. *)
Theorem cleanVttTranscript_total_empty_on_metadata (rawVtt : jsstring) :
  (exists out, cleanVttTranscript rawVtt = out)
  /\ (isMetadataOnly false (splitLines rawVtt) = true ->
      cleanVttTranscript rawVtt = [])
  /\ cleanVttTranscript [] = [].
Proof.
  split; [now eexists|]. split; [|reflexivity].
  intros H. unfold cleanVttTranscript, cleanLines.
  rewrite fold_cleanStep_metadata; [reflexivity|exact H].
Qed.

(** A header, a comment block, a cue identifier, a timing line and a UUID. *)
Lemma cleanVttTranscript_metadata_witness :
  isMetadataOnly false (splitLines metadataVtt) = true
  /\ cleanVttTranscript metadataVtt = [].
Proof.
  split; [vm_compute; reflexivity|].
  apply (proj1 (proj2 (cleanVttTranscript_total_empty_on_metadata metadataVtt))).
  vm_compute; reflexivity.
Defined.

(** *** Reading a plain paragraph back *)

Lemma paragraph_eq (sp tx : jsstring) : paragraph sp tx = sp ++ 58 :: 32 :: tx.
Proof. reflexivity. Qed.

Lemma isPlainUnit_spec (c : N) :
  isPlainUnit c = true -> c <> 60 /\ c <> 10 /\ c <> 13.
Proof.
  unfold isPlainUnit, isLineTerminator. intros H.
  apply andb_true_iff in H as [H1 H2].
  apply negb_true_iff in H1, H2. apply N.eqb_neq in H1.
  apply orb_false_iff in H2 as [H2 _]. apply orb_false_iff in H2 as [H2 _].
  apply orb_false_iff in H2 as [H2 H3].
  apply N.eqb_neq in H2, H3. auto.
Qed.

Lemma splitLines_line (l : jsstring) :
  forallb isPlainUnit l = true -> splitLines l = [l].
Proof.
  induction l as [|c r IH]; [reflexivity|]. simpl. intros H.
  apply andb_true_iff in H as [Hc Hr].
  apply isPlainUnit_spec in Hc as (_ & H10 & H13).
  apply N.eqb_neq in H10, H13. rewrite H10, H13, (IH Hr). reflexivity.
Qed.

Lemma splitLines_cons_line (l rest : jsstring) :
  forallb isPlainUnit l = true ->
  splitLines (l ++ 10 :: rest) = l :: splitLines rest.
Proof.
  induction l as [|c r IH]; [reflexivity|]. simpl. intros H.
  apply andb_true_iff in H as [Hc Hr].
  apply isPlainUnit_spec in Hc as (_ & H10 & H13).
  apply N.eqb_neq in H10, H13. rewrite H10, H13, (IH Hr). reflexivity.
Qed.

Lemma splitLines_join (ls : list jsstring) :
  ls <> [] -> Forall (fun l => forallb isPlainUnit l = true) ls ->
  splitLines (join [10] ls) = ls.
Proof.
  induction ls as [|l ls IH]; [congruence|]. intros _ H.
  inversion H as [|? ? Hl Hls]; subst. destruct ls as [|l2 ls].
  - now apply splitLines_line.
  - change (join [10] (l :: l2 :: ls)) with (l ++ 10 :: join [10] (l2 :: ls)).
    rewrite (splitLines_cons_line _ _ Hl), IH; [reflexivity|discriminate|exact Hls].
Qed.

Lemma noSpaceRun_app (a : jsstring) (c : N) (b : jsstring) :
  noSpaceRun a = true -> isSpace c = false -> noSpaceRun (c :: b) = true ->
  noSpaceRun (a ++ c :: b) = true.
Proof.
  intros Ha Hc Hb. induction a as [|x a IH]; [exact Hb|].
  simpl in Ha. apply andb_true_iff in Ha as [Hx Ha].
  change (noSpaceRun ((x :: a) ++ c :: b))
    with (negb (isSpace x && startsWithSpace (a ++ c :: b))
          && noSpaceRun (a ++ c :: b)).
  rewrite (IH Ha), andb_true_r.
  destruct a as [|y a]; simpl in *; [now rewrite Hc, andb_false_r|exact Hx].
Qed.

Lemma collapseSpaces_fixed (s : jsstring) :
  noSpaceRun s = true -> collapseSpaces false s = s.
Proof.
  induction s as [|c r IH]; [reflexivity|]. simpl. intros H.
  apply andb_true_iff in H as [Hc Hr]. apply negb_true_iff in Hc.
  destruct (isSpace c); simpl in Hc; [rewrite Hc|]; now rewrite (IH Hr).
Qed.

Lemma replaceVoiceOpen_fixed (s : jsstring) :
  forallb notLt s = true -> replaceVoiceOpen 0 s = s.
Proof.
  induction s as [|c r IH]; [reflexivity|]. intros H.
  simpl in H. apply andb_true_iff in H as [Hc Hr].
  apply negb_true_iff in Hc.
  cbn [replaceVoiceOpen]. unfold matchVoiceOpen.
  destruct r as [|v r']; [now rewrite (IH Hr)|].
  rewrite Hc. cbn [andb]. now rewrite (IH Hr).
Qed.

Lemma removeVoiceClose_fixed (s : jsstring) :
  forallb notLt s = true -> removeVoiceClose 0 s = s.
Proof.
  induction s as [|c r IH]; [reflexivity|]. intros H.
  simpl in H. apply andb_true_iff in H as [Hc Hr].
  apply negb_true_iff in Hc.
  cbn [removeVoiceClose].
  assert (E : matchVoiceClose (c :: r) = false).
  { unfold matchVoiceClose. destruct r as [|b [|x [|d r']]]; try reflexivity.
    now rewrite Hc. }
  now rewrite E, (IH Hr).
Qed.

Lemma removeTags_fixed (s : jsstring) :
  forallb notLt s = true -> removeTags 0 s = s.
Proof.
  induction s as [|c r IH]; [reflexivity|]. intros H.
  simpl in H. apply andb_true_iff in H as [Hc Hr].
  apply negb_true_iff in Hc.
  cbn [removeTags]. unfold matchTag. now rewrite Hc, (IH Hr).
Qed.

Lemma isPlainUnit_notLt (s : jsstring) :
  forallb isPlainUnit s = true -> forallb notLt s = true.
Proof.
  induction s as [|c r IH]; [reflexivity|]. simpl. intros H.
  apply andb_true_iff in H as [Hc Hr]. rewrite (IH Hr), andb_true_r.
  unfold isPlainUnit in Hc. now apply andb_true_iff in Hc as [Hc _].
Qed.

Lemma consumes_times (n : nat) (p q : N -> bool) :
  (forall c, p c = true -> q c = true) -> consumes (times n p) q.
Proof.
  intros Hpq. induction n as [|n IH]; intros s r; simpl.
  - intros H. injection H as <-. now exists [].
  - destruct s as [|c s']; [discriminate|].
    destruct (p c) eqn:Hc; [|discriminate]. intros H.
    destruct (IH _ _ H) as (pre & -> & Hpre).
    exists (c :: pre). split; [reflexivity|]. simpl.
    now rewrite (Hpq _ Hc), Hpre.
Qed.

Lemma consumes_lit (c : N) (q : N -> bool) :
  q c = true -> consumes (lit c) q.
Proof.
  intros Hq s r. unfold lit. destruct s as [|x s']; [discriminate|].
  destruct (x =? c) eqn:E; [|discriminate].
  apply N.eqb_eq in E. subst x. intros H. injection H as <-.
  exists [c]. split; [reflexivity|]. simpl. now rewrite Hq.
Qed.

Lemma consumes_andThen (m1 m2 : matcher) (q : N -> bool) :
  consumes m1 q -> consumes m2 q -> consumes (m1 >> m2) q.
Proof.
  intros H1 H2 s r. unfold andThen.
  destruct (m1 s) as [r1|] eqn:E1; [|discriminate]. intros E2.
  destruct (H1 _ _ E1) as (p1 & -> & Hp1).
  destruct (H2 _ _ E2) as (p2 & -> & Hp2).
  exists (p1 ++ p2). split; [now rewrite app_assoc|].
  rewrite forallb_app. now rewrite Hp1, Hp2.
Qed.

Lemma isUuidId_units (s : jsstring) :
  isUuidId s = true -> forallb isUuidUnit s = true.
Proof.
  unfold isUuidId.
  match goal with |- atEnd (?m s) = true -> _ => assert (Hm : consumes m isUuidUnit) end.
  { repeat apply consumes_andThen;
      first [ apply consumes_lit; reflexivity
            | apply consumes_times; intros c Hc; unfold isUuidUnit; now rewrite Hc ]. }
  match goal with |- atEnd (?m s) = true -> _ => destruct (m s) as [r|] eqn:E end;
    [|discriminate].
  destruct r; [|discriminate]. intros _.
  destruct (Hm _ _ E) as (pre & -> & Hpre). now rewrite app_nil_r.
Qed.

Lemma isPlain_spec (s : jsstring) :
  isPlain s = true ->
  s <> [] /\ startsWithSpace s = false /\ endsWithSpace s = false
  /\ noSpaceRun s = true /\ forallb isPlainUnit s = true.
Proof.
  unfold isPlain. intros H.
  repeat (apply andb_true_iff in H as [H ?]).
  repeat match goal with H : negb _ = true |- _ => apply negb_true_iff in H end.
  apply truthy_nonempty in H. repeat split; assumption.
Qed.

Lemma isTimingLine_colon (l : jsstring) :
  forallb notColon l = true -> isTimingLine l = false.
Proof.
  intros Hcolon. unfold isTimingLine, timestamp, andThen, lit.
  destruct l as [|c1 [|c2 [|c3 r]]]; try reflexivity; cbn.
  - destruct (isDigit c1); reflexivity.
  - destruct (isDigit c1); [|reflexivity]. destruct (isDigit c2); reflexivity.
  - destruct (isDigit c1); [|reflexivity]. destruct (isDigit c2); [|reflexivity].
    cbn in Hcolon. unfold notColon in Hcolon.
    destruct (c3 =? 58); [|reflexivity].
    rewrite !andb_false_r in Hcolon. discriminate.
Qed.

(** What the loop does with a line it keeps. *)
Lemma cleanStep_kept (l : jsstring) (st : LoopState) :
  isKeptLine l -> skipNote st = false ->
  cleanStep st l
    = {| cleanedLines := cleanedLines st ++ [l]; skipNote := false |}.
Proof.
  intros (Hne & Hs & He & Hrun & Hunits & Hh & Hn & Ht & Hnum & Hu) Hskip.
  pose proof (isPlainUnit_notLt _ Hunits) as Hlt.
  assert (Hclean : cleanDialogue l = l).
  { unfold cleanDialogue.
    rewrite (replaceVoiceOpen_fixed _ Hlt), (removeVoiceClose_fixed _ Hlt),
      (removeTags_fixed _ Hlt), (collapseSpaces_fixed _ Hrun).
    now apply trim_fixed. }
  apply truthy_nonempty in Hne.
  unfold cleanStep.
  rewrite (trim_fixed _ Hs He), Hne, Hh, Hn, Hskip, Ht, Hnum, Hu, Hclean, Hne.
  reflexivity.
Qed.

Lemma unattributed_kept (l : jsstring) :
  isPlainEntry (Unattributed l) = true ->
  isKeptLine l /\ speakerMatch l = None.
Proof.
  intros H. unfold isPlainEntry in H.
  apply andb_true_iff in H as [H Hu]. apply andb_true_iff in H as [H Hnum].
  apply andb_true_iff in H as [H Hn]. apply andb_true_iff in H as [H Hh].
  apply andb_true_iff in H as [Hp Hc].
  apply negb_true_iff in Hu, Hnum, Hn, Hh.
  apply isPlain_spec in Hp as (Hne & Hs & He & Hrun & Hunits).
  split.
  - repeat split; try assumption. now apply isTimingLine_colon.
  - unfold speakerMatch. rewrite span_all by exact Hc. destruct l; reflexivity.
Qed.

Section PlainParagraph.

Variables sp tx : jsstring.
Hypothesis Hturn : isPlainEntry (Turn sp tx) = true.

Local Notation "'line'" := (paragraph sp tx) (only parsing).

Lemma plain_parts :
  (isPlain sp = true /\ forallb notColon sp = true /\ isPlain tx = true)
  /\ isHeaderLine line = false /\ isNoteLine line = false.
Proof.
  pose proof Hturn as H. unfold isPlainEntry in H.
  apply andb_true_iff in H as [H Hn]. apply andb_true_iff in H as [H Hh].
  apply andb_true_iff in H as [H Htx]. apply andb_true_iff in H as [Hsp Hc].
  apply negb_true_iff in Hn, Hh. repeat split; assumption.
Qed.

Lemma line_not_timing : isTimingLine line = false.
Proof.
  destruct plain_parts as ((Hsp & Hcolon & _) & _).
  apply isPlain_spec in Hsp as (Hne & _).
  rewrite paragraph_eq.
  unfold isTimingLine, timestamp, andThen, lit.
  destruct sp as [|c1 [|c2 [|c3 r]]]; [congruence| | |]; cbn.
  - destruct (isDigit c1); reflexivity.
  - destruct (isDigit c1); [|reflexivity]. destruct (isDigit c2); reflexivity.
  - destruct (isDigit c1); [|reflexivity]. destruct (isDigit c2); [|reflexivity].
    cbn in Hcolon. unfold notColon in Hcolon.
    destruct (c3 =? 58); [|reflexivity].
    rewrite !andb_false_r in Hcolon. discriminate.
Qed.

Lemma line_not_numeric : isNumericId line = false.
Proof.
  unfold isNumericId. rewrite paragraph_eq, forallb_app. simpl.
  now rewrite andb_false_r, andb_false_r.
Qed.

Lemma line_not_uuid : isUuidId line = false.
Proof.
  destruct (isUuidId line) eqn:E; [|reflexivity].
  apply isUuidId_units in E.
  rewrite paragraph_eq, forallb_app in E.
  apply andb_true_iff in E as [_ E]. simpl in E. discriminate.
Qed.

(** The loop keeps a plain paragraph as it is. *)
Lemma turn_kept : isKeptLine line.
Proof.
  destruct plain_parts as ((Hsp & _ & Htx) & Hh & Hn).
  apply isPlain_spec in Hsp as (Hne1 & Hs1 & _ & Hrun1 & Hu1).
  apply isPlain_spec in Htx as (Hne2 & Hs2 & He2 & Hrun2 & Hu2).
  split; [|split; [|split; [|split; [|split]]]].
  - rewrite paragraph_eq. destruct sp; [congruence|discriminate].
  - rewrite paragraph_eq. destruct sp; [congruence|exact Hs1].
  - rewrite paragraph_eq, endsWithSpace_app by discriminate.
    destruct tx as [|c r]; [congruence|exact He2].
  - rewrite paragraph_eq. apply noSpaceRun_app; [exact Hrun1|reflexivity|].
    cbn. now rewrite Hs2, Hrun2.
  - rewrite paragraph_eq, forallb_app, Hu1. simpl. exact Hu2.
  - repeat split; try assumption.
    + apply line_not_timing.
    + apply line_not_numeric.
    + apply line_not_uuid.
Qed.

(** The merge pass finds the speaker and the text of a plain paragraph. *)
Lemma speakerMatch_line : speakerMatch line = Some (sp, tx).
Proof.
  destruct plain_parts as ((Hsp & Hcolon & Htx) & _).
  apply isPlain_spec in Hsp as (Hne & _).
  apply isPlain_spec in Htx as (_ & Hs & _ & _ & Hu).
  unfold speakerMatch. rewrite paragraph_eq.
  rewrite span_app; [|exact Hcolon|reflexivity].
  destruct sp as [|c r]; [congruence|].
  change (skipSpaces (32 :: tx)) with (skipSpaces tx).
  rewrite (skipSpaces_fixed _ Hs), span_all; [reflexivity|].
  clear - Hu. induction tx as [|x t IH]; [reflexivity|]. simpl in *.
  apply andb_true_iff in Hu as [Hx Ht]. rewrite (IH Ht), andb_true_r.
  unfold isPlainUnit in Hx. now apply andb_true_iff in Hx as [_ Hx].
Qed.

Lemma viewStep_line (st : ViewState) :
  speaker st <> sp ->
  viewStep st line
    = {| entries := viewFlush st; speaker := sp; buffer := tx |}.
Proof.
  intros Hneq. destruct plain_parts as ((Hsp & _ & Htx) & _).
  apply isPlain_spec in Hsp as (_ & Hs1 & He1 & _).
  apply isPlain_spec in Htx as (_ & Hs2 & He2 & _).
  unfold viewStep. rewrite speakerMatch_line.
  rewrite (trim_fixed _ Hs1 He1), (trim_fixed _ Hs2 He2).
  assert (E : streq sp (speaker st) = false) by (apply streq_neq; congruence).
  rewrite E. reflexivity.
Qed.

End PlainParagraph.

Lemma entry_kept (e : Entry) : isPlainEntry e = true -> isKeptLine (render e).
Proof.
  destruct e as [l|sp tx]; intros H.
  - apply (unattributed_kept _ H).
  - apply (@turn_kept sp tx H).
Qed.

Lemma fold_cleanStep_plain (es : list Entry) (st : LoopState) :
  forallb isPlainEntry es = true -> skipNote st = false ->
  fold_left cleanStep (List.map render es) st
    = {| cleanedLines := cleanedLines st ++ List.map render es;
         skipNote := false |}.
Proof.
  revert st. induction es as [|e es IH]; intros st Hes Hskip.
  - destruct st as [ls sk]. simpl in *. subst sk. now rewrite app_nil_r.
  - simpl in Hes. apply andb_true_iff in Hes as [He Hes].
    cbn [List.map fold_left].
    rewrite (cleanStep_kept _ (entry_kept _ He) Hskip), (IH _ Hes) by reflexivity.
    cbn [cleanedLines]. now rewrite <- app_assoc.
Qed.

Lemma fold_viewStep_plain (es : list Entry) (st : ViewState) :
  forallb isPlainEntry es = true -> readable (speaker st) es ->
  viewFlush (fold_left viewStep (List.map render es) st) = viewFlush st ++ es.
Proof.
  revert st. induction es as [|e es IH]; intros st Hes Hread.
  - simpl. now rewrite app_nil_r.
  - simpl in Hes. apply andb_true_iff in Hes as [He Hes].
    destruct e as [l|sp tx]; destruct Hread as [Hcur Hread];
      cbn [List.map fold_left render].
    + destruct (unattributed_kept _ He) as [_ Hm].
      assert (Hstep : viewStep st l
                      = {| entries := entries st ++ [Unattributed l];
                           speaker := speaker st; buffer := buffer st |}).
      { unfold viewStep. rewrite Hm, Hcur. reflexivity. }
      rewrite Hstep, IH; [|exact Hes|cbn [speaker]; now rewrite Hcur].
      unfold viewFlush. cbn [speaker entries buffer]. rewrite Hcur.
      cbn [truthy]. now rewrite <- app_assoc.
    + rewrite (@viewStep_line sp tx He st Hcur), (IH _ Hes) by exact Hread.
      unfold viewFlush at 1. cbn [speaker entries buffer].
      destruct (@plain_parts sp tx He) as ((Hsp & _) & _).
      apply isPlain_spec in Hsp as (Hne & _).
      apply truthy_nonempty in Hne. rewrite Hne.
      now rewrite <- app_assoc.
Qed.

Lemma readable_turns (es : list Entry) (cur : jsstring) :
  forallb isTurn es = true ->
  noRepeatedSpeaker (Some cur :: List.map speakerOf es) ->
  readable cur es.
Proof.
  revert cur. induction es as [|[l|sp tx] es IH]; intros cur Ht Hrep.
  - exact I.
  - discriminate.
  - destruct Hrep as [Hneq Hrep]. split; [exact Hneq|].
    apply IH; [exact Ht|exact Hrep].
Qed.

Lemma readable_ordered (es : list Entry) :
  unattributedFirst es = true ->
  noRepeatedSpeaker (List.map speakerOf es) ->
  forallb isPlainEntry es = true ->
  readable [] es.
Proof.
  induction es as [|[l|sp tx] es IH]; intros Hord Hrep Hes.
  - exact I.
  - simpl in Hes. apply andb_true_iff in Hes as [_ Hes].
    destruct Hrep as [_ Hrep]. split; [reflexivity|]. now apply IH.
  - simpl in Hes. apply andb_true_iff in Hes as [He _].
    destruct (@plain_parts sp tx He) as ((Hsp & _) & _).
    apply isPlain_spec in Hsp as (Hne & _).
    split; [congruence|]. apply readable_turns; [exact Hord|exact Hrep].
Qed.

(** Plain entries the merge pass takes one by one are what the normaliser
    makes of their own rendering. *)
Lemma cleanVttTranscript_plain (es : list Entry) :
  forallb isPlainEntry es = true -> readable [] es ->
  cleanVttTranscript (join [10] (List.map render es))
    = join [10] (List.map render es).
Proof.
  intros Hes Hread. destruct es as [|e es']; [reflexivity|].
  set (es := e :: es') in *.
  assert (Hunits : Forall (fun l => forallb isPlainUnit l = true) (List.map render es)).
  { apply Forall_forall. intros l Hl. apply in_map_iff in Hl as (x & <- & Hx).
    pose proof (proj1 (forallb_forall _ _) Hes x Hx) as Hp.
    apply entry_kept in Hp. apply Hp. }
  unfold cleanVttTranscript, cleanLines.
  rewrite splitLines_join; [|discriminate|exact Hunits].
  rewrite (fold_cleanStep_plain _ _ Hes) by reflexivity.
  cbn [cleanedLines app]. rewrite mergeSpeakerLines_paragraphs.
  unfold paragraphsOf. now rewrite (fold_viewStep_plain _ _ Hes).
Qed.

(** C3, as amended.  When the paragraphs of the cleaned transcript are
    plain, cleaning the cleaned text again returns it unchanged.  Plain is:
    not empty, no white space at the ends, no run of white space, no ['<']
    and no line terminator, for the speaker and the text of a turn and for a
    line without speaker; no colon in a speaker or in a line without
    speaker; and the paragraph does not read as a header or NOTE line, nor,
    without speaker, as a cue identifier. *)
Theorem cleanVttTranscript_idempotent_on_plain (rawVtt : jsstring) :
  forallb isPlainEntry (cleanedTranscript rawVtt) = true ->
  cleanVttTranscript (cleanVttTranscript rawVtt) = cleanVttTranscript rawVtt.
Proof.
  intros H.
  replace (cleanVttTranscript rawVtt)
    with (join [10] (List.map render (cleanedTranscript rawVtt)))
    by (symmetry; apply mergeSpeakerLines_paragraphs).
  apply cleanVttTranscript_plain; [exact H|].
  apply readable_ordered; [apply cleanedTranscript_ordered| |exact H].
  apply cleanedTranscript_speakers.
Qed.

(** The cleaned text of the literal case is made of plain turns. *)
Lemma cleanVttTranscript_idempotent_witness :
  forallb isPlainEntry (cleanedTranscript literalVtt) = true
  /\ cleanVttTranscript (cleanVttTranscript literalVtt)
     = cleanVttTranscript literalVtt.
Proof.
  split; [vm_compute; reflexivity|].
  apply (cleanVttTranscript_idempotent_on_plain literalVtt).
  vm_compute; reflexivity.
Defined.

(** C3 as stated fails: a second, empty cue of the same speaker leaves a
    space at the end of the paragraph, which the second cleaning trims. *)
Lemma cleanVttTranscript_not_idempotent :
  cleanVttTranscript emptyCueVtt = js "Alice: Hello "
  /\ cleanVttTranscript (cleanVttTranscript emptyCueVtt) = js "Alice: Hello"
  /\ cleanVttTranscript (cleanVttTranscript emptyCueVtt)
     <> cleanVttTranscript emptyCueVtt.
Proof. vm_compute. repeat split. discriminate. Qed.

End VttFacts.

(* ================================================================== *)
(** ** Properties of the comparisons of numbers *)

Module NumberFacts.

Import JsString JsNumber Scenario.
Import QArith Qround Qpower SpecFloat.

(** A finite limit: the count of meetings is zero or below it. *)
Lemma lessThan_length (n : nat) (q : Q) :
  geq (lengthValue n) (Real q) = false -> inject_Z (Z.of_nat n) < q.
Proof.
  unfold geq, lengthValue, lessThan. intros H.
  destruct (Qle_bool q (inject_Z (Z.of_nat n))) eqn:E; [discriminate|].
  apply Qnot_le_lt. intros Hle. apply Qle_bool_iff in Hle. congruence.
Qed.

Lemma geq_length (n : nat) (q : Q) :
  q <= inject_Z (Z.of_nat n) -> geq (lengthValue n) (Real q) = true.
Proof.
  intros H. apply Qle_bool_iff in H. unfold geq, lengthValue, lessThan.
  rewrite H. reflexivity.
Qed.

(** The count the loop of listMeetings can reach under a finite limit is
    at most the ceiling of the limit. *)
Lemma isBelowLimit_ceiling (limit : number) (count : nat) (c : Z) :
  isBelowLimit limit count = true -> ceiling limit = Some c ->
  (count <= Z.to_nat c)%nat.
Proof.
  unfold ceiling. destruct count as [|n]; [intros; apply Nat.le_0_l|].
  cbn [isBelowLimit]. intros H Hc. apply negb_true_iff in H.
  destruct (valueOf limit) as [| |q|]; try discriminate.
  injection Hc as <-. apply lessThan_length in H.
  assert (Hlt : (Z.of_nat n < Qceiling q)%Z).
  { rewrite Zlt_Qlt. eapply Qlt_le_trans; [exact H|apply Qle_ceiling]. }
  apply Nat2Z.inj_le. rewrite Z2Nat.id; [|apply Z.le_trans with (Z.of_nat n); [apply Nat2Z.is_nonneg|apply Z.lt_le_incl, Hlt]].
  rewrite Nat2Z.inj_succ. apply Z.le_succ_l, Hlt.
Qed.

(** A limit that is not a number, or plus infinity, never stops the loop. *)
Lemma isBelowLimit_unbounded (limit : number) (count : nat) :
  valueOf limit = NotANumber \/ valueOf limit = PlusInfinity ->
  isBelowLimit limit count = true.
Proof.
  intros H. destruct count as [|n]; [reflexivity|]. cbn [isBelowLimit].
  unfold geq, lengthValue, lessThan. destruct H as [-> | ->]; reflexivity.
Qed.

(** The loop stops at once when [0 >= limit]; then no count but zero is
    below the limit. *)
Lemma geq_monotone (n m : nat) (v : value) :
  (n <= m)%nat -> geq (lengthValue n) v = true -> geq (lengthValue m) v = true.
Proof.
  intros Hnm. unfold geq, lengthValue, lessThan.
  destruct v as [| |q|]; try (intros; assumption).
  destruct (Qle_bool q (inject_Z (Z.of_nat n))) eqn:E; [intros _|discriminate].
  apply Qle_bool_iff in E.
  assert (H : q <= inject_Z (Z.of_nat m)).
  { eapply Qle_trans; [exact E|]. rewrite <- Zle_Qle. apply Nat2Z.inj_le, Hnm. }
  apply Qle_bool_iff in H. rewrite H. reflexivity.
Qed.

Lemma isBelowLimit_nonpositive (limit : number) (count : nat) :
  geq (lengthValue 0) (valueOf limit) = true ->
  isBelowLimit limit count = true -> count = 0%nat.
Proof.
  intros H0 H. destruct count as [|n]; [reflexivity|]. cbn [isBelowLimit] in H.
  apply negb_true_iff in H.
  rewrite (@geq_monotone 0 n (valueOf limit) (Nat.le_0_l n) H0) in H. discriminate.
Qed.

(** *** Math.min *)

(** Math.min with a second argument that is neither not a number nor minus
    zero, as the literals are. *)
Lemma min_literal (a b : number) :
  isNaN b = false -> isNegZero b = false ->
  Math.min a b
  = if isNaN a then S754_nan
    else match lessThan (valueOf b) (valueOf a) with
         | Some true => b
         | _ => a
         end.
Proof.
  intros Hb Hz. unfold Math.min, Math.lower. rewrite Hb, Hz, orb_false_r.
  destruct a as [[|]|[|]| |s m e]; reflexivity.
Qed.

Lemma valueOf_NaN (x : number) : isNaN x = false <-> valueOf x <> NotANumber.
Proof.
  destruct x as [s|[|]| |s m e]; cbn; split; intros H; try reflexivity;
    try discriminate; try congruence.
Qed.

(** The values of the literals of the source. *)
Lemma literal_50 : exists q, valueOf (ofZ 50) = Real q /\ q == 50.
Proof. eexists. split; reflexivity. Qed.

Lemma literal_100 : exists q, valueOf (ofZ 100) = Real q /\ q == 100.
Proof. eexists. split; reflexivity. Qed.

Lemma literal_10 : exists q, valueOf (ofZ 10) = Real q /\ q == 10.
Proof. eexists. split; reflexivity. Qed.

(** [Math.min(limit, 50)] is at most 50 unless [limit] is not a number:
    no more than 50 meetings are below it. *)
Lemma isBelowLimit_min_50 (limit : number) (count : nat) :
  isNaN limit = false ->
  isBelowLimit (Math.min limit (ofZ 50)) count = true -> (count <= 50)%nat.
Proof.
  intros Hn. rewrite min_literal by reflexivity. rewrite Hn.
  destruct literal_50 as (q50 & E50 & Hq). rewrite E50.
  destruct count as [|n]; [intros; apply Nat.le_0_l|].
  assert (Hfifty : isBelowLimit (ofZ 50) (S n) = true -> (S n <= 50)%nat).
  { intros H. exact (@isBelowLimit_ceiling (ofZ 50) (S n) 50%Z H eq_refl). }
  destruct (valueOf limit) as [| |q|] eqn:Ev; cbn [lessThan].
  - apply valueOf_NaN in Hn. congruence.
  - cbn [isBelowLimit]. rewrite Ev. intros H. discriminate.
  - destruct (Qle_bool q q50) eqn:Ele; cbn [negb]; [|exact Hfifty].
    cbn [isBelowLimit]. rewrite Ev. intros H. apply negb_true_iff in H.
    apply lessThan_length in H. apply Qle_bool_iff in Ele.
    assert (Hlt : inject_Z (Z.of_nat n) < inject_Z 50).
    { eapply Qlt_le_trans; [exact H|]. rewrite <- Hq. exact Ele. }
    rewrite <- Zlt_Qlt in Hlt.
    apply Nat2Z.inj_le. rewrite Nat2Z.inj_succ. apply Z.le_succ_l. exact Hlt.
  - exact Hfifty.
Qed.

(** [Math.min(limit, 50)] is [limit] when [0 >= limit]. *)
Lemma min_50_nonpositive (limit : number) :
  geq (lengthValue 0) (valueOf limit) = true -> Math.min limit (ofZ 50) = limit.
Proof.
  intros H. rewrite min_literal by reflexivity.
  destruct literal_50 as (q50 & E50 & Hq). rewrite E50.
  destruct limit as [s|[|]| |s m e]; try reflexivity;
    try (exfalso; vm_compute in H; discriminate).
  - cbn [isNaN valueOf lessThan].
    assert (E : Qle_bool 0 q50 = true).
    { apply Qle_bool_iff. rewrite Hq. discriminate. }
    rewrite E. reflexivity.
  - cbn [isNaN valueOf] in *. unfold geq, lengthValue in H.
    set (q := inject_Z (if s then Z.neg m else Z.pos m) * 2 ^ e) in *.
    cbn [lessThan] in *.
    destruct (Qle_bool q (inject_Z (Z.of_nat 0))) eqn:E0; [|discriminate].
    apply Qle_bool_iff in E0.
    assert (E : Qle_bool q q50 = true).
    { apply Qle_bool_iff. eapply Qle_trans; [exact E0|]. rewrite Hq. discriminate. }
    rewrite E. reflexivity.
Qed.

(** *** The doubles of the integers *)

Lemma digits2_pos_iter (p : positive) (k : positive) :
  digits2_pos (Pos.iter xO p k) = (digits2_pos p + k)%positive.
Proof.
  induction k as [|k IH] using Pos.peano_ind.
  - cbn. now rewrite Pos.add_1_r.
  - rewrite Pos.iter_succ. cbn [digits2_pos]. rewrite IH. lia.
Qed.

Lemma iter_xO_pow (p k : positive) :
  Zpos (Pos.iter xO p k) = (Zpos p * 2 ^ Zpos k)%Z.
Proof.
  induction k as [|k IH] using Pos.peano_ind.
  - cbn. lia.
  - rewrite Pos.iter_succ. rewrite Pos2Z.inj_xO, IH, Pos2Z.inj_succ, Z.pow_succ_r by lia. lia.
Qed.

(** A mantissa of 53 bits with an exponent in range is a double as it is. *)
Lemma binary_round_aux_canonical (s : bool) (m : positive) (e : Z) :
  digits2_pos m = 53%positive -> (-1074 <= e <= 971)%Z ->
  binary_round_aux 53 1024 s (Zpos m) e loc_Exact = S754_finite s m e.
Proof.
  intros Hd He. unfold binary_round_aux.
  assert (Hs : shr_fexp 53 1024 (Zpos m) e loc_Exact
               = ({| shr_m := Zpos m; shr_r := false; shr_s := false |}, e)).
  { unfold shr_fexp, Zdigits2, fexp, emin. rewrite Hd.
    replace (Z.max (53 + e - 53) (3 - 1024 - 53) - e)%Z with 0%Z by lia. reflexivity. }
  rewrite Hs. cbn [shr_m loc_of_shr_record round_nearest_even]. rewrite Hs.
  cbn [shr_m]. destruct (Z.leb_spec e (1024 - 53)); [reflexivity|lia].
Qed.

Lemma digits2_pos_small (p : positive) :
  (Zpos p < 2 ^ 53)%Z -> (Zpos (digits2_pos p) <= 53)%Z.
Proof.
  intros H. destruct (Z.le_gt_cases (Zpos (digits2_pos p)) 53) as [|Hgt]; [assumption|].
  exfalso.
  assert (Hlow : forall q, (2 ^ (Zpos (digits2_pos q) - 1) <= Zpos q)%Z).
  { induction q as [q IH|q IH|]; cbn [digits2_pos]; rewrite ?Pos2Z.inj_succ.
    - replace (Z.succ (Zpos (digits2_pos q)) - 1)%Z with (Z.succ (Zpos (digits2_pos q) - 1))%Z by lia.
      rewrite Z.pow_succ_r by lia. lia.
    - replace (Z.succ (Zpos (digits2_pos q)) - 1)%Z with (Z.succ (Zpos (digits2_pos q) - 1))%Z by lia.
      rewrite Z.pow_succ_r by lia. lia.
    - cbn. lia. }
  specialize (Hlow p).
  assert (2 ^ 53 <= 2 ^ (Zpos (digits2_pos p) - 1))%Z by (apply Z.pow_le_mono_r; lia).
  lia.
Qed.

(** The double of a positive integer below 2^53 is the integer. *)
Lemma binary_round_exact (s : bool) (p : positive) :
  (Zpos p < 2 ^ 53)%Z ->
  exists m e, binary_round 53 1024 s p 0 = S754_finite s m e
              /\ (e <= 0)%Z /\ (Zpos m = Zpos p * 2 ^ (- e))%Z.
Proof.
  intros Hp. pose proof (@digits2_pos_small p Hp) as Hd.
  unfold binary_round.
  assert (Hf : fexp 53 1024 (Zpos (digits2_pos p) + 0) = (Zpos (digits2_pos p) - 53)%Z).
  { unfold fexp, emin. lia. }
  rewrite Hf. unfold shl_align.
  destruct (Zpos (digits2_pos p) - 53 - 0)%Z as [|k|k] eqn:Ek; [|lia|].
  - exists p, 0%Z. rewrite binary_round_aux_canonical; [|apply Pos2Z.inj; lia|lia].
    split; [reflexivity|]. split; [lia|]. cbn. lia.
  - exists (Pos.iter xO p k), (Zpos (digits2_pos p) - 53)%Z.
    rewrite binary_round_aux_canonical.
    + split; [reflexivity|]. split; [lia|]. rewrite iter_xO_pow. f_equal. f_equal. lia.
    + rewrite digits2_pos_iter. apply Pos2Z.inj. rewrite Pos2Z.inj_add. lia.
    + lia.
Qed.

(** The value of the Number of an integer below 2^53 in size is the
    integer. *)
Lemma valueOf_ofZ (n : Z) :
  (Z.abs n < 2 ^ 53)%Z -> exists q, valueOf (ofZ n) = Real q /\ q == inject_Z n.
Proof.
  intros Hn.
  assert (Hscale : forall (sign : bool) (p m : positive) (e : Z),
             (e <= 0)%Z -> (Zpos m = Zpos p * 2 ^ (- e))%Z ->
             inject_Z (if sign then Zneg m else Zpos m) * 2 ^ e
             == inject_Z (if sign then Zneg p else Zpos p)).
  { intros sign p m e He Hm.
    remember (- e)%Z as k eqn:Ek.
    assert (Hk : (0 <= k)%Z) by lia.
    assert (Ee : e = (- k)%Z) by lia. rewrite Ee. clear Ek Ee He.
    assert (E : (if sign then Zneg m else Zpos m)
                = ((if sign then Zneg p else Zpos p) * 2 ^ k)%Z).
    { destruct sign; [|exact Hm].
      change (Zneg m) with (- Zpos m)%Z. change (Zneg p) with (- Zpos p)%Z.
      rewrite Hm. ring. }
    rewrite E, inject_Z_mult, Zpower_Qpower by exact Hk.
    rewrite Qpower_opp. change (inject_Z 2) with 2.
    rewrite <- Qmult_assoc, Qmult_inv_r; [apply Qmult_1_r|].
    apply Qpower_not_0. discriminate. }
  destruct n as [|p|p].
  - exists 0. split; reflexivity.
  - destruct (@binary_round_exact false p Hn) as (m & e & E & He & Hm).
    unfold ofZ, binary_normalize. rewrite E. cbn [valueOf].
    eexists. split; [reflexivity|]. exact (Hscale false p m e He Hm).
  - destruct (@binary_round_exact true p Hn) as (m & e & E & He & Hm).
    unfold ofZ, binary_normalize. rewrite E. cbn [valueOf].
    eexists. split; [reflexivity|]. exact (Hscale true p m e He Hm).
Qed.

Lemma ceiling_ofZ (n : Z) : (0 <= n < 2 ^ 53)%Z -> ceiling (ofZ n) = Some n.
Proof.
  intros Hn. destruct (@valueOf_ofZ n) as (q & E & Hq); [lia|].
  unfold ceiling. rewrite E, Hq, Qceiling_Z. reflexivity.
Qed.

End NumberFacts.

(* ================================================================== *)
(** ** Properties of the Graph client *)

Module GraphFacts.

Import JsString Uri JsNumber Graph Server Scenario StringFacts NumberFacts.

Arguments lookupUrl : simpl never.
Arguments lookupRequest : simpl never.

(** *** Reading a trace *)

Lemma requests_app (a b : list Event) : requests (a ++ b) = requests a ++ requests b.
Proof.
  induction a as [|[r|d|u] a IH]; simpl; [reflexivity| |exact IH|exact IH].
  now rewrite IH.
Qed.

Lemma resolverCalls_app (a b : list Event) :
  resolverCalls (a ++ b) = resolverCalls a ++ resolverCalls b.
Proof.
  induction a as [|[r|d|u] a IH]; simpl; [reflexivity|exact IH|exact IH|].
  now rewrite IH.
Qed.

Lemma failedResolutions_app (a b : list Event) :
  failedResolutions (a ++ b) = (failedResolutions a + failedResolutions b)%nat.
Proof.
  induction a as [|[r|d|u] a IH]; simpl; [reflexivity|exact IH| |exact IH].
  destruct d; simpl; now rewrite ?IH.
Qed.

#[local] Hint Rewrite requests_app resolverCalls_app failedResolutions_app : trace.

Section Client.

Context {G : GraphService}.

(** *** Runs *)

Lemma bind_returned {A B} (m : M A) (f : A -> M B) (s : service) (a : A) :
  outcome (m s) = Returned a ->
  outcome (bind m f s) = outcome (f a (after (m s)))
  /\ after (bind m f s) = after (f a (after (m s)))
  /\ emitted (bind m f s) = emitted (m s) ++ emitted (f a (after (m s))).
Proof. intros H. unfold bind. rewrite H. auto. Qed.

Lemma bind_thrown {A B} (m : M A) (f : A -> M B) (s : service) (e : exn) :
  outcome (m s) = Thrown e ->
  outcome (bind m f s) = Thrown e
  /\ after (bind m f s) = after (m s)
  /\ emitted (bind m f s) = emitted (m s).
Proof. intros H. unfold bind. rewrite H. auto. Qed.

(** *** graphGetSafe and fetchCalendarEvents *)

(** graphGetSafe returns in every case, after one request. *)
Lemma graphGetSafe_run (r : Request) (accessToken : jsstring) (s : service) :
  exists data diag,
    outcome (graphGetSafe r accessToken s) = Returned data
    /\ after (graphGetSafe r accessToken s) = snd (respond r accessToken s)
    /\ emitted (graphGetSafe r accessToken s) = Sent r :: diag
    /\ quiet diag
    /\ ((forall json t, fst (respond r accessToken s) <> Ok (JsonObject json) t) ->
        data = None).
Proof.
  unfold graphGetSafe, tryCatch, bind, graphGet, resJson, log, emit, ret, throw.
  destruct (respond r accessToken s) as [[| st msg | [| | d] t] s'] eqn:E; simpl;
    eexists; eexists; (split; [reflexivity|]); (split; [reflexivity|]);
    (split; [reflexivity|]); (split; [repeat split|]);
    intros H; try reflexivity.
  exfalso. now apply (H d t).
Qed.

Lemma buildDateRange_run (filterDate : option jsstring) (s : service) :
  buildDateRange filterDate s = ret (rangeAt filterDate s) s.
Proof.
  unfold buildDateRange, rangeAt, given.
  destruct filterDate as [d|]; [destruct (truthy d)|]; reflexivity.
Qed.

(** fetchCalendarEvents returns in every case, after the one calendarView
    request; when the reply is not an ok JSON object it returns no event. *)
Lemma fetchCalendarEvents_run (accessToken startDT endDT : jsstring) (maxEvents : number) (s : service) :
  let request := CalendarViewRequest startDT endDT (Math.min maxEvents (ofZ 100)) in
  let run := fetchCalendarEvents accessToken startDT endDT maxEvents s in
  exists events,
    outcome run = Returned events
    /\ after run = snd (respond request accessToken s)
    /\ requests (emitted run) = [request]
    /\ resolverCalls (emitted run) = []
    /\ failedResolutions (emitted run) = O
    /\ ((forall json t, fst (respond request accessToken s) <> Ok (JsonObject json) t) ->
        events = []).
Proof.
  intros request run. subst run. unfold fetchCalendarEvents. fold request.
  destruct (graphGetSafe_run request accessToken s)
    as (data & diag & Ho & Ha & He & (Hq1 & Hq2 & Hq3) & Hn).
  unfold bind, log, emit, ret.
  cbn [outcome after emitted]. rewrite Ho. cbn [outcome after emitted].
  rewrite He, Ha.
  exists (valueOrEmpty data). read_trace. rewrite Hq1, Hq2, Hq3.
  repeat split; try reflexivity.
  intros H. now rewrite (Hn H).
Qed.

(** *** Resolution of a join URL *)

Lemma tryResolveByJoinUrl_run (accessToken joinUrl : jsstring) (s : service) :
  let run := tryResolveByJoinUrl accessToken joinUrl s in
  requests (emitted run) = lookupRequest joinUrl
  /\ resolverCalls (emitted run) = []
  /\ failedResolutions (emitted run) = O
  /\ match lookupUrl joinUrl with
     | Some _ => exists result, outcome run = Returned result
     | None => outcome run = Thrown URIError
     end.
Proof.
  intros run. subst run. unfold tryResolveByJoinUrl, lookupRequest.
  destruct (lookupUrl joinUrl) as [url|]; [|repeat split].
  destruct (graphGetSafe_run (MeetingLookup url) accessToken s)
    as (data & diag & Ho & Ha & He & (Hq1 & Hq2 & Hq3) & Hn).
  unfold bind, ret. rewrite Ho. cbn [outcome after emitted]. rewrite He.
  read_trace. rewrite Hq1, Hq2, Hq3. repeat split. now eexists.
Qed.

Lemma resolveOnlineMeeting_run (accessToken joinUrl : jsstring) (s : service) :
  let run := resolveOnlineMeeting accessToken joinUrl s in
  requests (emitted run) = lookupRequest joinUrl ++ retry accessToken joinUrl s
  /\ resolverCalls (emitted run) = [joinUrl]
  /\ failedResolutions (emitted run) = O.
Proof.
  intros run. subst run. unfold resolveOnlineMeeting, retry.
  destruct (tryResolveByJoinUrl_run accessToken joinUrl s) as (Hr & Hc & Hf & _).
  unfold bind, log, emit, ret, throw. cbn [outcome after emitted].
  destruct (outcome (tryResolveByJoinUrl accessToken joinUrl s)) as [[m|]|e].
  - cbn [outcome after emitted]. read_trace.
    rewrite Hr, Hc, Hf, ?app_nil_r. auto.
  - destruct (decodeURIComponent joinUrl) as [decoded|].
    + destruct (streq decoded joinUrl); cbn [negb outcome after emitted].
      * read_trace. rewrite Hr, Hc, Hf, ?app_nil_r. auto.
      * set (s1 := after (tryResolveByJoinUrl accessToken joinUrl s)).
        destruct (tryResolveByJoinUrl_run accessToken decoded s1) as (Hr2 & Hc2 & Hf2 & _).
        destruct (outcome (tryResolveByJoinUrl accessToken decoded s1)) as [[m|]|e];
          cbn [outcome after emitted]; read_trace;
          rewrite Hr, Hc, Hf, Hr2, Hc2, Hf2, ?app_nil_r; auto.
    + cbn [outcome after emitted]. read_trace.
      rewrite Hr, Hc, Hf, ?app_nil_r. auto.
  - cbn [outcome after emitted]. read_trace. rewrite Hr, Hc, Hf, ?app_nil_r. auto.
Qed.

(** The outcome of resolveOnlineMeeting from those of its lookups. *)
Lemma resolveOnlineMeeting_outcome (accessToken joinUrl : jsstring) (s : service) :
  let first := tryResolveByJoinUrl accessToken joinUrl s in
  outcome (resolveOnlineMeeting accessToken joinUrl s) =
  match outcome first with
  | Returned (Some m) => Returned (Some m)
  | Returned None =>
      match decodeURIComponent joinUrl with
      | None => Thrown URIError
      | Some decoded =>
          if streq decoded joinUrl then Returned None
          else outcome (tryResolveByJoinUrl accessToken decoded (after first))
      end
  | Thrown e => Thrown e
  end.
Proof.
  intros first. subst first. unfold resolveOnlineMeeting.
  unfold bind, log, emit, ret, throw. cbn [outcome after emitted].
  destruct (outcome (tryResolveByJoinUrl accessToken joinUrl s)) as [[m|]|e];
    [reflexivity| |reflexivity].
  destruct (decodeURIComponent joinUrl) as [decoded|]; [|reflexivity].
  destruct (streq decoded joinUrl); cbn [negb outcome]; [reflexivity|].
  destruct (outcome (tryResolveByJoinUrl accessToken decoded
                       (after (tryResolveByJoinUrl accessToken joinUrl s))))
    as [[m|]|e]; reflexivity.
Qed.

Lemma lookupRequest_length (joinUrl : jsstring) :
  (List.length (lookupRequest joinUrl) <= 1)%nat.
Proof. unfold lookupRequest. destruct (lookupUrl joinUrl); cbn [List.length]; lia. Qed.

(** C5.  resolveOnlineMeeting looks the exact join URL up first; it sends
    a second lookup only when the first found no meeting and the decoded
    join URL differs, and that lookup is for the decoded form; it sends at
    most two lookups; a meeting found by the exact lookup is the result
    after that one lookup, and when the exact lookup finds nothing and the
    decoded one finds a meeting, that meeting is the result and no third
    lookup is sent. *)
Theorem resolveOnlineMeeting_exact_then_decoded (accessToken joinUrl : jsstring) (s : service) :
  let first := tryResolveByJoinUrl accessToken joinUrl s in
  let run := resolveOnlineMeeting accessToken joinUrl s in
  requests (emitted run) = lookupRequest joinUrl ++ retry accessToken joinUrl s
  /\ (List.length (requests (emitted run)) <= 2)%nat
  /\ (forall m, outcome first = Returned (Some m) ->
        outcome run = Returned (Some m)
        /\ requests (emitted run) = lookupRequest joinUrl)
  /\ (forall decoded m,
        outcome first = Returned None ->
        decodeURIComponent joinUrl = Some decoded -> decoded <> joinUrl ->
        outcome (tryResolveByJoinUrl accessToken decoded (after first)) = Returned (Some m) ->
        outcome run = Returned (Some m)
        /\ requests (emitted run) = lookupRequest joinUrl ++ lookupRequest decoded).
Proof.
  intros first run.
  destruct (resolveOnlineMeeting_run accessToken joinUrl s) as (Hr & _ & _).
  pose proof (resolveOnlineMeeting_outcome accessToken joinUrl s) as Ho.
  fold run in Hr, Ho. cbv zeta in Ho. fold first in Ho.
  split; [exact Hr|]. split; [|split].
  - rewrite Hr, length_app. pose proof (lookupRequest_length joinUrl).
    assert (List.length (retry accessToken joinUrl s) <= 1)%nat; [|lia].
    unfold retry.
    destruct (outcome (tryResolveByJoinUrl accessToken joinUrl s)) as [[?|]|?];
      cbn [List.length]; try lia.
    destruct (decodeURIComponent joinUrl) as [d|]; cbn [List.length]; try lia.
    destruct (streq d joinUrl); cbn [List.length]; [lia|apply lookupRequest_length].
  - intros m Hm. rewrite Ho, Hr. unfold retry. fold first. rewrite Hm.
    rewrite app_nil_r. split; reflexivity.
  - intros decoded m Hnone Hd Hneq Hm. rewrite Ho, Hr. unfold retry. fold first.
    rewrite Hnone, Hd. apply streq_neq in Hneq. rewrite Hneq.
    split; [exact Hm|reflexivity].
Qed.

(** resolveCalendarEvent from the resolution of the join URL. *)
Lemma resolveCalendarEvent_run (accessToken joinUrl : jsstring) (event : CalendarEvent.t) (s : service) :
  joinUrlOf event = Some joinUrl ->
  let inner := resolveOnlineMeeting accessToken joinUrl s in
  let run := resolveCalendarEvent accessToken event s in
  requests (emitted run) = requests (emitted inner)
  /\ resolverCalls (emitted run) = [joinUrl]
  /\ after run = after inner
  /\ match outcome inner with
     | Returned (Some m) =>
         outcome run = Returned (Some (OnlineMeeting.setSubject (preferredSubject event m) m))
         /\ failedResolutions (emitted run) = O
     | Returned None =>
         outcome run = Returned None /\ failedResolutions (emitted run) = 1%nat
     | Thrown e => outcome run = Thrown e /\ failedResolutions (emitted run) = O
     end.
Proof.
  intros Hurl inner run. subst inner run. unfold resolveCalendarEvent. rewrite Hurl.
  destruct (resolveOnlineMeeting_run accessToken joinUrl s) as (_ & Hc & Hf).
  unfold bind, log, emit, ret.
  destruct (outcome (resolveOnlineMeeting accessToken joinUrl s)) as [[m|]|e];
    cbn [outcome after emitted]; read_trace; rewrite ?Hc, ?Hf, ?app_nil_r; auto.
Qed.

Lemma resolveCalendarEvent_without_url (accessToken : jsstring) (event : CalendarEvent.t) (s : service) :
  joinUrlOf event = None ->
  resolveCalendarEvent accessToken event s = ret None s.
Proof. intros H. unfold resolveCalendarEvent. now rewrite H. Qed.

Lemma lookupRequest_lookups (joinUrl : jsstring) :
  forallb isMeetingLookup (lookupRequest joinUrl) = true.
Proof. unfold lookupRequest. destruct (lookupUrl joinUrl); reflexivity. Qed.

Lemma resolveOnlineMeeting_lookups (accessToken joinUrl : jsstring) (s : service) :
  forallb isMeetingLookup
    (requests (emitted (resolveOnlineMeeting accessToken joinUrl s))) = true.
Proof.
  destruct (resolveOnlineMeeting_run accessToken joinUrl s) as (-> & _).
  rewrite forallb_app, lookupRequest_lookups. unfold retry.
  destruct (outcome (tryResolveByJoinUrl accessToken joinUrl s)) as [[?|]|?];
    try reflexivity.
  destruct (decodeURIComponent joinUrl) as [d|]; try reflexivity.
  destruct (streq d joinUrl); [reflexivity|apply lookupRequest_lookups].
Qed.

Lemma joinUrls_cons (e : CalendarEvent.t) (rest : list CalendarEvent.t) :
  joinUrls (e :: rest)
  = match joinUrlOf e with Some u => u :: joinUrls rest | None => joinUrls rest end.
Proof. unfold joinUrls. cbn [flat_map]. destruct (joinUrlOf e); reflexivity. Qed.

(** The loop of findMeetingsByName enters the resolver for the events in
    order, once each, until one resolution throws; it sends lookups only. *)
Lemma resolveAll_run (accessToken : jsstring) (events : list CalendarEvent.t) :
  forall (resolved : list OnlineMeeting.t) (s : service),
    let run := resolveAll accessToken events resolved s in
    (exists k, resolverCalls (emitted run) = firstn k (joinUrls events))
    /\ (forall ms, outcome run = Returned ms ->
          resolverCalls (emitted run) = joinUrls events)
    /\ forallb isMeetingLookup (requests (emitted run)) = true.
Proof.
  induction events as [|e rest IH]; intros resolved s run; subst run.
  - cbn. split; [now exists O|]. split; reflexivity.
  - cbn [resolveAll]. rewrite joinUrls_cons.
    destruct (joinUrlOf e) as [u|] eqn:Hu.
    + pose proof (@resolveCalendarEvent_run accessToken u e s Hu) as H.
      cbv zeta in H. destruct H as (Hr & Hc & Ha & Ho).
      pose proof (resolveOnlineMeeting_lookups accessToken u s) as Hl.
      rewrite <- Hr in Hl.
      unfold bind.
      destruct (outcome (resolveOnlineMeeting accessToken u s)) as [[m|]|ex];
        destruct Ho as [Ho Hf]; rewrite Ho; cbn [outcome after emitted].
      * destruct (IH (resolved ++ [OnlineMeeting.setSubject (preferredSubject e m) m])
                    (after (resolveCalendarEvent accessToken e s)))
          as ((k & Hk) & Hall & Hlk).
        read_trace. rewrite Hc.
        split; [exists (S k); cbn [app firstn]; f_equal; exact Hk|].
        split; [intros ms Hms; cbn [app]; f_equal; exact (Hall _ Hms)|].
        rewrite forallb_app, Hl. exact Hlk.
      * destruct (IH resolved (after (resolveCalendarEvent accessToken e s)))
          as ((k & Hk) & Hall & Hlk).
        read_trace. rewrite Hc.
        split; [exists (S k); cbn [app firstn]; f_equal; exact Hk|].
        split; [intros ms Hms; cbn [app]; f_equal; exact (Hall _ Hms)|].
        rewrite forallb_app, Hl. exact Hlk.
      * rewrite Hc. split; [exists 1%nat; reflexivity|].
        split; [intros ms Hms; discriminate|exact Hl].
    + unfold bind. rewrite (resolveCalendarEvent_without_url accessToken e s Hu).
      cbn [ret outcome after emitted app].
      destruct (IH resolved s) as (Hk & Hall & Hlk).
      destruct (resolveAll accessToken rest resolved s) as [o s' evs].
      cbn [outcome after emitted] in *. auto.
Qed.

Lemma lookups_no_download (rs : list Request) :
  forallb isMeetingLookup rs = true -> filter isContentDownload rs = [].
Proof.
  induction rs as [|r rs IH]; [reflexivity|]. cbn [forallb filter].
  intros H. apply andb_true_iff in H as [Hr Hrs].
  destruct r; try discriminate. cbn [isContentDownload]. exact (IH Hrs).
Qed.

Lemma nameMatch_joinUrls (needle : jsstring) (events : list CalendarEvent.t) :
  List.length (joinUrls (filter (nameMatch needle) events))
  = List.length (filter (nameMatch needle) events).
Proof.
  induction events as [|e rest IH]; [reflexivity|]. cbn [filter].
  destruct (nameMatch needle e) eqn:E; [|exact IH].
  rewrite joinUrls_cons. unfold nameMatch in E.
  apply andb_true_iff in E as [_ E]. unfold hasJoinUrl in E.
  destruct (joinUrlOf e); [|discriminate]. cbn [List.length]. now rewrite IH.
Qed.

(** findMeetingsByName from the loop over the events that pass its
    filter. *)
Lemma findMeetingsByName_run (accessToken meetingName : jsstring) (meetingDate : option jsstring) (s : service) :
  let run := findMeetingsByName accessToken meetingName meetingDate s in
  let matches := nameMatches accessToken meetingName meetingDate s in
  (exists k, resolverCalls (emitted run) = firstn k (joinUrls matches))
  /\ (forall ms, outcome run = Returned ms ->
        resolverCalls (emitted run) = joinUrls matches
        /\ List.length (resolverCalls (emitted run)) = List.length matches)
  /\ (matches = [] ->
        outcome run = Returned []
        /\ resolverCalls (emitted run) = []
        /\ List.length (requests (emitted run)) = 1%nat)
  /\ filter isContentDownload (requests (emitted run)) = [].
Proof.
  intros run matches. subst run matches.
  unfold findMeetingsByName, nameMatches, candidates.
  set (range := rangeAt meetingDate s).
  pose proof (fetchCalendarEvents_run accessToken (fst range) (snd range) (ofZ 100) s) as H.
  cbv zeta in H. destruct H as (events & Ho & Ha & Hr & Hc & Hf & _).
  unfold bind, log, emit. rewrite buildDateRange_run. fold range.
  cbn [ret outcome after emitted app]. rewrite Ho. cbn [outcome after emitted].
  set (s1 := after (fetchCalendarEvents accessToken (fst range) (snd range) (ofZ 100) s)).
  pose proof (nameMatch_joinUrls (toLowerCase meetingName) events) as Hlen.
  destruct (filter (nameMatch (toLowerCase meetingName)) events) as [|e rest] eqn:Hm.
  - cbn [ret outcome after emitted app]. read_trace. rewrite Hr, Hc.
    split; [exists O; reflexivity|]. split; [intros ms _; split; reflexivity|].
    split; [intros _; repeat split|reflexivity].
  - destruct (resolveAll_run accessToken (e :: rest) [] s1) as ((k & Hk) & Hall & Hlk).
    destruct (outcome (resolveAll accessToken (e :: rest) [] s1)) as [ms|ex] eqn:Hres;
      cbn [ret outcome after emitted app]; read_trace; rewrite Hr, Hc, ?app_nil_r.
    + split; [exists k; exact Hk|].
      split; [intros ms0 _; rewrite (Hall ms eq_refl); split; [reflexivity|exact Hlen]|].
      split; [intros E; discriminate|].
      cbn [filter isContentDownload app]. apply lookups_no_download, Hlk.
    + split; [exists k; exact Hk|].
      split; [intros ms0 E; discriminate|].
      split; [intros E; discriminate|].
      cbn [filter isContentDownload app]. apply lookups_no_download, Hlk.
Qed.

(** The loop of listMeetings: what it returns extends what was resolved
    before by the meetings it added; each entry into the resolver either
    adds a meeting, or is reported as failed, or throws; and the loop was
    not stopped before the last of the entries that added a meeting or
    threw. *)
Lemma resolveUpTo_run (accessToken : jsstring) (limit : number) (events : list CalendarEvent.t) :
  forall (resolved : list OnlineMeeting.t) (s : service),
    let run := resolveUpTo accessToken limit events resolved s in
    let n := List.length resolved in
    let calls := List.length (resolverCalls (emitted run)) in
    (exists added,
       calls = (added + thrown (outcome run) + failedResolutions (emitted run))%nat
       /\ ((added + thrown (outcome run))%nat = O
           \/ isBelowLimit limit (n + (added + thrown (outcome run))) = true)
       /\ forall ms, outcome run = Returned ms ->
            exists more, ms = resolved ++ more /\ List.length more = added)
    /\ forallb isMeetingLookup (requests (emitted run)) = true.
Proof.
  induction events as [|e rest IH]; intros resolved s run n calls; subst run n calls.
  - cbn. split; [|reflexivity]. exists O. split; [reflexivity|]. split; [now left|].
    intros ms H. injection H as <-. exists []. now rewrite app_nil_r.
  - cbn [resolveUpTo].
    destruct (geq (lengthValue (List.length resolved)) (valueOf limit)) eqn:Hg.
    + cbn. split; [|reflexivity]. exists O. split; [reflexivity|]. split; [now left|].
      intros ms H. injection H as <-. exists []. now rewrite app_nil_r.
    + assert (Hnext : isBelowLimit limit (S (List.length resolved)) = true).
      { cbn [isBelowLimit]. now rewrite Hg. }
      destruct (joinUrlOf e) as [u|] eqn:Hu.
      * pose proof (@resolveCalendarEvent_run accessToken u e s Hu) as H.
        cbv zeta in H. destruct H as (Hr & Hc & Ha & Ho).
        pose proof (resolveOnlineMeeting_lookups accessToken u s) as Hl.
        rewrite <- Hr in Hl.
        unfold bind.
        destruct (outcome (resolveOnlineMeeting accessToken u s)) as [[m|]|ex];
          destruct Ho as [Ho Hf]; rewrite Ho; cbn [outcome after emitted].
        -- destruct (IH (resolved ++ [OnlineMeeting.setSubject (preferredSubject e m) m])
                       (after (resolveCalendarEvent accessToken e s)))
             as ((added & Hcalls & Hbelow & Hret) & Hlk).
           rewrite length_app in Hbelow. cbn [List.length] in Hbelow.
           read_trace. rewrite Hc, Hf, forallb_app, Hl, length_app. cbn [List.length].
           split; [|exact Hlk]. exists (S added).
           split; [rewrite Hcalls; reflexivity|]. split.
           ++ right. destruct Hbelow as [Hz|Hb].
              ** cbn [plus]. rewrite Hz, Nat.add_1_r. exact Hnext.
              ** rewrite <- Hb. f_equal. cbn [plus].
                 rewrite Nat.add_1_r. cbn [plus]. now rewrite Nat.add_succ_r.
           ++ intros ms Hms. destruct (Hret ms Hms) as (more & -> & Hmore).
              exists (OnlineMeeting.setSubject (preferredSubject e m) m :: more).
              rewrite <- app_assoc. cbn [app List.length]. rewrite Hmore.
              split; reflexivity.
        -- destruct (IH resolved (after (resolveCalendarEvent accessToken e s)))
             as ((added & Hcalls & Hbelow & Hret) & Hlk).
           read_trace. rewrite Hc, Hf, forallb_app, Hl, length_app. cbn [List.length].
           split; [|exact Hlk]. exists added.
           split; [rewrite Hcalls; cbn [plus]; now rewrite !Nat.add_succ_r|].
           split; [exact Hbelow|exact Hret].
        -- rewrite Hc, Hf. cbn [List.length thrown].
           split; [|exact Hl]. exists O. split; [reflexivity|].
           split; [|intros ms Hms; discriminate].
           right. cbn [plus]. rewrite Nat.add_1_r. exact Hnext.
      * unfold bind. rewrite (resolveCalendarEvent_without_url accessToken e s Hu).
        cbn [ret outcome after emitted app].
        destruct (IH resolved s) as (Hret & Hlk).
        destruct (resolveUpTo accessToken limit rest resolved s) as [o s' evs].
        cbn [outcome after emitted] in *. auto.
Qed.

(** listMeetings: the calendarView request asks for Math.min(Math.min(3
    limit, 100), 100) events; the number of meetings returned is below
    the limit; the entries into the resolver are the attempts that added a
    meeting or threw, which are below the limit too, and the failed
    resolutions. *)
Lemma listMeetings_run (accessToken : jsstring) (top : option number) (filterDate : option jsstring) (s : service) :
  let limit := limitOf top in
  let run := listMeetings accessToken top filterDate s in
  let calls := List.length (resolverCalls (emitted run)) in
  (forall ms, outcome run = Returned ms ->
     isBelowLimit limit (List.length ms) = true
     /\ calls = (List.length ms + failedResolutions (emitted run))%nat)
  /\ (exists attempts,
        calls = (attempts + failedResolutions (emitted run))%nat
        /\ isBelowLimit limit attempts = true)
  /\ exists lookups,
       requests (emitted run)
       = CalendarViewRequest (fst (rangeAt filterDate s)) (snd (rangeAt filterDate s))
           (Math.min (Math.min (mul limit (ofZ 3)) (ofZ 100)) (ofZ 100)) :: lookups
       /\ forallb isMeetingLookup lookups = true.
Proof.
  intros limit run calls. subst run calls. unfold listMeetings. fold (limitOf top). fold limit.
  set (range := rangeAt filterDate s).
  pose proof (fetchCalendarEvents_run accessToken (fst range) (snd range)
                (Math.min (mul limit (ofZ 3)) (ofZ 100)) s) as H.
  cbv zeta in H. destruct H as (events & Ho & Ha & Hr & Hc & Hf & _).
  unfold bind, log, emit. rewrite buildDateRange_run. fold range.
  cbn [ret outcome after emitted app]. rewrite Ho. cbn [outcome after emitted].
  set (s1 := after (fetchCalendarEvents accessToken (fst range) (snd range)
                      (Math.min (mul limit (ofZ 3)) (ofZ 100)) s)).
  pose proof (resolveUpTo_run accessToken limit (filter hasJoinUrl events) [] s1) as H.
  cbv zeta in H. cbn [List.length plus] in H.
  destruct H as ((added & Hcalls & Hbelow & Hret) & Hlk).
  assert (Hb : isBelowLimit limit
                 (added + thrown (outcome (resolveUpTo accessToken limit
                                             (filter hasJoinUrl events) [] s1))) = true).
  { destruct Hbelow as [-> | Hb]; [reflexivity|exact Hb]. }
  destruct (outcome (resolveUpTo accessToken limit (filter hasJoinUrl events) [] s1))
    as [ms|ex]; cbn [ret outcome after emitted app thrown] in *;
    read_trace; rewrite Hr, Hc, Hf, ?app_nil_r, ?Nat.add_0_r; cbn [app plus].
  - destruct (Hret ms eq_refl) as (more & Hms & Hmore). cbn [app] in Hms. subst more.
    rewrite Nat.add_0_r in Hb, Hcalls.
    split; [|split; [|eexists; split; [reflexivity|exact Hlk]]].
    + intros ms0 E. injection E as <-. rewrite Hmore. split; [exact Hb|exact Hcalls].
    + exists added. split; [exact Hcalls|exact Hb].
  - split; [intros ms E; discriminate|].
    split; [|eexists; split; [reflexivity|exact Hlk]].
    exists (added + 1)%nat. split; [exact Hcalls|exact Hb].
Qed.

(** X1.  findMeetingsByName, when it returns, has entered the resolver
    exactly once for each candidate event that passed the filter, in order,
    and in any case for no other event; with no such event it returns the
    empty list after the calendarView request alone. *)
Theorem findMeetingsByName_resolves_matches_only (accessToken meetingName : jsstring) (meetingDate : option jsstring) (s : service) :
  let run := findMeetingsByName accessToken meetingName meetingDate s in
  let matches := nameMatches accessToken meetingName meetingDate s in
  (exists k, resolverCalls (emitted run) = firstn k (joinUrls matches))
  /\ (forall ms, outcome run = Returned ms ->
        resolverCalls (emitted run) = joinUrls matches
        /\ List.length (resolverCalls (emitted run)) = List.length matches)
  /\ (matches = [] ->
        outcome run = Returned []
        /\ resolverCalls (emitted run) = []
        /\ List.length (requests (emitted run)) = 1%nat).
Proof.
  intros run matches.
  pose proof (findMeetingsByName_run accessToken meetingName meetingDate s) as H.
  cbv zeta in H. destruct H as (H1 & H2 & H3 & _).
  split; [exact H1|]. split; [exact H2|exact H3].
Qed.

(** C9, as amended.  When the join URL of a calendar event resolves to a
    meeting, resolveCalendarEvent returns that meeting with its subject
    replaced by the subject of the calendar event when that is a non-empty
    string, and with its own subject otherwise; identifier, start, end and
    join URL are those of the resolved meeting. *)
Theorem resolveCalendarEvent_prefers_calendar_subject (accessToken joinUrl : jsstring) (event : CalendarEvent.t) (m : OnlineMeeting.t) (s : service) :
  joinUrlOf event = Some joinUrl ->
  outcome (resolveOnlineMeeting accessToken joinUrl s) = Returned (Some m) ->
  exists m',
    outcome (resolveCalendarEvent accessToken event s) = Returned (Some m')
    /\ OnlineMeeting.subject m'
       = match CalendarEvent.subject event with
         | Some (c :: r) => c :: r
         | _ => OnlineMeeting.subject m
         end
    /\ OnlineMeeting.id m' = OnlineMeeting.id m
    /\ OnlineMeeting.startDateTime m' = OnlineMeeting.startDateTime m
    /\ OnlineMeeting.endDateTime m' = OnlineMeeting.endDateTime m
    /\ OnlineMeeting.joinWebUrl m' = OnlineMeeting.joinWebUrl m.
Proof.
  intros Hurl Hm.
  pose proof (@resolveCalendarEvent_run accessToken joinUrl event s Hurl) as H.
  cbv zeta in H. destruct H as (_ & _ & _ & Ho). rewrite Hm in Ho.
  destruct Ho as [Ho _].
  exists (OnlineMeeting.setSubject (preferredSubject event m) m).
  split; [exact Ho|]. unfold preferredSubject, OnlineMeeting.setSubject.
  cbn [OnlineMeeting.subject OnlineMeeting.id OnlineMeeting.startDateTime
       OnlineMeeting.endDateTime OnlineMeeting.joinWebUrl].
  repeat split. destruct (CalendarEvent.subject event) as [[|c r]|]; reflexivity.
Qed.

(** X2.  Where the fail-soft policy holds: fetchCalendarEvents returns in
    every case, and with no event when the request failed. *)
Theorem fetchCalendarEvents_never_throws (accessToken startDT endDT : jsstring) (maxEvents : number) (s : service) :
  exists events,
    outcome (fetchCalendarEvents accessToken startDT endDT maxEvents s) = Returned events
    /\ ((forall json t,
           fst (respond (CalendarViewRequest startDT endDT (Math.min maxEvents (ofZ 100))) accessToken s)
           <> Ok (JsonObject json) t) ->
        events = []).
Proof.
  pose proof (fetchCalendarEvents_run accessToken startDT endDT maxEvents s) as H.
  cbv zeta in H. destruct H as (events & Ho & _ & _ & _ & _ & Hn).
  exists events. split; assumption.
Qed.

(** X3.  resolveOnlineMeeting returns, with a meeting or with null,
    whenever encodeURIComponent and decodeURIComponent accept what it gives
    them. *)
Theorem resolveOnlineMeeting_returns_on_wellformed (accessToken joinUrl decoded : jsstring) (s : service) :
  lookupUrl joinUrl <> None ->
  decodeURIComponent joinUrl = Some decoded ->
  lookupUrl decoded <> None ->
  exists result, outcome (resolveOnlineMeeting accessToken joinUrl s) = Returned result.
Proof.
  intros H1 Hd H2. rewrite resolveOnlineMeeting_outcome. cbv zeta.
  destruct (tryResolveByJoinUrl_run accessToken joinUrl s) as (_ & _ & _ & Ho).
  destruct (lookupUrl joinUrl); [|congruence]. destruct Ho as [r1 Ho]. rewrite Ho.
  destruct r1 as [m|]; [eexists; reflexivity|]. rewrite Hd.
  destruct (streq decoded joinUrl); [eexists; reflexivity|].
  destruct (tryResolveByJoinUrl_run accessToken decoded
              (after (tryResolveByJoinUrl accessToken joinUrl s))) as (_ & _ & _ & Ho2).
  destruct (lookupUrl decoded); [|congruence]. exact Ho2.
Qed.

(** resolveOnlineMeeting throws when the exact lookup finds no meeting and
    the join URL is not a well-formed escape sequence. *)
Lemma resolveOnlineMeeting_throws_on_malformed (accessToken joinUrl : jsstring) (s : service) :
  outcome (tryResolveByJoinUrl accessToken joinUrl s) = Returned None ->
  decodeURIComponent joinUrl = None ->
  outcome (resolveOnlineMeeting accessToken joinUrl s) = Thrown URIError.
Proof.
  intros Ho Hd. rewrite resolveOnlineMeeting_outcome. cbv zeta.
  rewrite Ho, Hd. reflexivity.
Qed.

End Client.

(** *** Runs against the scripted services *)

(** The decoded fallback at work: the service knows the meeting under the
    decoded join URL only. *)
Lemma resolveOnlineMeeting_fallback_witness :
  outcome (@resolveOnlineMeeting decodedOnlyService token encodedLink tt)
    = Returned (Some designReview)
  /\ requests (emitted (@resolveOnlineMeeting decodedOnlyService token encodedLink tt))
     = lookupRequest encodedLink ++ lookupRequest decodedLink.
Proof.
  apply (@resolveOnlineMeeting_exact_then_decoded decodedOnlyService token encodedLink tt);
    [vm_compute; reflexivity|vm_compute; reflexivity|vm_compute; discriminate
    |vm_compute; reflexivity].
Defined.

(** The subject of the calendar event replaces that of the service. *)
Lemma resolveCalendarEvent_subject_witness :
  exists m',
    outcome (@resolveCalendarEvent untitledService token weeklyEvent tt) = Returned (Some m')
    /\ OnlineMeeting.subject m' = js "Weekly sync"
    /\ OnlineMeeting.id m' = OnlineMeeting.id standup
    /\ OnlineMeeting.startDateTime m' = OnlineMeeting.startDateTime standup
    /\ OnlineMeeting.endDateTime m' = OnlineMeeting.endDateTime standup
    /\ OnlineMeeting.joinWebUrl m' = OnlineMeeting.joinWebUrl standup.
Proof.
  apply (@resolveCalendarEvent_prefers_calendar_subject untitledService token
           standupLink weeklyEvent standup tt); vm_compute; reflexivity.
Defined.

(** C9 as stated fails: for an event whose subject is the empty string the
    subject of the resolved meeting is kept. *)
Lemma resolveCalendarEvent_keeps_service_subject :
  exists m',
    outcome (@resolveCalendarEvent untitledService token untitledEvent tt) = Returned (Some m')
    /\ CalendarEvent.subject untitledEvent = Some []
    /\ OnlineMeeting.subject m' = js "Standup"
    /\ Some (OnlineMeeting.subject m') <> CalendarEvent.subject untitledEvent.
Proof.
  exists standup. vm_compute. repeat split. discriminate.
Qed.

(** A join URL with a well-formed escape. *)
Lemma resolveOnlineMeeting_wellformed_witness :
  exists result,
    outcome (@resolveOnlineMeeting decodedOnlyService token encodedLink tt) = Returned result.
Proof.
  apply (@resolveOnlineMeeting_returns_on_wellformed decodedOnlyService token
           encodedLink decodedLink tt);
    [vm_compute; discriminate|vm_compute; reflexivity|vm_compute; discriminate].
Defined.

(** C6.  The calendar fetch is fail-soft, the resolver is not: with a join
    URL that ends in a percent sign and a service that knows no meeting for
    it, the exact lookup returns null, decodeURIComponent throws, and
    resolveOnlineMeeting throws URIError. *)
Theorem resolveOnlineMeeting_throws_URIError :
  outcome (@fetchCalendarEvents unreachable token (js "2026-02-17T00:00:00Z")
             (js "2026-02-17T23:59:59Z") (ofZ 100) tt) = Returned []
  /\ outcome (@tryResolveByJoinUrl brokenLinkService token brokenLink tt) = Returned None
  /\ decodeURIComponent brokenLink = None
  /\ outcome (@resolveOnlineMeeting brokenLinkService token brokenLink tt) = Thrown URIError.
Proof. vm_compute. repeat split. Qed.

(** C1.  Of three candidate events two pass the filter of
    findMeetingsByName; the resolution of the first throws, so the resolver
    is entered once, not twice, and findMeetingsByName throws. *)
Theorem findMeetingsByName_stops_at_malformed_join_url :
  List.length (@candidates brokenLinkService token None tt) = 3%nat
  /\ List.length (@nameMatches brokenLinkService token (js "sync") None tt) = 2%nat
  /\ outcome (@findMeetingsByName brokenLinkService token (js "sync") None tt)
     = Thrown URIError
  /\ resolverCalls (emitted (@findMeetingsByName brokenLinkService token (js "sync") None tt))
     = [brokenLink].
Proof. vm_compute. repeat split. Qed.

(** C8 as stated fails: listMeetings does not clamp its limit to 50. *)
Lemma listMeetings_returns_51 :
  exists ms,
    outcome (@listMeetings busyService token (Some (ofZ 51)) None tt) = Returned ms
    /\ List.length ms = 51%nat
    /\ (Z.of_nat (List.length ms) > Z.min 51 50)%Z.
Proof.
  exists (repeat weeklySync 51). vm_compute. repeat split.
Qed.

(** A limit of 2.5 lets a third meeting through: the loop of listMeetings
    stops at the first count that is not below the limit, and
    [Math.min(2.5, 50)] is 2.5. *)
Lemma listMeetings_fractional_limit :
  isDouble twoAndAHalf = true
  /\ ceiling twoAndAHalf = Some 3%Z
  /\ Math.min twoAndAHalf (ofZ 50) = twoAndAHalf
  /\ exists ms,
       outcome (@listMeetings busyService token (Some twoAndAHalf) None tt) = Returned ms
       /\ List.length ms = 3%nat.
Proof.
  split; [reflexivity|]. split; [reflexivity|]. split; [reflexivity|].
  exists (repeat weeklySync 3). vm_compute. repeat split.
Qed.

End GraphFacts.

(* ================================================================== *)
(** ** Properties of the tool handlers *)

Module ServerFacts.

Import JsString VttParser Uri JsNumber Graph Server Scenario StringFacts NumberFacts GraphFacts.





Section Handlers.

Context {G : GraphService}.



(** C8, as amended.  listMeetings resolves another event only while
    [resolved.length >= limit] is false, [limit] being its [top] option or
    10: the number of meetings it returns is zero or one more than a count
    for which that test failed.  So it returns none when [0 >= limit], at
    most the ceiling of [limit] when [limit] is finite (at most [limit]
    for a whole number below 2^53, 3 for 2.5); a limit that is not a number
    or is plus infinity bounds nothing, every count being below it.  It
    asks calendarView for Math.min(Math.min(3 limit, 100), 100) events and
    clamps nothing else; it enters the resolver once per meeting returned
    and once per failed resolution, and in every run at most the ceiling
    of a finite limit times plus the failed resolutions, whatever the
    number of candidates.  The clamp to 50 is that of
    handleListRecentMeetings alone, which calls listMeetings with
    Math.min(limit, 50) and so gets at most 50 meetings unless its limit is
    not a number. *)
Theorem listMeetings_bounded_by_limit (graphToken : jsstring) (top : option number) (filterDate : option jsstring) (args : ListArgs) (s : service) :
  let limit := limitOf top in
  let run := listMeetings graphToken top filterDate s in
  let calls := List.length (resolverCalls (emitted run)) in
  let requested := limitOf (Server.limit args) in
  let viaHandler := listMeetings graphToken (Some (Math.min requested (ofZ 50))) (date args) s in
  (forall ms, outcome run = Returned ms ->
     isBelowLimit limit (List.length ms) = true
     /\ (forall c, ceiling limit = Some c -> (List.length ms <= Z.to_nat c)%nat)
     /\ (forall n, (0 <= n < 2 ^ 53)%Z -> limit = ofZ n ->
           (List.length ms <= Z.to_nat n)%nat)
     /\ (geq (lengthValue 0) (valueOf limit) = true -> ms = [])
     /\ calls = (List.length ms + failedResolutions (emitted run))%nat)
  /\ (forall c, ceiling limit = Some c ->
        (calls <= Z.to_nat c + failedResolutions (emitted run))%nat)
  /\ (exists lookups,
        requests (emitted run)
        = CalendarViewRequest (fst (rangeAt filterDate s)) (snd (rangeAt filterDate s))
            (Math.min (Math.min (mul limit (ofZ 3)) (ofZ 100)) (ofZ 100)) :: lookups
        /\ forallb isMeetingLookup lookups = true)
  /\ handleListRecentMeetings graphToken args
     = bind (listMeetings graphToken (Some (Math.min requested (ofZ 50))) (date args))
            (recentMeetingsReply graphToken (date args))
  /\ (forall ms, outcome viaHandler = Returned ms ->
        (forall c, ceiling (Math.min requested (ofZ 50)) = Some c ->
           (List.length ms <= Z.to_nat c)%nat)
        /\ (isNaN requested = false -> (List.length ms <= 50)%nat))
  /\ ceiling (limitOf None) = Some 10%Z
  /\ (valueOf limit = NotANumber \/ valueOf limit = PlusInfinity ->
      forall count, isBelowLimit limit count = true).
Proof.
  intros limit run calls requested viaHandler.
  pose proof (listMeetings_run graphToken top filterDate s) as H.
  cbv zeta in H. destruct H as (H1 & (attempts & Hcalls & Hatt) & H3).
  split; [|split; [|split; [exact H3|split; [reflexivity|split; [|split; [reflexivity|]]]]]].
  - intros ms Hms. destruct (H1 ms Hms) as [Hb Hc].
    split; [exact Hb|]. split; [|split; [|split; [|exact Hc]]].
    + intros c Hceil. exact (@isBelowLimit_ceiling limit _ c Hb Hceil).
    + intros n Hn E. apply (@isBelowLimit_ceiling limit _ n Hb).
      fold limit in E. rewrite E. apply ceiling_ofZ, Hn.
    + intros H0. apply length_zero_iff_nil.
      exact (@isBelowLimit_nonpositive limit _ H0 Hb).
  - intros c Hceil. unfold calls, run. rewrite Hcalls.
    apply Nat.add_le_mono_r. exact (@isBelowLimit_ceiling limit _ c Hatt Hceil).
  - intros ms Hms.
    pose proof (listMeetings_run graphToken (Some (Math.min requested (ofZ 50))) (date args) s) as H.
    cbv zeta in H. destruct H as (H4 & _). destruct (H4 ms Hms) as [Hb _].
    cbn [limitOf] in Hb. split.
    + intros c Hceil. exact (@isBelowLimit_ceiling _ _ c Hb Hceil).
    + intros Hn. exact (@isBelowLimit_min_50 requested _ Hn Hb).
  - intros Hv count. exact (@isBelowLimit_unbounded limit count Hv).
Qed.

End Handlers.


End ServerFacts.

(* ================================================================== *)
(** ** Substrings *)

Module IncludesFacts.

Import JsString.
Open Scope N_scope.

Lemma startsWith_prefix (n h : jsstring) :
  startsWith n h = true <-> exists b, h = n ++ b.
Proof.
  revert h. induction n as [|c n IH]; intros h.
  - split; [intros _; now exists h|reflexivity].
  - destruct h as [|x h]; cbn [startsWith].
    + split; [discriminate|]. intros [b E]. discriminate.
    + split.
      * intros H. apply andb_true_iff in H as [Hx Hr]. apply N.eqb_eq in Hx.
        apply IH in Hr as [b ->]. exists b. now subst.
      * intros [b E]. injection E as -> ->. rewrite N.eqb_refl.
        apply IH. now exists b.
Qed.

Lemma includes_infix (h n : jsstring) :
  includes h n = true <-> exists a b, h = a ++ n ++ b.
Proof.
  induction h as [|x h IH].
  - cbn [includes]. rewrite orb_false_r. split.
    + intros H. apply startsWith_prefix in H as [b E]. now exists [], b.
    + intros (a & b & E). apply startsWith_prefix.
      destruct a; [now exists b|discriminate].
  - cbn [includes]. split.
    + intros H. apply orb_true_iff in H as [H|H].
      * apply startsWith_prefix in H as [b E]. now exists [], b.
      * apply IH in H as (a & b & ->). now exists (x :: a), b.
    + intros (a & b & E). apply orb_true_iff. destruct a as [|y a].
      * left. apply startsWith_prefix. now exists b.
      * right. injection E as -> ->. apply IH. now exists a, b.
Qed.

Lemma includes_self (n : jsstring) : includes n n = true.
Proof. apply includes_infix. exists [], []. now rewrite app_nil_r. Qed.

Lemma includes_more (h n pre post : jsstring) :
  includes h n = true -> includes (pre ++ h ++ post) n = true.
Proof.
  intros H. apply includes_infix in H as (a & b & ->). apply includes_infix.
  exists (pre ++ a), (b ++ post). now rewrite <- !app_assoc.
Qed.

Lemma includes_left (h n post : jsstring) :
  includes h n = true -> includes (h ++ post) n = true.
Proof. intros H. exact (@includes_more h n [] post H). Qed.

Lemma includes_right (h n pre : jsstring) :
  includes h n = true -> includes (pre ++ h) n = true.
Proof.
  intros H. pose proof (@includes_more h n pre [] H) as E. now rewrite app_nil_r in E.
Qed.

Lemma includes_join (ps : list jsstring) (p n sep : jsstring) :
  In p ps -> includes p n = true -> includes (join sep ps) n = true.
Proof.
  intros Hin Hn. induction ps as [|q ps IH]; [destruct Hin|].
  destruct ps as [|q2 ps].
  - destruct Hin as [->|[]]. exact Hn.
  - change (join sep (q :: q2 :: ps)) with (q ++ sep ++ join sep (q2 :: ps)).
    destruct Hin as [->|Hin]; [now apply includes_left|].
    apply includes_right, includes_right, IH, Hin.
Qed.

End IncludesFacts.

(* ================================================================== *)
(** ** Properties of the bearer token and of the saved file *)

Module AuthFacts.

Import JsString Auth StringFacts.
Open Scope N_scope.

Lemma split_nonempty (sep : N) (s : jsstring) : split sep s <> [].
Proof.
  induction s as [|c r IH]; [discriminate|]. cbn [split].
  destruct (c =? sep); [discriminate|]. destruct (split sep r); discriminate.
Qed.

(** No separator: one piece. *)
Lemma split_one (sep : N) (s p : jsstring) :
  split sep s = [p] <-> s = p /\ ~ In sep p.
Proof.
  revert p. induction s as [|c r IH]; intros p.
  - cbn. split.
    + intros H. injection H as <-. split; [reflexivity|intros []].
    + intros [<- _]. reflexivity.
  - cbn [split]. destruct (N.eqb_spec c sep) as [->|Hc].
    + split.
      * intros H. injection H as _ H. now apply split_nonempty in H.
      * intros [<- H]. exfalso. apply H. now left.
    + destruct (split sep r) as [|q qs] eqn:E; [now apply split_nonempty in E|].
      split.
      * intros H. injection H as <- ->.
        destruct (proj1 (IH q) eq_refl) as [-> Hq].
        split; [reflexivity|]. intros [H|H]; [congruence|contradiction].
      * intros [<- Hp].
        assert (Hr : r = r /\ ~ In sep r) by (split; [reflexivity|intros H; apply Hp; now right]).
        apply IH in Hr. injection Hr as -> ->. reflexivity.
Qed.

(** One separator: two pieces. *)
Lemma split_two (sep : N) (s a b : jsstring) :
  split sep s = [a; b] <-> s = a ++ sep :: b /\ ~ In sep a /\ ~ In sep b.
Proof.
  revert a. induction s as [|c r IH]; intros a.
  - cbn. split; [discriminate|]. intros [H _]. destruct a; discriminate.
  - cbn [split]. destruct (N.eqb_spec c sep) as [->|Hc].
    + split.
      * intros H. injection H as <- H. apply split_one in H as [-> Hb].
        split; [reflexivity|]. split; [intros []|exact Hb].
      * intros (H & Ha & Hb). destruct a as [|x a].
        -- cbn in H. injection H as ->.
           assert (E : split sep b = [b]) by (apply split_one; split; [reflexivity|exact Hb]).
           now rewrite E.
        -- cbn in H. injection H as <- _. exfalso. apply Ha. now left.
    + destruct (split sep r) as [|q qs] eqn:E; [now apply split_nonempty in E|].
      split.
      * intros H. injection H as <- ->.
        destruct (proj1 (IH q) eq_refl) as (-> & Hq & Hb).
        split; [reflexivity|]. split; [|exact Hb].
        intros [H|H]; [congruence|contradiction].
      * intros (H & Ha & Hb). destruct a as [|x a].
        -- cbn in H. injection H as H _. congruence.
        -- cbn in H. injection H as <- ->.
           assert (Hr : q :: qs = [a; b]).
           { apply IH. split; [reflexivity|]. split; [|exact Hb].
             intros H. apply Ha. now right. }
           injection Hr as -> ->. reflexivity.
Qed.

(** X4.  extractBearerToken returns a token exactly for a header made of a
    scheme that lower-cases to bearer, one space and the token, neither of
    which holds a space; it returns null for every other header and for a
    missing one. *)
Theorem extractBearerToken_exactly_scheme_space_token (toLowerCase : jsstring -> jsstring) (header token : jsstring) :
  (extractBearerToken toLowerCase (Some header) = Some token
   <-> exists scheme,
         header = scheme ++ 32 :: token
         /\ ~ In 32 scheme /\ ~ In 32 token
         /\ toLowerCase scheme = js "bearer")
  /\ extractBearerToken toLowerCase None = None.
Proof.
  split; [|reflexivity]. unfold extractBearerToken. split.
  - destruct (truthy header); cbn [negb]; [|discriminate].
    destruct (split 32 header) as [|scheme [|credentials [|x xs]]] eqn:E;
      try discriminate.
    destruct (streq (toLowerCase scheme) (js "bearer")) eqn:Hs; [|discriminate].
    intros H. injection H as ->. apply streq_eq in Hs.
    apply split_two in E as (-> & Ha & Hb). now exists scheme.
  - intros (scheme & -> & Ha & Hb & Hs).
    assert (E : split 32 (scheme ++ 32 :: token) = [scheme; token])
      by (apply split_two; auto).
    rewrite E. apply streq_eq in Hs. rewrite Hs.
    destruct scheme; reflexivity.
Qed.

End AuthFacts.

Module SaveTranscriptFacts.

Import JsString Graph SaveTranscript StringFacts.
Open Scope N_scope.









End SaveTranscriptFacts.

(* ================================================================== *)
(** ** More properties of the Graph client *)

Module UriFacts.

Import JsString Uri JsNumber Graph Scenario Trace StringFacts.
Open Scope N_scope.

Arguments lookupUrl : simpl never.

(** Without percent sign there is nothing to decode. *)
Lemma decodeURIComponent_plain (s : jsstring) :
  forallb (fun c => negb (c =? 37)) s = true -> decodeURIComponent s = Some s.
Proof.
  unfold decodeURIComponent. induction s as [|c r IH]; [reflexivity|].
  cbn [forallb]. intros H. apply andb_true_iff in H as [Hc Hr].
  apply negb_true_iff in Hc. cbn [decodeFrom]. rewrite Hc, (IH Hr). reflexivity.
Qed.

Lemma encodeFrom_total (s : jsstring) :
  forallb (fun c => negb (isSurrogate c)) s = true ->
  exists q, encodeFrom 0 s = Some q.
Proof.
  induction s as [|c r IH]; [now exists []|].
  cbn [forallb]. intros H. apply andb_true_iff in H as [Hc Hr].
  apply negb_true_iff in Hc. unfold isSurrogate in Hc.
  apply orb_false_iff in Hc as [Hh Hl].
  destruct (IH Hr) as [q Hq]. cbn [encodeFrom]. rewrite Hq, Hh, Hl.
  destruct (isUnescaped c); cbn [prepend]; now eexists.
Qed.

Lemma isSimpleUrl_parts (u : jsstring) :
  isSimpleUrl u = true ->
  forallb (fun c => negb (c =? 37)) u = true
  /\ forallb (fun c => negb (isSurrogate c)) u = true.
Proof.
  unfold isSimpleUrl. induction u as [|c r IH]; [split; reflexivity|].
  cbn [forallb]. intros H. apply andb_true_iff in H as [Hc Hr].
  apply andb_true_iff in Hc as [H1 H2]. destruct (IH Hr) as [-> ->].
  now rewrite H1, H2.
Qed.

Lemma lookupUrl_simple (u : jsstring) :
  isSimpleUrl u = true -> exists url, lookupUrl u = Some url.
Proof.
  intros H. apply isSimpleUrl_parts in H as [_ H]. unfold lookupUrl, encodeURIComponent.
  destruct (encodeFrom_total (js "JoinWebUrl eq '" ++ u ++ js "'")) as [q Hq].
  - rewrite !forallb_app, H. reflexivity.
  - rewrite Hq. now eexists.
Qed.

End UriFacts.

Module GraphRuns.

Import JsString Uri JsNumber Graph Server Scenario Trace StringFacts NumberFacts GraphFacts UriFacts.
Open Scope N_scope.

Arguments lookupUrl : simpl never.
Arguments lookupRequest : simpl never.

#[local] Hint Rewrite requests_app resolverCalls_app failedResolutions_app : trace.

Section Client.

Context {G : GraphService}.

(** graphGetSafe returns what a JSON reader gets from the reply. *)
Lemma graphGetSafe_object (r : Request) (accessToken : jsstring) (s : service) :
  let run := graphGetSafe r accessToken s in
  outcome run = Returned (objectOf (fst (respond r accessToken s)))
  /\ after run = snd (respond r accessToken s)
  /\ requests (emitted run) = [r].
Proof.
  unfold graphGetSafe, tryCatch, bind, graphGet, resJson, log, emit, ret, throw, objectOf.
  destruct (respond r accessToken s) as [[| st msg | [| | d] t] s']; cbn; auto.
Qed.

Lemma tryResolveByJoinUrl_found (accessToken joinUrl url : jsstring) (s : service) :
  lookupUrl joinUrl = Some url ->
  let run := tryResolveByJoinUrl accessToken joinUrl s in
  outcome run = Returned (lookedUp accessToken joinUrl s)
  /\ after run = snd (respond (MeetingLookup url) accessToken s)
  /\ requests (emitted run) = [MeetingLookup url].
Proof.
  intros Hu run. subst run. unfold tryResolveByJoinUrl, lookedUp. rewrite Hu.
  destruct (graphGetSafe_object (MeetingLookup url) accessToken s) as (Ho & Ha & Hr).
  unfold bind, ret. rewrite Ho. cbn [outcome after emitted].
  rewrite app_nil_r, Ha, Hr. auto.
Qed.

Lemma resolveOnlineMeeting_simple (accessToken joinUrl url : jsstring) (s : service) :
  isSimpleUrl joinUrl = true -> lookupUrl joinUrl = Some url ->
  let run := resolveOnlineMeeting accessToken joinUrl s in
  outcome run = Returned (lookedUp accessToken joinUrl s)
  /\ after run = snd (respond (MeetingLookup url) accessToken s)
  /\ requests (emitted run) = [MeetingLookup url].
Proof.
  intros Hs Hu run. subst run. unfold resolveOnlineMeeting.
  destruct (@tryResolveByJoinUrl_found accessToken joinUrl url s Hu) as (Ho & Ha & Hr).
  apply isSimpleUrl_parts in Hs as [Hp _].
  rewrite (decodeURIComponent_plain _ Hp).
  assert (E : streq joinUrl joinUrl = true) by now apply streq_eq.
  rewrite E. cbn [negb].
  unfold bind, log, emit, ret, throw. cbn [outcome after emitted]. rewrite Ho.
  destruct (lookedUp accessToken joinUrl s) as [m|]; cbn [outcome after emitted];
    read_trace; rewrite Ha, Hr, ?app_nil_r; auto.
Qed.

(** X6.  For a join URL without percent sign and without surrogate code
    unit resolveOnlineMeeting does not throw: it sends the one lookup for
    that URL and returns the first meeting of the answer, or null when the
    lookup fails or finds none; there is no second lookup. *)
Theorem resolveOnlineMeeting_single_lookup (accessToken joinUrl : jsstring) (s : service) :
  isSimpleUrl joinUrl = true ->
  let run := resolveOnlineMeeting accessToken joinUrl s in
  exists url,
    lookupUrl joinUrl = Some url
    /\ outcome run
       = Returned (firstOrNull (objectOf (fst (respond (MeetingLookup url) accessToken s))))
    /\ requests (emitted run) = [MeetingLookup url]
    /\ after run = snd (respond (MeetingLookup url) accessToken s).
Proof.
  intros Hs run. destruct (lookupUrl_simple _ Hs) as [url Hu]. exists url.
  destruct (@resolveOnlineMeeting_simple accessToken joinUrl url s Hs Hu) as (Ho & Ha & Hr).
  unfold lookedUp in Ho. rewrite Hu in Ho. auto.
Qed.

(** resolveCalendarEvent on an event whose join URL is simple. *)
Lemma resolveCalendarEvent_simple (accessToken joinUrl : jsstring) (event : CalendarEvent.t) (s : service) :
  joinUrlOf event = Some joinUrl -> isSimpleUrl joinUrl = true ->
  let run := resolveCalendarEvent accessToken event s in
  outcome run
    = Returned (option_map (fun m => OnlineMeeting.setSubject (preferredSubject event m) m)
                  (lookedUp accessToken joinUrl s))
  /\ List.length (requests (emitted run)) = 1%nat.
Proof.
  intros Hj Hs run. subst run.
  destruct (lookupUrl_simple _ Hs) as [url Hu].
  destruct (@resolveOnlineMeeting_simple accessToken joinUrl url s Hs Hu) as (Ho & _ & Hr).
  pose proof (@resolveCalendarEvent_run G accessToken joinUrl event s Hj) as H.
  cbv zeta in H. destruct H as (Hreq & _ & _ & Hout).
  rewrite Ho in Hout. rewrite Hreq, Hr. split; [|reflexivity].
  destruct (lookedUp accessToken joinUrl s) as [m|]; apply Hout.
Qed.

Lemma fetchCalendarEvents_events (accessToken : jsstring) (filterDate : option jsstring) (maxEvents : number) (s : service) :
  let range := rangeAt filterDate s in
  let request := CalendarViewRequest (fst range) (snd range) (Math.min maxEvents (ofZ 100)) in
  let run := fetchCalendarEvents accessToken (fst range) (snd range) maxEvents s in
  outcome run = Returned (calendarEvents accessToken filterDate maxEvents s)
  /\ after run = snd (respond request accessToken s)
  /\ requests (emitted run) = [request].
Proof.
  intros range request run. subst run. unfold fetchCalendarEvents, calendarEvents.
  fold range. fold request.
  destruct (graphGetSafe_object request accessToken s) as (Ho & Ha & Hr).
  unfold bind, log, emit, ret. cbn [outcome after emitted].
  rewrite Ho. cbn [outcome after emitted]. read_trace. rewrite Ha, Hr. auto.
Qed.

Lemma candidates_events (accessToken : jsstring) (meetingDate : option jsstring) (s : service) :
  candidates accessToken meetingDate s = calendarEvents accessToken meetingDate (ofZ 100) s.
Proof.
  unfold candidates.
  destruct (fetchCalendarEvents_events accessToken meetingDate (ofZ 100) s) as (-> & _).
  reflexivity.
Qed.

(** A meeting resolveCalendarEvent returns is one the service knows, with
    the preferred subject. *)
Lemma resolveCalendarEvent_result (accessToken : jsstring) (event : CalendarEvent.t) (s : service) (m' : OnlineMeeting.t) :
  outcome (resolveCalendarEvent accessToken event s) = Returned (Some m') ->
  exists m, m' = OnlineMeeting.setSubject (preferredSubject event m) m.
Proof.
  destruct (joinUrlOf event) as [u|] eqn:Hu.
  - pose proof (@resolveCalendarEvent_run G accessToken u event s Hu) as H.
    cbv zeta in H. destruct H as (_ & _ & _ & Ho).
    destruct (outcome (resolveOnlineMeeting accessToken u s)) as [[m|]|ex];
      destruct Ho as [-> _]; intros E; try discriminate.
    injection E as <-. now exists m.
  - rewrite (resolveCalendarEvent_without_url accessToken event s Hu). discriminate.
Qed.

(** What the loop of findMeetingsByName returns: what was resolved before
    and, for some of the events, a meeting of the service with the preferred
    subject. *)
Lemma resolveAll_results (accessToken : jsstring) (Q : CalendarEvent.t -> Prop) (P : OnlineMeeting.t -> Prop) :
  (forall e m, Q e -> P (OnlineMeeting.setSubject (preferredSubject e m) m)) ->
  forall (events : list CalendarEvent.t) (resolved : list OnlineMeeting.t) (s : service) (ms : list OnlineMeeting.t),
    Forall Q events ->
    outcome (resolveAll accessToken events resolved s) = Returned ms ->
    exists more,
      ms = resolved ++ more /\ Forall P more
      /\ (List.length more <= List.length events)%nat.
Proof.
  intros HQP. induction events as [|e rest IH]; intros resolved s ms HQ Hms.
  - cbn in Hms. injection Hms as <-. exists []. rewrite app_nil_r.
    split; [reflexivity|]. split; [constructor|cbn; lia].
  - inversion HQ as [|? ? He Hrest]; subst. cbn [resolveAll] in Hms. unfold bind in Hms.
    destruct (outcome (resolveCalendarEvent accessToken e s)) as [[m'|]|ex] eqn:Ho;
      cbn [outcome] in Hms; [| |discriminate].
    + destruct (resolveCalendarEvent_result _ _ _ Ho) as [m ->].
      destruct (IH _ _ _ Hrest Hms) as (more & -> & HP & Hlen).
      exists (OnlineMeeting.setSubject (preferredSubject e m) m :: more).
      rewrite <- app_assoc. split; [reflexivity|].
      split; [constructor; [now apply HQP|exact HP]|cbn; lia].
    + destruct (IH _ _ _ Hrest Hms) as (more & -> & HP & Hlen).
      exists more. split; [reflexivity|]. split; [exact HP|cbn; lia].
Qed.

Lemma includes_nil (h : jsstring) : includes h [] = true.
Proof. destruct h; reflexivity. Qed.

Lemma includes_nil_only (n : jsstring) : includes [] n = true -> n = [].
Proof. destruct n; [reflexivity|discriminate]. Qed.

(** The subject resolveCalendarEvent prefers for an event that passed the
    filter of findMeetingsByName matches the name. *)
Lemma preferredSubject_matches (needle : jsstring) (e : CalendarEvent.t) (m : OnlineMeeting.t) :
  toLowerCase [] = [] ->
  nameMatch needle e = true ->
  includes (toLowerCase (preferredSubject e m)) needle = true.
Proof.
  intros Hnil H. unfold nameMatch in H. apply andb_true_iff in H as [H _].
  unfold preferredSubject. destruct (CalendarEvent.subject e) as [[|c r]|];
    [|exact H|discriminate].
  cbn [truthy]. rewrite Hnil in H. apply includes_nil_only in H. subst needle.
  apply includes_nil.
Qed.

(** findMeetingsByName from the events of the calendar. *)
Lemma findMeetingsByName_loop (accessToken meetingName : jsstring) (meetingDate : option jsstring) (s : service) :
  let matches := nameMatches accessToken meetingName meetingDate s in
  let range := rangeAt meetingDate s in
  let request := CalendarViewRequest (fst range) (snd range) (Math.min (ofZ 100) (ofZ 100)) in
  let s1 := snd (respond request accessToken s) in
  let run := findMeetingsByName accessToken meetingName meetingDate s in
  outcome run = outcome (resolveAll accessToken matches [] s1)
  /\ requests (emitted run)
     = request :: requests (emitted (resolveAll accessToken matches [] s1)).
Proof.
  intros matches range request s1 run. subst run matches.
  unfold findMeetingsByName, nameMatches. rewrite candidates_events.
  destruct (fetchCalendarEvents_events accessToken meetingDate (ofZ 100) s) as (Ho & Ha & Hr).
  fold range in Ho, Ha, Hr. fold request in Ha, Hr. fold s1 in Ha.
  unfold bind, log, emit. rewrite buildDateRange_run. fold range.
  cbn [ret outcome after emitted app]. rewrite Ho. cbn [outcome after emitted].
  rewrite Ha.
  destruct (filter (nameMatch (toLowerCase meetingName))
              (calendarEvents accessToken meetingDate (ofZ 100) s)) as [|e rest].
  - cbn [ret outcome after emitted app resolveAll]. read_trace. rewrite Hr. auto.
  - destruct (outcome (resolveAll accessToken (e :: rest) [] s1)) as [ms|ex];
      cbn [ret outcome after emitted app]; read_trace; rewrite Hr, ?app_nil_r; auto.
Qed.

(** X7.  Every meeting findMeetingsByName returns has a subject that
    contains the search term, both in lower case; there are no more of them
    than calendar events that passed the filter. *)
Theorem findMeetingsByName_results_match_the_name (accessToken meetingName : jsstring) (meetingDate : option jsstring) (s : service) (ms : list OnlineMeeting.t) :
  toLowerCase [] = [] ->
  outcome (findMeetingsByName accessToken meetingName meetingDate s) = Returned ms ->
  Forall (fun m => includes (toLowerCase (OnlineMeeting.subject m))
                     (toLowerCase meetingName) = true) ms
  /\ (List.length ms <= List.length (nameMatches accessToken meetingName meetingDate s))%nat.
Proof.
  intros Hnil Hms.
  pose proof (findMeetingsByName_loop accessToken meetingName meetingDate s) as H.
  cbv zeta in H. destruct H as (Ho & _). rewrite Ho in Hms.
  assert (HQP : forall e m,
             nameMatch (toLowerCase meetingName) e = true ->
             includes (toLowerCase (OnlineMeeting.subject
                                      (OnlineMeeting.setSubject (preferredSubject e m) m)))
               (toLowerCase meetingName) = true).
  { intros e m He. cbn [OnlineMeeting.subject OnlineMeeting.setSubject].
    now apply preferredSubject_matches. }
  assert (HQ : Forall (fun e => nameMatch (toLowerCase meetingName) e = true)
                 (nameMatches accessToken meetingName meetingDate s)).
  { apply Forall_forall. intros e He. unfold nameMatches in He.
    now apply filter_In in He as [_ He]. }
  destruct (@resolveAll_results accessToken
              (fun e => nameMatch (toLowerCase meetingName) e = true)
              (fun m => includes (toLowerCase (OnlineMeeting.subject m))
                          (toLowerCase meetingName) = true)
              HQP _ _ _ _ HQ Hms)
    as (more & -> & HP & Hlen).
  split; [exact HP|exact Hlen].
Qed.

Lemma simple_cons (e : CalendarEvent.t) (rest : list CalendarEvent.t) (u : jsstring) :
  joinUrlOf e = Some u ->
  forallb isSimpleUrl (joinUrls (e :: rest)) = true ->
  isSimpleUrl u = true /\ forallb isSimpleUrl (joinUrls rest) = true.
Proof.
  intros Hu H. rewrite joinUrls_cons, Hu in H. cbn [forallb] in H.
  now apply andb_true_iff in H.
Qed.

Lemma simple_skip (e : CalendarEvent.t) (rest : list CalendarEvent.t) :
  joinUrlOf e = None ->
  forallb isSimpleUrl (joinUrls (e :: rest)) = true ->
  forallb isSimpleUrl (joinUrls rest) = true.
Proof. intros Hu H. now rewrite joinUrls_cons, Hu in H. Qed.

(** With simple join URLs the loop of findMeetingsByName comes to its end,
    after one lookup for each event. *)
Lemma resolveAll_simple (accessToken : jsstring) (events : list CalendarEvent.t) :
  forall (resolved : list OnlineMeeting.t) (s : service),
    forallb isSimpleUrl (joinUrls events) = true ->
    let run := resolveAll accessToken events resolved s in
    (exists ms, outcome run = Returned ms)
    /\ List.length (requests (emitted run)) = List.length (joinUrls events).
Proof.
  induction events as [|e rest IH]; intros resolved s Hs run; subst run.
  - cbn. split; [now eexists|reflexivity].
  - cbn [resolveAll]. destruct (joinUrlOf e) as [u|] eqn:Hu.
    + destruct (@simple_cons e rest u Hu Hs) as [Hsu Hrest].
      destruct (@resolveCalendarEvent_simple accessToken u e s Hu Hsu) as (Ho & Hr).
      rewrite joinUrls_cons, Hu. unfold bind. rewrite Ho.
      destruct (lookedUp accessToken u s) as [m|]; cbn [option_map outcome after emitted];
        rewrite requests_app, length_app, Hr.
      * destruct (IH (resolved ++ [OnlineMeeting.setSubject (preferredSubject e m) m])
                    (after (resolveCalendarEvent accessToken e s)) Hrest) as (Hret & Hlen).
        split; [exact Hret|]. cbn [List.length]. now rewrite Hlen.
      * destruct (IH resolved (after (resolveCalendarEvent accessToken e s)) Hrest)
          as (Hret & Hlen).
        split; [exact Hret|]. cbn [List.length]. now rewrite Hlen.
    + pose proof (@simple_skip e rest Hu Hs) as Hrest.
      rewrite joinUrls_cons, Hu. unfold bind.
      rewrite (resolveCalendarEvent_without_url accessToken e s Hu).
      cbn [ret outcome after emitted app].
      destruct (IH resolved s Hrest) as (Hret & Hlen).
      destruct (resolveAll accessToken rest resolved s) as [o s' evs].
      cbn [outcome after emitted] in *. auto.
Qed.

(** X8.  findMeetingsByName does not throw when the join URLs of the
    events that pass its filter have no percent sign and no surrogate code
    unit: it returns after the calendarView request and one lookup for each
    such event, whatever the service answers. *)
Theorem findMeetingsByName_returns_on_simple_urls (accessToken meetingName : jsstring) (meetingDate : option jsstring) (s : service) :
  let matches := nameMatches accessToken meetingName meetingDate s in
  forallb isSimpleUrl (joinUrls matches) = true ->
  let run := findMeetingsByName accessToken meetingName meetingDate s in
  (exists ms, outcome run = Returned ms)
  /\ List.length (requests (emitted run)) = S (List.length matches)
  /\ List.length (filter isMeetingLookup (requests (emitted run))) = List.length matches.
Proof.
  intros matches Hs run.
  pose proof (findMeetingsByName_loop accessToken meetingName meetingDate s) as H.
  cbv zeta in H. destruct H as (Ho & Hr). fold matches in Ho, Hr. fold run in Ho, Hr.
  pose proof (@resolveAll_simple accessToken matches []
                (snd (respond (CalendarViewRequest (fst (rangeAt meetingDate s))
                                 (snd (rangeAt meetingDate s)) (Math.min (ofZ 100) (ofZ 100)))
                        accessToken s)) Hs) as H.
  cbv zeta in H. destruct H as (Hret & Hlen).
  pose proof (nameMatch_joinUrls (toLowerCase meetingName)
                (candidates accessToken meetingDate s)) as Hm.
  fold (nameMatches accessToken meetingName meetingDate s) in Hm. fold matches in Hm.
  rewrite Ho, Hr. split; [exact Hret|]. cbn [List.length filter isMeetingLookup].
  split; [now rewrite Hlen, Hm|].
  destruct (resolveAll_run accessToken matches []
              (snd (respond (CalendarViewRequest (fst (rangeAt meetingDate s))
                               (snd (rangeAt meetingDate s)) (Math.min (ofZ 100) (ofZ 100)))
                      accessToken s))) as (_ & _ & Hlk).
  rewrite <- Hm, <- Hlen. f_equal.
  clear - Hlk. induction (requests _) as [|r rs IH]; [reflexivity|].
  cbn [forallb] in Hlk. apply andb_true_iff in Hlk as [Hr Hrs].
  cbn [filter]. rewrite Hr. f_equal. exact (IH Hrs).
Qed.

(** listMeetings from the events of the calendar. *)
Lemma listMeetings_loop (accessToken : jsstring) (top : option number) (filterDate : option jsstring) (s : service) :
  let limit := limitOf top in
  let range := rangeAt filterDate s in
  let request := CalendarViewRequest (fst range) (snd range)
                   (Math.min (Math.min (mul limit (ofZ 3)) (ofZ 100)) (ofZ 100)) in
  let s1 := snd (respond request accessToken s) in
  let loop := resolveUpTo accessToken limit (teamsMeetings accessToken top filterDate s) [] s1 in
  let run := listMeetings accessToken top filterDate s in
  outcome run = outcome loop
  /\ after run = after loop
  /\ requests (emitted run) = request :: requests (emitted loop)
  /\ resolverCalls (emitted run) = resolverCalls (emitted loop)
  /\ failedResolutions (emitted run) = failedResolutions (emitted loop).
Proof.
  intros limit range request s1 loop run. subst run loop.
  unfold listMeetings, teamsMeetings. fold (limitOf top). fold limit.
  destruct (fetchCalendarEvents_events accessToken filterDate (Math.min (mul limit (ofZ 3)) (ofZ 100)) s)
    as (Ho & Ha & Hr).
  fold range in Ho, Ha, Hr. fold request in Ha, Hr. fold s1 in Ha.
  unfold bind, log, emit. rewrite buildDateRange_run. fold range.
  cbn [ret outcome after emitted app]. rewrite Ho. cbn [outcome after emitted].
  rewrite Ha.
  pose proof (fetchCalendarEvents_run accessToken (fst range) (snd range)
                (Math.min (mul limit (ofZ 3)) (ofZ 100)) s) as H.
  cbv zeta in H. destruct H as (events & _ & _ & _ & Hc & Hf & _).
  destruct (outcome (resolveUpTo accessToken limit
                       (filter hasJoinUrl
                          (calendarEvents accessToken filterDate (Math.min (mul limit (ofZ 3)) (ofZ 100)) s))
                       [] s1)) as [ms|ex];
    cbn [ret outcome after emitted app]; read_trace;
    rewrite Hr, Hc, Hf, ?app_nil_r, ?Nat.add_0_r; cbn [app]; auto.
Qed.

(** A limit that is not positive stops the loop of listMeetings at once. *)
Lemma resolveUpTo_nonpositive (accessToken : jsstring) (limit : number) (events : list CalendarEvent.t) (s : service) :
  geq (lengthValue 0) (valueOf limit) = true ->
  resolveUpTo accessToken limit events [] s = ret [] s.
Proof.
  intros H. destruct events as [|e rest]; [reflexivity|]. cbn [resolveUpTo List.length].
  rewrite H. reflexivity.
Qed.

(** With simple join URLs the loop of listMeetings comes to its end, after
    one lookup for each entry into the resolver. *)
Lemma resolveUpTo_simple (accessToken : jsstring) (limit : number) (events : list CalendarEvent.t) :
  forall (resolved : list OnlineMeeting.t) (s : service),
    forallb isSimpleUrl (joinUrls events) = true ->
    let run := resolveUpTo accessToken limit events resolved s in
    (exists ms, outcome run = Returned ms)
    /\ List.length (requests (emitted run)) = List.length (resolverCalls (emitted run)).
Proof.
  induction events as [|e rest IH]; intros resolved s Hs run; subst run.
  - cbn. split; [now eexists|reflexivity].
  - cbn [resolveUpTo].
    destruct (geq (lengthValue (List.length resolved)) (valueOf limit));
      [cbn; split; [now eexists|reflexivity]|].
    destruct (joinUrlOf e) as [u|] eqn:Hu.
    + destruct (@simple_cons e rest u Hu Hs) as [Hsu Hrest].
      destruct (@resolveCalendarEvent_simple accessToken u e s Hu Hsu) as (Ho & Hr).
      pose proof (@resolveCalendarEvent_run G accessToken u e s Hu) as H.
      cbv zeta in H. destruct H as (_ & Hc & _).
      unfold bind. rewrite Ho.
      destruct (lookedUp accessToken u s) as [m|]; cbn [option_map outcome after emitted];
        rewrite requests_app, resolverCalls_app, !length_app, Hr, Hc.
      * destruct (IH (resolved ++ [OnlineMeeting.setSubject (preferredSubject e m) m])
                    (after (resolveCalendarEvent accessToken e s)) Hrest) as (Hret & Hlen).
        split; [exact Hret|]. cbn [List.length]. now rewrite Hlen.
      * destruct (IH resolved (after (resolveCalendarEvent accessToken e s)) Hrest)
          as (Hret & Hlen).
        split; [exact Hret|]. cbn [List.length]. now rewrite Hlen.
    + pose proof (@simple_skip e rest Hu Hs) as Hrest.
      unfold bind. rewrite (resolveCalendarEvent_without_url accessToken e s Hu).
      cbn [ret outcome after emitted app].
      destruct (IH resolved s Hrest) as (Hret & Hlen).
      destruct (resolveUpTo accessToken limit rest resolved s) as [o s' evs].
      cbn [outcome after emitted] in *. auto.
Qed.

(** listMeetings with simple join URLs. *)
Lemma listMeetings_simple (accessToken : jsstring) (top : option number) (filterDate : option jsstring) (s : service) :
  forallb isSimpleUrl (joinUrls (teamsMeetings accessToken top filterDate s)) = true ->
  let run := listMeetings accessToken top filterDate s in
  exists ms,
    outcome run = Returned ms
    /\ List.length (requests (emitted run))
       = S (List.length ms + failedResolutions (emitted run)).
Proof.
  intros Hs run.
  pose proof (listMeetings_loop accessToken top filterDate s) as H.
  cbv zeta in H. destruct H as (Ho & _ & Hr & Hc & _). fold run in Ho, Hr, Hc.
  pose proof (@resolveUpTo_simple accessToken (limitOf top)
                (teamsMeetings accessToken top filterDate s) []
                (snd (respond (CalendarViewRequest (fst (rangeAt filterDate s))
                                 (snd (rangeAt filterDate s))
                                 (Math.min (Math.min (mul (limitOf top) (ofZ 3)) (ofZ 100)) (ofZ 100)))
                        accessToken s)) Hs) as H.
  cbv zeta in H. destruct H as ((ms & Hms) & Hlen).
  exists ms. rewrite Ho. split; [exact Hms|].
  pose proof (listMeetings_run accessToken top filterDate s) as H.
  cbv zeta in H. destruct H as (Hret & _). fold run in Hret.
  rewrite Ho in Hret. destruct (Hret ms Hms) as (_ & Hcalls).
  rewrite Hr. cbn [List.length]. rewrite Hlen, <- Hc, Hcalls. reflexivity.
Qed.

(** *** listTranscripts and getTranscriptContent *)

Lemma listTranscripts_run (accessToken meetingId : jsstring) (s : service) :
  let request := TranscriptList (transcriptsUrl meetingId) in
  let run := listTranscripts accessToken meetingId s in
  emitted run = [Sent request]
  /\ after run = snd (respond request accessToken s)
  /\ outcome run
     = match fst (respond request accessToken s) with
       | NetworkError => Thrown FetchFailure
       | NotOk status message => Thrown (GraphApiError status message)
       | Ok NotJson _ => Thrown JsonSyntaxError
       | Ok JsonNull _ => Thrown TypeError
       | Ok (JsonObject data) _ =>
           Returned (List.map (TranscriptInfo.setMeetingId meetingId)
                       (valueOrEmpty (Some data)))
       end.
Proof.
  unfold listTranscripts, transcriptsUrl, bind, graphGet, resJson, ret, throw.
  destruct (respond _ accessToken s) as [[| st msg | [| | [[v|]]] t] s']; cbn; auto.
Qed.

Lemma getTranscriptContent_run (accessToken meetingId transcriptId : jsstring) (s : service) :
  let request := ContentDownload (contentUrl meetingId transcriptId) in
  let run := getTranscriptContent accessToken meetingId transcriptId s in
  emitted run = [Sent request]
  /\ after run = snd (respond request accessToken s)
  /\ outcome run
     = match fst (respond request accessToken s) with
       | NetworkError => Thrown FetchFailure
       | NotOk status message => Thrown (GraphApiError status message)
       | Ok _ text => Returned text
       end.
Proof.
  unfold getTranscriptContent, contentUrl, bind, graphGet, ret.
  destruct (respond _ accessToken s) as [[| st msg | j t] s']; cbn; auto.
Qed.

(** X9.  listTranscripts sends one request, for the transcripts of the
    meeting it is given, and is not fail-soft: a failed fetch, an answer
    that is not ok (with its status and body), a body that is not JSON or is
    null make it throw.  From an ok JSON object it returns the transcripts
    of the answer, as many and in the same order, each with its [id], its
    [createdDateTime] and its [transcriptContentUrl] as they were sent and
    with [meetingId] set to the meeting asked for, whatever the service
    sent for it; an answer without [value] gives the empty list. *)
Theorem listTranscripts_stamps_the_meeting (accessToken meetingId : jsstring) (s : service) :
  let request := TranscriptList (transcriptsUrl meetingId) in
  let reply := fst (respond request accessToken s) in
  let run := listTranscripts accessToken meetingId s in
  requests (emitted run) = [request]
  /\ after run = snd (respond request accessToken s)
  /\ (forall ts, outcome run = Returned ts ->
        exists data text,
          reply = Ok (JsonObject data) text
          /\ Forall2 (fun t sent =>
                        TranscriptInfo.id t = TranscriptInfo.id sent
                        /\ TranscriptInfo.createdDateTime t
                           = TranscriptInfo.createdDateTime sent
                        /\ TranscriptInfo.transcriptContentUrl t
                           = TranscriptInfo.transcriptContentUrl sent
                        /\ TranscriptInfo.meetingId t = meetingId)
               ts (valueOrEmpty (Some data)))
  /\ (forall status message,
        reply = NotOk status message ->
        outcome run = Thrown (GraphApiError status message))
  /\ (reply = NetworkError -> outcome run = Thrown FetchFailure)
  /\ (forall text, reply = Ok NotJson text -> outcome run = Thrown JsonSyntaxError)
  /\ (forall text, reply = Ok JsonNull text -> outcome run = Thrown TypeError)
  /\ (forall data text,
        reply = Ok (JsonObject data) text ->
        exists ts, outcome run = Returned ts
                   /\ List.length ts = List.length (valueOrEmpty (Some data))
                   /\ (value data = None -> ts = [])).
Proof.
  intros request reply run.
  destruct (listTranscripts_run accessToken meetingId s) as (He & Ha & Ho).
  fold request in He, Ha, Ho. fold reply in Ho. fold run in He, Ha, Ho.
  rewrite He, Ho. split; [reflexivity|]. split; [exact Ha|].
  split; [|split; [|split; [|split; [|split]]]].
  - intros ts Hts. destruct reply as [| st msg | [| | data] text]; try discriminate.
    injection Hts as <-. exists data, text. split; [reflexivity|].
    assert (Hall : forall sent : list TranscriptInfo.t,
               Forall2 (fun t x =>
                          TranscriptInfo.id t = TranscriptInfo.id x
                          /\ TranscriptInfo.createdDateTime t
                             = TranscriptInfo.createdDateTime x
                          /\ TranscriptInfo.transcriptContentUrl t
                             = TranscriptInfo.transcriptContentUrl x
                          /\ TranscriptInfo.meetingId t = meetingId)
                 (List.map (TranscriptInfo.setMeetingId meetingId) sent) sent).
    { induction sent as [|x xs IH]; cbn [List.map]; constructor; [|exact IH].
      cbn [TranscriptInfo.setMeetingId TranscriptInfo.id TranscriptInfo.meetingId
           TranscriptInfo.createdDateTime TranscriptInfo.transcriptContentUrl].
      repeat split. }
    apply Hall.
  - intros status message ->. reflexivity.
  - intros ->. reflexivity.
  - intros text ->. reflexivity.
  - intros text ->. reflexivity.
  - intros data text ->. eexists. split; [reflexivity|]. split; [apply length_map|].
    intros Hv. destruct data as [v]. cbn [value] in Hv. subst v. reflexivity.
Qed.

(** The loop of listMeetings enters the resolver for the events in order,
    and for all of them when it ends with fewer meetings than the limit. *)
Lemma resolveUpTo_calls (accessToken : jsstring) (limit : number) (events : list CalendarEvent.t) :
  forall (resolved : list OnlineMeeting.t) (s : service),
    let run := resolveUpTo accessToken limit events resolved s in
    (exists k, resolverCalls (emitted run) = firstn k (joinUrls events))
    /\ (forall ms, outcome run = Returned ms ->
          geq (lengthValue (List.length ms)) (valueOf limit) = false ->
          resolverCalls (emitted run) = joinUrls events).
Proof.
  induction events as [|e rest IH]; intros resolved s run; subst run.
  - cbn. split; [now exists O|reflexivity].
  - cbn [resolveUpTo].
    destruct (geq (lengthValue (List.length resolved)) (valueOf limit)) eqn:Hg.
    + cbn [ret outcome after emitted resolverCalls].
      split; [now exists O|]. intros ms E Hms. injection E as <-. congruence.
    + rewrite joinUrls_cons. destruct (joinUrlOf e) as [u|] eqn:Hu.
      * pose proof (@resolveCalendarEvent_run G accessToken u e s Hu) as H.
        cbv zeta in H. destruct H as (_ & Hc & _ & Ho).
        unfold bind.
        destruct (outcome (resolveOnlineMeeting accessToken u s)) as [[m|]|ex];
          destruct Ho as [Ho _]; rewrite Ho; cbn [outcome after emitted].
        -- destruct (IH (resolved ++ [OnlineMeeting.setSubject (preferredSubject e m) m])
                       (after (resolveCalendarEvent accessToken e s)))
             as ((k & Hk) & Hall).
           rewrite resolverCalls_app, Hc.
           split; [exists (S k); cbn [app firstn]; f_equal; exact Hk|].
           intros ms E Hms. cbn [app]. f_equal. exact (Hall _ E Hms).
        -- destruct (IH resolved (after (resolveCalendarEvent accessToken e s)))
             as ((k & Hk) & Hall).
           rewrite resolverCalls_app, Hc.
           split; [exists (S k); cbn [app firstn]; f_equal; exact Hk|].
           intros ms E Hms. cbn [app]. f_equal. exact (Hall _ E Hms).
        -- rewrite Hc. split; [exists 1%nat; reflexivity|]. intros ms E. discriminate.
      * unfold bind. rewrite (resolveCalendarEvent_without_url accessToken e s Hu).
        cbn [ret outcome after emitted app].
        destruct (IH resolved s) as (Hk & Hall).
        destruct (resolveUpTo accessToken limit rest resolved s) as [o s' evs].
        cbn [outcome after emitted] in *. auto.
Qed.

Lemma joinUrls_teams (events : list CalendarEvent.t) :
  joinUrls (filter hasJoinUrl events) = joinUrls events.
Proof.
  induction events as [|e rest IH]; [reflexivity|]. cbn [filter].
  unfold hasJoinUrl at 1. destruct (joinUrlOf e) as [u|] eqn:Hu.
  - rewrite !joinUrls_cons, Hu. now f_equal.
  - now rewrite joinUrls_cons, Hu.
Qed.

(** X23.  listMeetings enters the resolver for the calendar events that
    have a join URL only, in the order of the calendar and once each, as
    far as it gets; when it returns fewer meetings than its limit (the
    test [resolved.length >= limit] of its loop fails for what it returns)
    it has tried every one of them. *)
Theorem listMeetings_resolves_in_calendar_order (accessToken : jsstring) (top : option number) (filterDate : option jsstring) (s : service) :
  let run := listMeetings accessToken top filterDate s in
  let events := calendarEvents accessToken filterDate (Math.min (mul (limitOf top) (ofZ 3)) (ofZ 100)) s in
  (exists k, resolverCalls (emitted run) = firstn k (joinUrls events))
  /\ (forall ms, outcome run = Returned ms ->
        geq (lengthValue (List.length ms)) (valueOf (limitOf top)) = false ->
        resolverCalls (emitted run) = joinUrls events)
  /\ (List.length (joinUrls events) <= List.length events)%nat.
Proof.
  intros run events.
  pose proof (listMeetings_loop accessToken top filterDate s) as H.
  cbv zeta in H. destruct H as (Ho & _ & _ & Hc & _). fold run in Ho, Hc.
  rewrite Ho, Hc. unfold teamsMeetings. fold events.
  destruct (@resolveUpTo_calls accessToken (limitOf top) (filter hasJoinUrl events) []
              (snd (respond (CalendarViewRequest (fst (rangeAt filterDate s))
                               (snd (rangeAt filterDate s))
                               (Math.min (Math.min (mul (limitOf top) (ofZ 3)) (ofZ 100)) (ofZ 100)))
                      accessToken s))) as (Hk & Hall).
  rewrite joinUrls_teams in Hk, Hall. split; [exact Hk|]. split; [exact Hall|].
  clear. induction events as [|e rest IH]; [reflexivity|].
  rewrite joinUrls_cons. destruct (joinUrlOf e); cbn [List.length]; lia.
Qed.

End Client.

(** *** Runs against the scripted services *)

(** The join URL of the standup is simple: one lookup resolves it. *)
Lemma resolveOnlineMeeting_single_lookup_witness :
  exists url,
    lookupUrl standupLink = Some url
    /\ outcome (@resolveOnlineMeeting untitledService token standupLink tt)
       = Returned (firstOrNull
                     (objectOf (fst (@respond untitledService (MeetingLookup url) token tt))))
    /\ requests (emitted (@resolveOnlineMeeting untitledService token standupLink tt))
       = [MeetingLookup url]
    /\ after (@resolveOnlineMeeting untitledService token standupLink tt)
       = snd (@respond untitledService (MeetingLookup url) token tt).
Proof.
  apply (@resolveOnlineMeeting_single_lookup untitledService token standupLink tt).
  vm_compute; reflexivity.
Defined.

(** The search for weekly finds the weekly sync, under its calendar name. *)
Lemma findMeetingsByName_results_witness :
  Forall (fun m => includes (asciiLower (OnlineMeeting.subject m)) (asciiLower (js "weekly")) = true)
    [weeklySync]
  /\ (List.length [weeklySync]
      <= List.length (@nameMatches untitledService token (js "weekly") None tt))%nat.
Proof.
  apply (@findMeetingsByName_results_match_the_name untitledService token (js "weekly")
           None tt [weeklySync]);
    [reflexivity|vm_compute; reflexivity].
Defined.

Lemma findMeetingsByName_simple_witness :
  (exists ms, outcome (@findMeetingsByName untitledService token (js "weekly") None tt)
              = Returned ms)
  /\ List.length (requests (emitted (@findMeetingsByName untitledService token (js "weekly")
                                       None tt)))
     = S (List.length (@nameMatches untitledService token (js "weekly") None tt))
  /\ List.length (filter isMeetingLookup
                    (requests (emitted (@findMeetingsByName untitledService token
                                          (js "weekly") None tt))))
     = List.length (@nameMatches untitledService token (js "weekly") None tt).
Proof.
  apply (@findMeetingsByName_returns_on_simple_urls untitledService token (js "weekly")
           None tt).
  vm_compute; reflexivity.
Defined.

End GraphRuns.

(* ================================================================== *)
(** ** More properties of the tool handlers *)

Module ServerRuns.

Import JsString VttParser Uri JsNumber Graph Server Scenario Trace StringFacts IncludesFacts NumberFacts GraphFacts UriFacts GraphRuns.
Open Scope N_scope.

Arguments lookupUrl : simpl never.
Arguments lookupRequest : simpl never.

#[local] Hint Rewrite requests_app resolverCalls_app failedResolutions_app : trace.

Section Handlers.

Context {G : GraphService}.

(** The probe of a meeting returns in every case, after one request. *)
Lemma probe_run (graphToken : jsstring) (m : OnlineMeeting.t) (s : service) :
  let run := probe graphToken m s in
  let listed := listTranscripts graphToken (OnlineMeeting.id m) s in
  exists listing,
    outcome run = Returned listing
    /\ after run = after listed
    /\ requests (emitted run) = [probeRequest m]
    /\ listing
       = listingOf m match outcome listed with
                     | Returned (_ :: _) => true
                     | _ => false
                     end.
Proof.
  intros run listed. subst run listed. unfold probe, tryCatch, bind, ret.
  destruct (listTranscripts_run graphToken (OnlineMeeting.id m) s) as (He & _ & _).
  destruct (listTranscripts graphToken (OnlineMeeting.id m) s) as [o s' evs].
  cbn [outcome after emitted] in *. subst evs.
  destruct o as [[|t ts]|ex]; cbn [outcome after emitted];
    eexists; (split; [reflexivity|]); cbn; auto.
Qed.

Lemma probeAll_run (graphToken : jsstring) (meetings : list OnlineMeeting.t) :
  forall s : service,
    let run := probeAll graphToken meetings s in
    exists listings,
      outcome run = Returned listings
      /\ requests (emitted run) = List.map probeRequest meetings
      /\ Forall2 (fun m l => exists has, l = listingOf m has) meetings listings.
Proof.
  induction meetings as [|m rest IH]; intros s run; subst run.
  - exists []. cbn. auto.
  - cbn [probeAll]. destruct (probe_run graphToken m s) as (l & Ho & Ha & Hr & Hl).
    unfold bind. rewrite Ho. cbn [outcome after emitted].
    destruct (IH (after (probe graphToken m s))) as (ls & Ho2 & Hr2 & Hall).
    rewrite Ho2. cbn [ret outcome after emitted].
    exists (l :: ls). rewrite app_nil_r, requests_app, Hr, Hr2.
    split; [reflexivity|]. split; [reflexivity|]. constructor; [eexists; exact Hl|exact Hall].
Qed.

(** The entry of a listing names the meeting: its subject between
    asterisks and its identifier. *)
Lemma renderListing_names (i : nat) (m : OnlineMeeting.t) (has : bool) :
  includes (renderListing i (listingOf m has))
    (js "**" ++ subject (listingOf m has) ++ js "**") = true
  /\ includes (renderListing i (listingOf m has))
       (js "Meeting ID: " ++ OnlineMeeting.id m) = true.
Proof.
  unfold renderListing. split.
  - apply includes_infix.
    exists (showNat (i + 1) ++ js ". "). eexists.
    rewrite <- !app_assoc. reflexivity.
  - apply includes_infix.
    exists (showNat (i + 1) ++ js ". **" ++ subject (listingOf m has) ++ js "**" ++ newline ++
            js "   Start: " ++ startDateTime (listingOf m has) ++ newline ++
            js "   End: " ++ endDateTime (listingOf m has) ++ newline ++
            js "   Transcript: " ++
            (if hasTranscript (listingOf m has) then js "Available" else js "Not available")
            ++ newline ++ js "   "), [].
    rewrite <- !app_assoc, app_nil_r. reflexivity.
Qed.

Lemma renderListings_each (ms : list OnlineMeeting.t) :
  forall (ls : list Listing) (k : nat) (m : OnlineMeeting.t),
    Forall2 (fun m l => exists has, l = listingOf m has) ms ls ->
    In m ms ->
    exists i has, In (renderListing i (listingOf m has)) (renderListings k ls).
Proof.
  induction ms as [|x ms IH]; intros ls k m H Hin; [destruct Hin|].
  inversion H as [|? l ? ls' [has Hl] Hrest]; subst. destruct Hin as [->|Hin].
  - exists k, has. now left.
  - destruct (IH ls' (S k) m Hrest Hin) as (i & has' & Hi).
    exists i, has'. now right.
Qed.

Lemma recentMeetingsReply_run (graphToken : jsstring) (date : option jsstring) (meetings : list OnlineMeeting.t) (s : service) :
  let run := recentMeetingsReply graphToken date meetings s in
  exists result,
    outcome run = Returned result
    /\ isError result = false
    /\ (meetings = [] -> result = reply (noMeetingsText date) /\ emitted run = [])
    /\ (meetings <> [] -> requests (emitted run) = List.map probeRequest meetings)
    /\ (forall m, In m meetings ->
          includes (content result) (js "**" ++ subject (listingOf m false) ++ js "**") = true
          /\ includes (content result) (js "Meeting ID: " ++ OnlineMeeting.id m) = true).
Proof.
  intros run. subst run. destruct meetings as [|m rest].
  - eexists. split; [reflexivity|]. split; [reflexivity|].
    split; [intros _; split; reflexivity|]. split; [congruence|intros m []].
  - cbn [recentMeetingsReply].
    destruct (probeAll_run graphToken (m :: rest) s) as (ls & Ho & Hr & Hall).
    unfold bind. rewrite Ho. cbn [ret outcome after emitted].
    eexists. split; [reflexivity|]. split; [reflexivity|].
    split; [discriminate|]. split; [intros _; now rewrite app_nil_r|].
    intros x Hx. cbn [reply content].
    destruct (@renderListings_each _ _ 0%nat _ Hall Hx) as (i & has & Hi).
    destruct (renderListing_names i x has) as [H1 H2].
    split; [|exact (@includes_join _ _ _ (newline ++ newline) Hi H2)].
    exact (@includes_join _ _ _ (newline ++ newline) Hi H1).
Qed.

(** handleListRecentMeetings from what listMeetings returns. *)
Lemma handleListRecentMeetings_run (graphToken : jsstring) (args : ListArgs) (s : service) (ms : list OnlineMeeting.t) :
  let listed := listMeetings graphToken (Some (Math.min (limitOf (limit args)) (ofZ 50))) (date args) s in
  outcome listed = Returned ms ->
  let run := handleListRecentMeetings graphToken args s in
  exists result,
    outcome run = Returned result
    /\ isError result = false
    /\ requests (emitted run) = requests (emitted listed) ++ List.map probeRequest ms
    /\ (ms = [] -> result = reply (noMeetingsText (date args)))
    /\ (forall m, In m ms ->
          includes (content result) (js "**" ++ subject (listingOf m false) ++ js "**") = true
          /\ includes (content result) (js "Meeting ID: " ++ OnlineMeeting.id m) = true).
Proof.
  intros listed Hms run. subst run.
  change (handleListRecentMeetings graphToken args s)
    with (bind (fun s0 => listMeetings graphToken (Some (Math.min (limitOf (limit args)) (ofZ 50)))
                            (date args) s0)
               (recentMeetingsReply graphToken (date args)) s).
  unfold bind. fold listed. rewrite Hms.
  cbn [outcome after emitted].
  destruct (recentMeetingsReply_run graphToken (date args) ms (after listed))
    as (result & Ho & He & Hnil & Hcons & Hnames).
  exists result. split; [exact Ho|]. split; [exact He|]. rewrite requests_app.
  split; [|split; [|exact Hnames]].
  - f_equal. destruct ms as [|m rest]; [|apply Hcons; discriminate].
    destruct (Hnil eq_refl) as [_ ->]. reflexivity.
  - intros E. apply (Hnil E).
Qed.


(** X10.  When listMeetings returns, handleListRecentMeetings returns an
    answer that is no error, whatever becomes of the availability probes:
    it sends, after the requests of listMeetings, one transcript-list
    request for each meeting returned, in their order; with no meeting it
    sends no probe and answers that no meetings were found; otherwise its
    text names every meeting returned, by its subject, or [(No subject)]
    for an empty one, and by its identifier. *)
Theorem handleListRecentMeetings_probes_each_meeting (graphToken : jsstring) (args : ListArgs) (s : service) (ms : list OnlineMeeting.t) :
  let listed := listMeetings graphToken (Some (Math.min (limitOf (limit args)) (ofZ 50))) (date args) s in
  outcome listed = Returned ms ->
  let run := handleListRecentMeetings graphToken args s in
  exists result,
    outcome run = Returned result
    /\ isError result = false
    /\ requests (emitted run) = requests (emitted listed) ++ List.map probeRequest ms
    /\ (ms = [] -> result = reply (noMeetingsText (date args)))
    /\ (forall m, In m ms ->
          includes (content result) (js "**" ++ subject (listingOf m false) ++ js "**") = true
          /\ includes (content result) (js "Meeting ID: " ++ OnlineMeeting.id m) = true).
Proof.
  intros listed Hms run.
  destruct (@handleListRecentMeetings_run graphToken args s ms Hms)
    as (result & Hout & Herr & Hreq & Hnone & Hall).
  exists result.
  split; [exact Hout|]. split; [exact Herr|]. split; [exact Hreq|].
  split; [exact Hnone|exact Hall].
Qed.

(** X11.  With join URLs without percent sign and surrogate code unit
    handleListRecentMeetings does not throw and its answer is no error,
    whatever the service answers to the calendar request, the lookups and
    the probes. *)
Theorem handleListRecentMeetings_returns_on_simple_urls (graphToken : jsstring) (args : ListArgs) (s : service) :
  let top := Some (Math.min (limitOf (limit args)) (ofZ 50)) in
  forallb isSimpleUrl (joinUrls (teamsMeetings graphToken top (date args) s)) = true ->
  let run := handleListRecentMeetings graphToken args s in
  exists result ms,
    outcome run = Returned result
    /\ isError result = false
    /\ outcome (listMeetings graphToken top (date args) s) = Returned ms
    /\ List.length (requests (emitted run))
       = (1 + (List.length ms + failedResolutions (emitted run)) + List.length ms)%nat.
Proof.
  intros top Hs run.
  destruct (@listMeetings_simple G graphToken top (date args) s Hs) as (ms & Hms & Hlen).
  destruct (@handleListRecentMeetings_run graphToken args s ms Hms)
    as (result & Ho & He & Hr & _ & _).
  exists result, ms. split; [exact Ho|]. split; [exact He|]. split; [exact Hms|].
  fold run in Hr. rewrite Hr, length_app, length_map. fold top. rewrite Hlen.
  assert (Hf : failedResolutions (emitted run)
               = failedResolutions (emitted (listMeetings graphToken top (date args) s))).
  { subst run.
    change (handleListRecentMeetings graphToken args s)
      with (bind (fun s0 => listMeetings graphToken top (date args) s0)
                 (recentMeetingsReply graphToken (date args)) s).
    unfold bind. rewrite Hms. cbn [outcome after emitted].
    rewrite failedResolutions_app.
    assert (E : failedResolutions
                  (emitted (recentMeetingsReply graphToken (date args) ms
                              (after (listMeetings graphToken top (date args) s)))) = O).
    { generalize (after (listMeetings graphToken top (date args) s)). intros s1.
      destruct ms as [|m rest]; [reflexivity|]. cbn [recentMeetingsReply].
      unfold bind.
      assert (Hp : forall l s2, failedResolutions (emitted (probeAll graphToken l s2)) = O).
      { induction l as [|x l IH]; intros s2; [reflexivity|]. cbn [probeAll].
        unfold bind.
        assert (Hx : failedResolutions (emitted (probe graphToken x s2)) = O).
        { unfold probe, tryCatch, bind, ret.
          destruct (listTranscripts_run graphToken (OnlineMeeting.id x) s2) as (He2 & _ & _).
          destruct (listTranscripts graphToken (OnlineMeeting.id x) s2) as [o s3 evs].
          cbn [outcome after emitted] in *. subst evs.
          destruct o as [[|t ts]|ex]; reflexivity. }
        destruct (probe_run graphToken x s2) as (li & Hli & _). rewrite Hli.
        cbn [outcome after emitted]. rewrite failedResolutions_app, Hx.
        destruct (outcome (probeAll graphToken l (after (probe graphToken x s2)))) eqn:Hq;
          cbn [ret outcome after emitted]; rewrite ?failedResolutions_app, IH; reflexivity. }
      destruct (outcome (probeAll graphToken (m :: rest) s1)) eqn:Hq;
        cbn [ret outcome after emitted]; rewrite ?failedResolutions_app, Hp; reflexivity. }
    rewrite E. lia. }
  rewrite Hf. lia.
Qed.

(** X12.  A limit that is not positive ([0 >= limit]: zero, a negative
    number, whole or not, or minus infinity) lists nothing: listMeetings
    returns no meeting after the calendarView request alone, without
    entering the resolver, and handleListRecentMeetings answers that no
    meetings were found, whatever the calendar holds. *)
Theorem handleListRecentMeetings_nonpositive_limit (graphToken : jsstring) (date : option jsstring) (n : number) (s : service) :
  geq (lengthValue 0) (valueOf n) = true ->
  let listed := listMeetings graphToken (Some n) date s in
  let run := handleListRecentMeetings graphToken (listArgs date (Some n)) s in
  outcome listed = Returned []
  /\ List.length (requests (emitted listed)) = 1%nat
  /\ resolverCalls (emitted listed) = []
  /\ outcome run = Returned (reply (noMeetingsText date))
  /\ requests (emitted run) = requests (emitted listed).
Proof.
  intros Hn listed run.
  pose proof (listMeetings_loop graphToken (Some n) date s) as H.
  cbv zeta in H. destruct H as (Ho & _ & Hr & Hc & _).
  cbn [limitOf] in Ho, Hr, Hc.
  rewrite (@resolveUpTo_nonpositive G graphToken n _ _ Hn) in Ho, Hr, Hc.
  cbn [ret outcome after emitted requests resolverCalls] in Ho, Hr, Hc.
  fold listed in Ho, Hr, Hc.
  split; [exact Ho|]. split; [now rewrite Hr|]. split; [exact Hc|].
  assert (Hl : listMeetings graphToken
                 (Some (Math.min (limitOf (limit (listArgs date (Some n)))) (ofZ 50)))
                 (Server.date (listArgs date (Some n))) s = listed).
  { cbn [listArgs limit Server.date limitOf]. rewrite (@min_50_nonpositive n Hn).
    reflexivity. }
  assert (Hms : outcome (listMeetings graphToken
                           (Some (Math.min (limitOf (limit (listArgs date (Some n)))) (ofZ 50)))
                           (Server.date (listArgs date (Some n))) s) = Returned [])
    by (rewrite Hl; exact Ho).
  destruct (@handleListRecentMeetings_run graphToken (listArgs date (Some n)) s [] Hms)
    as (result & Hres & _ & Hreq & Hnil & _).
  fold run in Hres, Hreq. rewrite Hres, Hreq, (Hnil eq_refl), Hl, app_nil_r.
  split; reflexivity.
Qed.

(** Without events from the calendar listMeetings returns nothing. *)
Lemma listMeetings_without_events (accessToken : jsstring) (top : option number) (filterDate : option jsstring) (s : service) :
  teamsMeetings accessToken top filterDate s = [] ->
  let run := listMeetings accessToken top filterDate s in
  outcome run = Returned [] /\ List.length (requests (emitted run)) = 1%nat.
Proof.
  intros He run.
  pose proof (listMeetings_loop accessToken top filterDate s) as H.
  cbv zeta in H. destruct H as (Ho & _ & Hr & _). rewrite He in Ho, Hr.
  cbn [resolveUpTo ret outcome after emitted requests] in Ho, Hr.
  fold run in Ho, Hr. rewrite Hr. split; [exact Ho|reflexivity].
Qed.

(** X13.  A calendarView request that fails, or is answered by something
    else than an ok JSON object, is not reported as an error: the two tools
    answer as if the calendar were empty, handleListRecentMeetings that no
    meetings were found and handleGetMeetingTranscript that no meeting
    matches the name, each after that one request. *)
Theorem calendar_failure_reads_as_nothing_found (graphToken name : jsstring) (largs : ListArgs) (targs : TranscriptArgs) (s : service) :
  (forall startDT endDT top,
     objectOf (fst (respond (CalendarViewRequest startDT endDT top) graphToken s)) = None) ->
  given (meetingName targs) = Some name ->
  let listing := handleListRecentMeetings graphToken largs s in
  let transcript := handleGetMeetingTranscript graphToken targs s in
  outcome listing = Returned (reply (noMeetingsText (date largs)))
  /\ List.length (requests (emitted listing)) = 1%nat
  /\ outcome transcript = Returned (reply (notFoundText name (meetingDate targs)))
  /\ List.length (requests (emitted transcript)) = 1%nat.
Proof.
  intros Hfail Hname listing transcript.
  assert (Hev : forall date maxEvents, calendarEvents graphToken date maxEvents s = []).
  { intros date maxEvents. unfold calendarEvents. cbv zeta. now rewrite Hfail. }
  split; [|split; [|split]].
  - pose proof (@listMeetings_without_events graphToken
                  (Some (Math.min (limitOf (limit largs)) (ofZ 50))) (date largs) s) as H.
    cbv zeta in H. destruct H as [Hms _]; [unfold teamsMeetings; now rewrite Hev|].
    destruct (@handleListRecentMeetings_run graphToken largs s [] Hms)
      as (result & Hres & _ & _ & Hnil & _).
    subst listing. rewrite Hres, (Hnil eq_refl). reflexivity.
  - pose proof (@listMeetings_without_events graphToken
                  (Some (Math.min (limitOf (limit largs)) (ofZ 50))) (date largs) s) as H.
    cbv zeta in H. destruct H as [Hms Hlen]; [unfold teamsMeetings; now rewrite Hev|].
    destruct (@handleListRecentMeetings_run graphToken largs s [] Hms)
      as (result & _ & _ & Hreq & _ & _).
    subst listing. rewrite Hreq, app_nil_r. exact Hlen.
  - pose proof (findMeetingsByName_run graphToken name (meetingDate targs) s) as H.
    cbv zeta in H. destruct H as (_ & _ & Hnone & _).
    destruct Hnone as (Ho & _ & _);
      [unfold nameMatches; now rewrite candidates_events, Hev|].
    subst transcript. unfold handleGetMeetingTranscript. rewrite Hname.
    unfold bind. rewrite Ho. reflexivity.
  - pose proof (findMeetingsByName_run graphToken name (meetingDate targs) s) as H.
    cbv zeta in H. destruct H as (_ & _ & Hnone & _).
    destruct Hnone as (Ho & _ & Hlen);
      [unfold nameMatches; now rewrite candidates_events, Hev|].
    subst transcript. unfold handleGetMeetingTranscript. rewrite Hname.
    unfold bind. rewrite Ho. cbn [ret outcome after emitted]. now rewrite app_nil_r.
Qed.

Lemma lookups_no_list (rs : list Request) :
  forallb isMeetingLookup rs = true -> filter isTranscriptList rs = [].
Proof.
  induction rs as [|r rs IH]; [reflexivity|]. cbn [forallb filter].
  intros H. apply andb_true_iff in H as [Hr Hrs].
  destruct r; try discriminate. cbn [isTranscriptList]. exact (IH Hrs).
Qed.

(** findMeetingsByName asks for no transcript list and no content. *)
Lemma findMeetingsByName_requests (accessToken meetingName : jsstring) (meetingDate : option jsstring) (s : service) :
  let run := findMeetingsByName accessToken meetingName meetingDate s in
  filter isTranscriptList (requests (emitted run)) = []
  /\ filter isContentDownload (requests (emitted run)) = [].
Proof.
  intros run.
  pose proof (findMeetingsByName_loop accessToken meetingName meetingDate s) as H.
  cbv zeta in H. destruct H as (_ & Hr). fold run in Hr. rewrite Hr.
  match type of Hr with
  | _ = _ :: requests (emitted (resolveAll ?t ?evs ?r ?s1)) =>
      destruct (resolveAll_run t evs r s1) as (_ & _ & Hlk)
  end.
  cbn [filter isTranscriptList isContentDownload].
  split; [now apply lookups_no_list|now apply lookups_no_download].
Qed.

(** The requests of handleGetMeetingTranscript when a name is given. *)
Lemma handleGetMeetingTranscript_requests (graphToken name : jsstring) (args : TranscriptArgs) (s : service) :
  given (meetingName args) = Some name ->
  let found := findMeetingsByName graphToken name (meetingDate args) s in
  let run := handleGetMeetingTranscript graphToken args s in
  requests (emitted run)
  = requests (emitted found)
    ++ match outcome found with
       | Returned (m :: _) =>
           TranscriptList (transcriptsUrl (OnlineMeeting.id m))
           :: match outcome (listTranscripts graphToken (OnlineMeeting.id m) (after found)) with
              | Returned (t :: _) =>
                  [ContentDownload (contentUrl (OnlineMeeting.id m) (TranscriptInfo.id t))]
              | _ => []
              end
       | _ => []
       end
  /\ forall result, outcome run = Returned result -> isError result = false.
Proof.
  intros Hname found run. subst run. unfold handleGetMeetingTranscript. rewrite Hname.
  unfold bind. fold found.
  destruct (outcome found) as [[|m rest]|ex]; cbn [ret outcome after emitted].
  - rewrite ?app_nil_r. split; [reflexivity|]. intros r E. injection E as <-. reflexivity.
  - destruct (listTranscripts_run graphToken (OnlineMeeting.id m) (after found))
      as (He & _ & _).
    destruct (listTranscripts graphToken (OnlineMeeting.id m) (after found)) as [o s1 evs].
    cbn [outcome after emitted] in *. subst evs.
    destruct o as [[|t ts]|ex]; cbn [ret outcome after emitted].
    + read_trace. rewrite ?app_nil_r. split; [reflexivity|].
      intros r E. injection E as <-. reflexivity.
    + destruct (getTranscriptContent_run graphToken (OnlineMeeting.id m) (TranscriptInfo.id t) s1)
        as (He2 & _ & _).
      destruct (getTranscriptContent graphToken (OnlineMeeting.id m) (TranscriptInfo.id t) s1)
        as [o2 s2 evs2].
      cbn [outcome after emitted] in *. subst evs2.
      destruct o2 as [vtt|ex]; cbn [ret outcome after emitted]; read_trace;
        rewrite ?app_nil_r; (split; [reflexivity|]); intros r E;
        [injection E as <-; reflexivity|discriminate].
    + read_trace. rewrite ?app_nil_r. split; [reflexivity|]. intros r E. discriminate.
  - rewrite ?app_nil_r. split; [reflexivity|]. intros r E. discriminate.
Qed.

(** X14.  handleGetMeetingTranscript without a meeting name answers with an
    error and sends nothing; that is its only answer flagged as an error.
    With a name it sends, after the requests of findMeetingsByName, the
    transcript-list request for the first meeting found, if there is one,
    and then the download of the first transcript listed, if there is one:
    so at most one transcript list and one download in a call, and never a
    download without a list before it. *)
Theorem handleGetMeetingTranscript_request_discipline (graphToken : jsstring) (args : TranscriptArgs) (s : service) :
  let run := handleGetMeetingTranscript graphToken args s in
  (given (meetingName args) = None ->
     outcome run = Returned nameRequired /\ emitted run = [])
  /\ (forall result, outcome run = Returned result ->
        (isError result = true <-> given (meetingName args) = None))
  /\ (List.length (filter isTranscriptList (requests (emitted run))) <= 1)%nat
  /\ (List.length (filter isContentDownload (requests (emitted run))) <= 1)%nat
  /\ (forall name, given (meetingName args) = Some name ->
        let found := findMeetingsByName graphToken name (meetingDate args) s in
        requests (emitted run)
        = requests (emitted found)
          ++ match outcome found with
             | Returned (m :: _) =>
                 TranscriptList (transcriptsUrl (OnlineMeeting.id m))
                 :: match outcome (listTranscripts graphToken (OnlineMeeting.id m)
                                     (after found)) with
                    | Returned (t :: _) =>
                        [ContentDownload
                           (contentUrl (OnlineMeeting.id m) (TranscriptInfo.id t))]
                    | _ => []
                    end
             | _ => []
             end).
Proof.
  intros run. destruct (given (meetingName args)) as [name|] eqn:Hname.
  - pose proof (@handleGetMeetingTranscript_requests graphToken name args s Hname) as H.
    cbv zeta in H. destruct H as (Hr & He). fold run in Hr, He.
    destruct (findMeetingsByName_requests graphToken name (meetingDate args) s) as (Hl & Hd).
    split; [discriminate|]. split; [|split; [|split]].
    + intros result Hres. rewrite (He _ Hres). split; discriminate.
    + rewrite Hr, filter_app, Hl.
      destruct (outcome (findMeetingsByName graphToken name (meetingDate args) s))
        as [[|m rest]|ex]; cbn [app filter isTranscriptList List.length]; try lia.
      destruct (outcome (listTranscripts graphToken (OnlineMeeting.id m) _))
        as [[|t ts]|ex]; cbn; lia.
    + rewrite Hr, filter_app, Hd.
      destruct (outcome (findMeetingsByName graphToken name (meetingDate args) s))
        as [[|m rest]|ex]; cbn [app filter isContentDownload List.length]; try lia.
      destruct (outcome (listTranscripts graphToken (OnlineMeeting.id m) _))
        as [[|t ts]|ex]; cbn; lia.
    + intros name' E. injection E as <-. exact Hr.
  - assert (E : run = ret nameRequired s).
    { subst run. unfold handleGetMeetingTranscript. now rewrite Hname. }
    rewrite E. cbn [ret outcome after emitted requests filter List.length].
    split; [auto|]. split; [|split; [lia|split; [lia|discriminate]]].
    intros result H. injection H as <-. split; reflexivity.
Qed.

(** X15.  When findMeetingsByName finds a meeting, listTranscripts lists a
    transcript for the first one and getTranscriptContent delivers its
    text, handleGetMeetingTranscript answers with the header of that
    meeting and that transcript followed by the cleaned text, which is
    cleanVttTranscript of what was downloaded. *)
Theorem handleGetMeetingTranscript_returns_cleaned_text (graphToken name rawVtt : jsstring) (args : TranscriptArgs) (meeting : OnlineMeeting.t) (rest : list OnlineMeeting.t) (t0 : TranscriptInfo.t) (ts : list TranscriptInfo.t) (s : service) :
  given (meetingName args) = Some name ->
  let found := findMeetingsByName graphToken name (meetingDate args) s in
  outcome found = Returned (meeting :: rest) ->
  let listed := listTranscripts graphToken (OnlineMeeting.id meeting) (after found) in
  outcome listed = Returned (t0 :: ts) ->
  let downloaded := getTranscriptContent graphToken (OnlineMeeting.id meeting)
                      (TranscriptInfo.id t0) (after listed) in
  outcome downloaded = Returned rawVtt ->
  let run := handleGetMeetingTranscript graphToken args s in
  outcome run
    = Returned (reply (transcriptHeader meeting t0 ++ cleanVttTranscript rawVtt))
  /\ TranscriptInfo.meetingId t0 = OnlineMeeting.id meeting
  /\ List.length (filter isContentDownload (requests (emitted run))) = 1%nat
  /\ after run = after downloaded.
Proof.
  intros Hname found Hfound listed Hlisted downloaded Hdown run.
  pose proof (@handleGetMeetingTranscript_requests graphToken name args s Hname) as H.
  cbv zeta in H. destruct H as (Hr & _). fold found run in Hr.
  rewrite Hfound in Hr. fold listed in Hr. rewrite Hlisted in Hr.
  destruct (findMeetingsByName_requests graphToken name (meetingDate args) s) as (_ & Hd).
  fold found in Hd.
  assert (Hrun : outcome run
                 = Returned (reply (transcriptHeader meeting t0 ++ cleanVttTranscript rawVtt))
                 /\ after run = after downloaded).
  { subst run. unfold handleGetMeetingTranscript. rewrite Hname.
    unfold bind. fold found. rewrite Hfound. cbn [outcome after emitted].
    fold listed. rewrite Hlisted. cbn [outcome after emitted].
    fold downloaded. rewrite Hdown. split; reflexivity. }
  destruct Hrun as [Ho Ha]. split; [exact Ho|]. split; [|split; [|exact Ha]].
  - destruct (listTranscripts_run graphToken (OnlineMeeting.id meeting) (after found))
      as (_ & _ & Hout).
    fold listed in Hout. rewrite Hlisted in Hout.
    destruct (fst (respond _ graphToken (after found))) as [| st msg | [| | data] text];
      try discriminate.
    injection Hout as Hout.
    destruct data as [[[|x xs]|]]; cbn [valueOrEmpty List.map] in Hout;
      try discriminate.
    injection Hout as E1 _. rewrite E1. reflexivity.
  - rewrite Hr, filter_app, Hd. reflexivity.
Qed.

End Handlers.

(** *** Runs against the scripted services *)

(** The recorded weekly sync is listed after one probe. *)
Lemma handleListRecentMeetings_probes_witness :
  exists result,
    outcome (@handleListRecentMeetings recordedService token (listArgs None None) tt)
      = Returned result
    /\ isError result = false
    /\ requests (emitted (@handleListRecentMeetings recordedService token
                            (listArgs None None) tt))
       = requests (emitted (@listMeetings recordedService token (Some (ofZ 10)) None tt))
         ++ List.map probeRequest [weeklySync]
    /\ ([weeklySync] = [] -> result = reply (noMeetingsText None))
    /\ (forall m, In m [weeklySync] ->
          includes (content result) (js "**" ++ subject (listingOf m false) ++ js "**") = true
          /\ includes (content result) (js "Meeting ID: " ++ OnlineMeeting.id m) = true).
Proof.
  apply (@handleListRecentMeetings_probes_each_meeting recordedService token
           (listArgs None None) tt [weeklySync]).
  vm_compute; reflexivity.
Defined.

Lemma handleListRecentMeetings_simple_witness :
  exists result ms,
    outcome (@handleListRecentMeetings recordedService token (listArgs None None) tt)
      = Returned result
    /\ isError result = false
    /\ outcome (@listMeetings recordedService token (Some (ofZ 10)) None tt) = Returned ms
    /\ List.length (requests (emitted (@handleListRecentMeetings recordedService token
                                         (listArgs None None) tt)))
       = (1 + (List.length ms
               + failedResolutions (emitted (@handleListRecentMeetings recordedService token
                                               (listArgs None None) tt)))
          + List.length ms)%nat.
Proof.
  apply (@handleListRecentMeetings_returns_on_simple_urls recordedService token
           (listArgs None None) tt).
  vm_compute; reflexivity.
Defined.

(** Fifty-one meetings in the calendar, and a limit of zero. *)
Lemma handleListRecentMeetings_zero_limit_witness :
  outcome (@listMeetings busyService token (Some (ofZ 0)) None tt) = Returned []
  /\ List.length (requests (emitted (@listMeetings busyService token (Some (ofZ 0)) None tt)))
     = 1%nat
  /\ resolverCalls (emitted (@listMeetings busyService token (Some (ofZ 0)) None tt)) = []
  /\ outcome (@handleListRecentMeetings busyService token (listArgs None (Some (ofZ 0))) tt)
     = Returned (reply (noMeetingsText None))
  /\ requests (emitted (@handleListRecentMeetings busyService token
                          (listArgs None (Some (ofZ 0))) tt))
     = requests (emitted (@listMeetings busyService token (Some (ofZ 0)) None tt)).
Proof.
  apply (@handleListRecentMeetings_nonpositive_limit busyService token None (ofZ 0) tt).
  reflexivity.
Defined.

(** A service out of reach. *)
Lemma calendar_failure_witness :
  outcome (@handleListRecentMeetings unreachable token (listArgs None None) tt)
    = Returned (reply (noMeetingsText None))
  /\ List.length (requests (emitted (@handleListRecentMeetings unreachable token
                                       (listArgs None None) tt))) = 1%nat
  /\ outcome (@handleGetMeetingTranscript unreachable token weeklyArgs tt)
     = Returned (reply (notFoundText (js "weekly") None))
  /\ List.length (requests (emitted (@handleGetMeetingTranscript unreachable token
                                       weeklyArgs tt))) = 1%nat.
Proof.
  apply (@calendar_failure_reads_as_nothing_found unreachable token (js "weekly")
           (listArgs None None) weeklyArgs tt);
    [intros; reflexivity|reflexivity].
Defined.

(** The transcript of the recorded weekly sync. *)
Lemma handleGetMeetingTranscript_cleaned_witness :
  outcome (@handleGetMeetingTranscript recordedService token weeklyArgs tt)
    = Returned (reply (transcriptHeader weeklySync
                         (TranscriptInfo.setMeetingId (js "MSo2") firstTranscript)
                       ++ cleanVttTranscript Transcript.literalVtt))
  /\ TranscriptInfo.meetingId (TranscriptInfo.setMeetingId (js "MSo2") firstTranscript)
     = OnlineMeeting.id weeklySync
  /\ List.length (filter isContentDownload
                    (requests (emitted (@handleGetMeetingTranscript recordedService token
                                          weeklyArgs tt)))) = 1%nat
  /\ after (@handleGetMeetingTranscript recordedService token weeklyArgs tt) = tt.
Proof.
  apply (@handleGetMeetingTranscript_returns_cleaned_text recordedService token
           (js "weekly") Transcript.literalVtt weeklyArgs weeklySync []
           (TranscriptInfo.setMeetingId (js "MSo2") firstTranscript) [] tt);
    vm_compute; reflexivity.
Defined.

End ServerRuns.

(* ================================================================== *)
(** ** More properties of the normaliser *)

Module VttRuns.

Import JsString VttParser Transcript Cues StringFacts IncludesFacts VttFacts.
Open Scope N_scope.

(** *** Line endings *)

Lemma splitLines_crlf (l rest : jsstring) :
  isOneLine l = true ->
  splitLines (l ++ 13 :: 10 :: rest) = l :: splitLines rest.
Proof.
  induction l as [|c r IH]; [reflexivity|]. cbn [isOneLine forallb].
  intros H. apply andb_true_iff in H as [Hc Hr]. apply negb_true_iff in Hc.
  cbn [app splitLines]. rewrite Hc, (IH Hr).
  assert (E : startsWithLF (r ++ 13 :: 10 :: rest) = false).
  { destruct r as [|x r']; [reflexivity|]. cbn [isOneLine forallb] in Hr.
    apply andb_true_iff in Hr as [Hx _]. apply negb_true_iff in Hx. exact Hx. }
  rewrite E, andb_false_r. reflexivity.
Qed.

(** A line feed alone takes a carriage return before it along. *)
Lemma splitLines_lf (l rest : jsstring) :
  isOneLine l = true ->
  exists l', splitLines (l ++ 10 :: rest) = l' :: splitLines rest
             /\ (l = l' \/ l = l' ++ [13]).
Proof.
  induction l as [|c r IH]; [exists []; split; [reflexivity|now left]|].
  cbn [isOneLine forallb]. intros H. apply andb_true_iff in H as [Hc Hr].
  apply negb_true_iff in Hc. destruct (IH Hr) as (r' & Hs & Hrel).
  cbn [app splitLines]. rewrite Hc, Hs.
  destruct r as [|x r0].
  - cbn [app startsWithLF]. rewrite N.eqb_refl, andb_true_r.
    cbn [app splitLines] in Hs. rewrite N.eqb_refl in Hs. injection Hs as <-.
    destruct (N.eqb_spec c 13) as [->|Hn].
    + exists []. split; [reflexivity|now right].
    + exists [c]. split; [reflexivity|now left].
  - assert (E : startsWithLF ((x :: r0) ++ 10 :: rest) = false).
    { cbn [isOneLine forallb] in Hr. apply andb_true_iff in Hr as [Hx _].
      apply negb_true_iff in Hx. exact Hx. }
    rewrite E, andb_false_r. exists (c :: r'). split; [reflexivity|].
    destruct Hrel as [->| ->]; [now left|now right].
Qed.

Lemma splitLines_one (l : jsstring) : isOneLine l = true -> splitLines l = [l].
Proof.
  induction l as [|c r IH]; [reflexivity|]. cbn [isOneLine forallb].
  intros H. apply andb_true_iff in H as [Hc Hr]. apply negb_true_iff in Hc.
  cbn [splitLines]. rewrite Hc, (IH Hr).
  assert (E : startsWithLF r = false).
  { destruct r as [|x r']; [reflexivity|]. cbn [isOneLine forallb] in Hr.
    apply andb_true_iff in Hr as [Hx _]. apply negb_true_iff in Hx. exact Hx. }
  rewrite E, andb_false_r. reflexivity.
Qed.

Lemma trimEnd_snoc (a : jsstring) (c : N) :
  isSpace c = true -> trimEnd (a ++ [c]) = trimEnd a.
Proof.
  intros Hc. induction a as [|x a IH]; [cbn; now rewrite Hc|].
  cbn [app trimEnd]. now rewrite IH.
Qed.

Lemma trimStart_snoc (a : jsstring) (c : N) :
  isSpace c = true ->
  trimEnd (trimStart (a ++ [c])) = trimEnd (trimStart a).
Proof.
  intros Hc. induction a as [|x a IH]; [cbn; now rewrite Hc|].
  cbn [app trimStart]. destruct (isSpace x); [exact IH|].
  change (x :: a ++ [c]) with ((x :: a) ++ [c]). now apply trimEnd_snoc.
Qed.

Lemma trim_cr (l l' : jsstring) : l = l' \/ l = l' ++ [13] -> trim l = trim l'.
Proof. intros [->| ->]; [reflexivity|]. now apply trimStart_snoc. Qed.

(** The loop reads a line through its trimmed form only. *)
Lemma cleanStep_trim (st : LoopState) (a b : jsstring) :
  trim a = trim b -> cleanStep st a = cleanStep st b.
Proof. intros H. unfold cleanStep. now rewrite H. Qed.

Lemma fold_cleanStep_trim (xs ys : list jsstring) (st : LoopState) :
  Forall2 (fun a b => trim a = trim b) xs ys ->
  fold_left cleanStep xs st = fold_left cleanStep ys st.
Proof.
  intros H. revert st. induction H as [|a b xs ys Hab _ IH]; intros st; [reflexivity|].
  cbn [fold_left]. rewrite (cleanStep_trim st _ _ Hab). apply IH.
Qed.

Lemma splitLines_line_endings (lines : list jsstring) :
  forallb isOneLine lines = true ->
  Forall2 (fun a b => trim a = trim b)
    (splitLines (join [13; 10] lines)) (splitLines (join [10] lines)).
Proof.
  induction lines as [|l ls IH]; [repeat constructor|].
  cbn [forallb]. intros H. apply andb_true_iff in H as [Hl Hls].
  destruct ls as [|l2 ls].
  - cbn [join]. rewrite (splitLines_one _ Hl). repeat constructor.
  - change (join [13; 10] (l :: l2 :: ls)) with (l ++ 13 :: 10 :: join [13; 10] (l2 :: ls)).
    change (join [10] (l :: l2 :: ls)) with (l ++ 10 :: join [10] (l2 :: ls)).
    rewrite (splitLines_crlf _ _ Hl).
    destruct (splitLines_lf l (join [10] (l2 :: ls)) Hl) as (l' & -> & Hrel).
    constructor; [now apply trim_cr|exact (IH Hls)].
Qed.

(** X16.  Line endings do not matter: a file whose lines are separated by
    carriage return and line feed is cleaned to the same text as the file
    with the same lines separated by line feeds alone. *)
Theorem cleanVttTranscript_line_endings (lines : list jsstring) :
  forallb isOneLine lines = true ->
  cleanVttTranscript (join [13; 10] lines) = cleanVttTranscript (join [10] lines).
Proof.
  intros H. unfold cleanVttTranscript, cleanLines.
  now rewrite (fold_cleanStep_trim _ (splitLines_line_endings _ H)).
Qed.

(** *** Voice tags *)

Lemma replaceVoiceOpen_cons (c : N) (r : jsstring) :
  (c =? 60) = false -> replaceVoiceOpen 0 (c :: r) = c :: replaceVoiceOpen 0 r.
Proof.
  intros Hc. cbn [replaceVoiceOpen]. unfold matchVoiceOpen.
  destruct r as [|v r']; [reflexivity|]. now rewrite Hc.
Qed.

Lemma replaceVoiceOpen_match (c : N) (r name : jsstring) (len : nat) :
  matchVoiceOpen (c :: r) = Some (name, len) ->
  replaceVoiceOpen 0 (c :: r) = name ++ js ": " ++ replaceVoiceOpen (len - 1) r.
Proof. intros H. cbn [replaceVoiceOpen]. now rewrite H. Qed.

Lemma replaceVoiceOpen_app (a b : jsstring) :
  forallb notLt a = true -> replaceVoiceOpen 0 (a ++ b) = a ++ replaceVoiceOpen 0 b.
Proof.
  induction a as [|c a IH]; [reflexivity|]. cbn [forallb]. intros H.
  apply andb_true_iff in H as [Hc Ha]. apply negb_true_iff in Hc.
  cbn [app]. now rewrite (@replaceVoiceOpen_cons c (a ++ b) Hc), (IH Ha).
Qed.

Lemma replaceVoiceOpen_skip (a b : jsstring) :
  replaceVoiceOpen (List.length a) (a ++ b) = replaceVoiceOpen 0 b.
Proof.
  induction a as [|c a IH]; [destruct b; reflexivity|]. exact IH.
Qed.

Lemma removeVoiceClose_cons (c : N) (r : jsstring) :
  (c =? 60) = false -> removeVoiceClose 0 (c :: r) = c :: removeVoiceClose 0 r.
Proof.
  intros Hc. cbn [removeVoiceClose].
  assert (E : matchVoiceClose (c :: r) = false).
  { unfold matchVoiceClose. destruct r as [|b [|x [|d r']]]; try reflexivity.
    now rewrite Hc. }
  now rewrite E.
Qed.

Lemma removeVoiceClose_app (a b : jsstring) :
  forallb notLt a = true -> removeVoiceClose 0 (a ++ b) = a ++ removeVoiceClose 0 b.
Proof.
  induction a as [|c a IH]; [reflexivity|]. cbn [forallb]. intros H.
  apply andb_true_iff in H as [Hc Ha]. apply negb_true_iff in Hc.
  cbn [app]. now rewrite (@removeVoiceClose_cons c (a ++ b) Hc), (IH Ha).
Qed.

Section WellFormedCue.

Variables sp tx : jsstring.
Hypothesis Hsp : isPlain sp = true.
Hypothesis Hcolon : forallb notColon sp = true.
Hypothesis Hgt : forallb notGt sp = true.
Hypothesis Htx : isPlain tx = true.

Local Notation "'cue'" := {| voice := sp; said := tx |} (only parsing).

Lemma voiceLine_eq :
  voiceLine cue = 60 :: 118 :: 32 :: sp ++ 62 :: tx ++ js "</v>".
Proof. reflexivity. Qed.

Lemma voiceLine_trimmed : trim (voiceLine cue) = voiceLine cue.
Proof.
  apply trim_fixed; [reflexivity|]. rewrite voiceLine_eq.
  change (60 :: 118 :: 32 :: sp ++ 62 :: tx ++ js "</v>")
    with ([60; 118; 32] ++ sp ++ [62] ++ tx ++ js "</v>").
  rewrite !endsWithSpace_app; try discriminate; try reflexivity.
  - destruct tx; discriminate.
  - destruct sp; discriminate.
Qed.

Lemma voice_open : matchVoiceOpen (voiceLine cue) = Some (sp, (4 + List.length sp)%nat).
Proof.
  destruct (isPlain_spec _ Hsp) as (Hne & Hs & _).
  rewrite voiceLine_eq. unfold matchVoiceOpen.
  change ((60 =? 60) && (upperAscii 118 =? 86)) with true. cbv iota.
  cbn [span]. change (isSpace 32) with true. cbv iota.
  assert (E1 : span isSpace (sp ++ 62 :: tx ++ js "</v>") = ([], sp ++ 62 :: tx ++ js "</v>")).
  { destruct sp as [|c r]; [congruence|]. cbn [app span]. cbn in Hs. now rewrite Hs. }
  rewrite E1. rewrite (span_app notGt sp 62 (tx ++ js "</v>") Hgt eq_refl).
  destruct sp as [|c r]; [congruence|]. cbn [List.length]. f_equal. f_equal. lia.
Qed.

Lemma paragraph_notLt : forallb notLt (paragraph sp tx) = true.
Proof.
  destruct (isPlain_spec _ Hsp) as (_ & _ & _ & _ & Hu1).
  destruct (isPlain_spec _ Htx) as (_ & _ & _ & _ & Hu2).
  rewrite paragraph_eq, forallb_app, (isPlainUnit_notLt _ Hu1). cbn [forallb].
  now rewrite (isPlainUnit_notLt _ Hu2).
Qed.

Lemma paragraph_trimmed :
  paragraph sp tx <> [] /\ trim (paragraph sp tx) = paragraph sp tx
  /\ noSpaceRun (paragraph sp tx) = true.
Proof.
  destruct (isPlain_spec _ Hsp) as (Hne1 & Hs1 & _ & Hrun1 & _).
  destruct (isPlain_spec _ Htx) as (Hne2 & Hs2 & He2 & Hrun2 & _).
  rewrite paragraph_eq. split; [destruct sp; [congruence|discriminate]|]. split.
  - apply trim_fixed; [destruct sp; [congruence|exact Hs1]|].
    rewrite endsWithSpace_app by discriminate.
    destruct tx as [|c r]; [congruence|exact He2].
  - apply noSpaceRun_app; [exact Hrun1|reflexivity|]. cbn. now rewrite Hs2, Hrun2.
Qed.

(** The four replacements turn the payload line into the paragraph. *)
Lemma cleanDialogue_voiceLine : cleanDialogue (voiceLine cue) = paragraph sp tx.
Proof.
  pose proof paragraph_notLt as Hlt.
  destruct paragraph_trimmed as (_ & Htrim & Hrun).
  assert (Hlt2 : forallb notLt tx = true).
  { destruct (isPlain_spec _ Htx) as (_ & _ & _ & _ & Hu2). now apply isPlainUnit_notLt. }
  assert (E1 : replaceVoiceOpen 0 (voiceLine cue) = paragraph sp tx ++ js "</v>").
  { pose proof voice_open as Hm. rewrite voiceLine_eq in Hm |- *.
    rewrite (@replaceVoiceOpen_match _ _ _ _ Hm).
    replace (4 + List.length sp - 1)%nat with (List.length ((118 :: 32 :: sp) ++ [62]))
      by (rewrite length_app; cbn [List.length]; lia).
    replace (118 :: 32 :: sp ++ 62 :: tx ++ js "</v>")
      with (((118 :: 32 :: sp) ++ [62]) ++ tx ++ js "</v>")
      by (rewrite <- app_assoc; reflexivity).
    rewrite replaceVoiceOpen_skip, (replaceVoiceOpen_app _ _ Hlt2).
    rewrite paragraph_eq, <- app_assoc. reflexivity. }
  unfold cleanDialogue. rewrite E1, (removeVoiceClose_app _ _ Hlt).
  change (removeVoiceClose 0 (js "</v>")) with (@nil N). rewrite app_nil_r.
  rewrite (removeTags_fixed _ Hlt), (collapseSpaces_fixed _ Hrun). exact Htrim.
Qed.

(** The loop takes the payload line of a cue for dialogue. *)
Lemma cleanStep_voiceLine (st : LoopState) :
  skipNote st = false ->
  cleanStep st (voiceLine cue)
    = {| cleanedLines := cleanedLines st ++ [paragraph sp tx]; skipNote := false |}.
Proof.
  intros Hskip. destruct paragraph_trimmed as (Hne & _).
  apply truthy_nonempty in Hne.
  unfold cleanStep. rewrite voiceLine_trimmed, cleanDialogue_voiceLine, Hne, Hskip.
  rewrite voiceLine_eq. reflexivity.
Qed.

(** The merge pass finds the speaker and the text of the paragraph. *)
Lemma speakerMatch_paragraph : speakerMatch (paragraph sp tx) = Some (sp, tx).
Proof.
  destruct (isPlain_spec _ Hsp) as (Hne & _).
  destruct (isPlain_spec _ Htx) as (_ & Hs & _ & _ & Hu).
  unfold speakerMatch. rewrite paragraph_eq.
  rewrite span_app; [|exact Hcolon|reflexivity].
  destruct sp as [|c r]; [congruence|].
  change (skipSpaces (32 :: tx)) with (skipSpaces tx).
  rewrite (skipSpaces_fixed _ Hs), span_all; [reflexivity|].
  clear - Hu. induction tx as [|x t IH]; [reflexivity|]. cbn [forallb] in *.
  apply andb_true_iff in Hu as [Hx Ht]. rewrite (IH Ht), andb_true_r.
  unfold isPlainUnit in Hx. now apply andb_true_iff in Hx as [_ Hx].
Qed.

Lemma viewStep_paragraph (st : ViewState) :
  viewStep st (paragraph sp tx)
  = if streq sp (speaker st)
    then {| entries := entries st; speaker := speaker st;
            buffer := buffer st ++ js " " ++ tx |}
    else {| entries := if truthy (speaker st)
                       then entries st ++ [Turn (speaker st) (buffer st)]
                       else entries st;
            speaker := sp; buffer := tx |}.
Proof.
  destruct (isPlain_spec _ Hsp) as (_ & Hs1 & He1 & _).
  destruct (isPlain_spec _ Htx) as (_ & Hs2 & He2 & _).
  unfold viewStep. rewrite speakerMatch_paragraph.
  now rewrite (trim_fixed _ Hs1 He1), (trim_fixed _ Hs2 He2).
Qed.

End WellFormedCue.

(** *** A file of cues *)

Lemma splitLines_join_trim (ls : list jsstring) :
  ls <> [] -> forallb isOneLine ls = true ->
  Forall2 (fun a b => trim a = trim b) (splitLines (join [10] ls)) ls.
Proof.
  induction ls as [|l ls IH]; [congruence|]. intros _ H.
  cbn [forallb] in H. apply andb_true_iff in H as [Hl Hls].
  destruct ls as [|l2 ls].
  - cbn [join]. rewrite (splitLines_one _ Hl). repeat constructor.
  - change (join [10] (l :: l2 :: ls)) with (l ++ 10 :: join [10] (l2 :: ls)).
    destruct (splitLines_lf l (join [10] (l2 :: ls)) Hl) as (l' & -> & Hrel).
    constructor; [symmetry; now apply trim_cr|apply IH; [discriminate|exact Hls]].
Qed.

Lemma isOneLine_app (a b : jsstring) :
  isOneLine (a ++ b) = isOneLine a && isOneLine b.
Proof. apply forallb_app. Qed.

Lemma isPlainUnit_oneLine (s : jsstring) :
  forallb isPlainUnit s = true -> isOneLine s = true.
Proof.
  induction s as [|c r IH]; [reflexivity|]. cbn [forallb isOneLine]. intros H.
  apply andb_true_iff in H as [Hc Hr]. fold (isOneLine r). rewrite (IH Hr), andb_true_r.
  apply isPlainUnit_spec in Hc as (_ & H10 & _). apply negb_true_iff. now apply N.eqb_neq.
Qed.

Lemma cleanStep_dropped (st : LoopState) (l : jsstring) :
  isDroppedLine l = true -> skipNote st = false ->
  cleanStep st l = {| cleanedLines := cleanedLines st; skipNote := false |}.
Proof.
  intros H Hskip. unfold isDroppedLine in H. cbv zeta in H.
  assert (Est : st = {| cleanedLines := cleanedLines st; skipNote := false |})
    by (destruct st; cbn in *; now subst).
  unfold cleanStep.
  destruct (negb (truthy (trim l))); [reflexivity|]. cbn [orb] in H.
  apply andb_true_iff in H as [Hn H]. apply negb_true_iff in Hn.
  destruct (isHeaderLine (trim l)); [exact Est|]. rewrite Hn, Hskip.
  destruct (isTimingLine (trim l)); [exact Est|].
  destruct (isNumericId (trim l)); [exact Est|].
  destruct (isUuidId (trim l)); [exact Est|discriminate].
Qed.

Lemma itemLine_oneLine (i : Item) : isWellFormed i = true -> isOneLine (itemLine i) = true.
Proof.
  destruct i as [l|[sp tx]]; cbn [isWellFormed itemLine voice said]; intros H.
  - now apply andb_true_iff in H as [_ H].
  - apply andb_true_iff in H as [H Htx]. apply andb_true_iff in H as [H _].
    apply andb_true_iff in H as [Hsp _].
    destruct (isPlain_spec _ Hsp) as (_ & _ & _ & _ & Hu1).
    destruct (isPlain_spec _ Htx) as (_ & _ & _ & _ & Hu2).
    unfold voiceLine. cbn [voice said]. rewrite !isOneLine_app.
    now rewrite (isPlainUnit_oneLine _ Hu1), (isPlainUnit_oneLine _ Hu2).
Qed.

Lemma itemLines_oneLine (items : list Item) :
  forallb isWellFormed items = true ->
  forallb isOneLine (List.map itemLine items) = true.
Proof.
  induction items as [|x xs IH]; [reflexivity|]. cbn [forallb List.map]. intros H.
  apply andb_true_iff in H as [Hx Hxs].
  now rewrite (itemLine_oneLine _ Hx), (IH Hxs).
Qed.

(** The loop keeps the paragraphs of the cues, in order, and nothing else. *)
Lemma fold_cleanStep_items (items : list Item) (st : LoopState) :
  forallb isWellFormed items = true -> skipNote st = false ->
  fold_left cleanStep (List.map itemLine items) st
  = {| cleanedLines := cleanedLines st ++ List.map paragraphOf (cuesOf items);
       skipNote := false |}.
Proof.
  revert st. induction items as [|i items IH]; intros st H Hskip.
  - destruct st as [ls sk]. cbn in *. subst sk. now rewrite app_nil_r.
  - cbn [forallb] in H. apply andb_true_iff in H as [Hi Hitems].
    cbn [List.map fold_left]. destruct i as [l|[sp tx]]; cbn [isWellFormed voice said] in Hi.
    + apply andb_true_iff in Hi as [Hd _]. cbn [itemLine].
      rewrite (cleanStep_dropped _ _ Hd Hskip), (IH _ Hitems) by reflexivity.
      reflexivity.
    + apply andb_true_iff in Hi as [Hi Htx]. apply andb_true_iff in Hi as [Hi Hgt].
      apply andb_true_iff in Hi as [Hsp Hcolon]. cbn [itemLine].
      rewrite (@cleanStep_voiceLine sp tx Hsp Hcolon Hgt Htx st Hskip), (IH _ Hitems) by reflexivity.
      cbn [cleanedLines cuesOf flat_map app List.map]. rewrite <- app_assoc. reflexivity.
Qed.

Lemma cuesOf_wellFormed (items : list Item) :
  forallb isWellFormed items = true ->
  forallb (fun c => isWellFormed (Spoken c)) (cuesOf items) = true.
Proof.
  induction items as [|i items IH]; [reflexivity|]. cbn [forallb]. intros H.
  apply andb_true_iff in H as [Hi Hitems]. destruct i as [l|c]; cbn [cuesOf flat_map app].
  - exact (IH Hitems).
  - cbn [forallb]. fold (cuesOf items). now rewrite Hi, (IH Hitems).
Qed.

(** The merge pass makes the turns of the cues. *)
Lemma fold_viewStep_cues (cues : list Cue) (st : ViewState) :
  forallb (fun c => isWellFormed (Spoken c)) cues = true ->
  speaker st <> [] ->
  viewFlush (fold_left viewStep (List.map paragraphOf cues) st)
  = entries st ++ turnsFrom (speaker st) (buffer st) cues.
Proof.
  revert st. induction cues as [|[sp tx] cues IH]; intros st H Hne.
  - cbn. unfold viewFlush. apply truthy_nonempty in Hne. now rewrite Hne.
  - cbn [forallb isWellFormed voice said] in H. apply andb_true_iff in H as [Hc Hcues].
    apply andb_true_iff in Hc as [Hc Htx]. apply andb_true_iff in Hc as [Hc Hgt].
    apply andb_true_iff in Hc as [Hsp Hcolon].
    cbn [List.map fold_left turnsFrom voice said].
    change (paragraphOf {| voice := sp; said := tx |}) with (paragraph sp tx).
    rewrite (@viewStep_paragraph sp tx Hsp Hcolon Hgt Htx st).
    destruct (streq sp (speaker st)).
    + rewrite (IH _ Hcues) by exact Hne. reflexivity.
    + rewrite (IH _ Hcues).
      * cbn [entries speaker buffer]. apply truthy_nonempty in Hne. rewrite Hne.
        now rewrite <- app_assoc.
      * cbn [speaker]. destruct (isPlain_spec _ Hsp) as (Hn & _). exact Hn.
Qed.

Lemma paragraphsOf_cues (cues : list Cue) :
  forallb (fun c => isWellFormed (Spoken c)) cues = true ->
  paragraphsOf (List.map paragraphOf cues) = turns cues.
Proof.
  destruct cues as [|[sp tx] cues]; [reflexivity|]. intros H.
  pose proof H as H0.
  cbn [forallb isWellFormed voice said] in H. apply andb_true_iff in H as [Hc Hcues].
  apply andb_true_iff in Hc as [Hc Htx]. apply andb_true_iff in Hc as [Hc Hgt].
  apply andb_true_iff in Hc as [Hsp Hcolon].
  destruct (isPlain_spec _ Hsp) as (Hn & _).
  unfold paragraphsOf. cbn [List.map fold_left turns voice said].
  change (paragraphOf {| voice := sp; said := tx |}) with (paragraph sp tx).
  rewrite (@viewStep_paragraph sp tx Hsp Hcolon Hgt Htx viewInit).
  assert (E : streq sp (speaker viewInit) = false) by (apply streq_neq; exact Hn).
  rewrite E. cbn [viewInit speaker truthy entries buffer].
  rewrite (fold_viewStep_cues _ _ Hcues); [reflexivity|exact Hn].
Qed.

(** A file of well-formed items, with either line ending, is cleaned to the
    turns of its cues. *)
Lemma cleanVttTranscript_document (items : list Item) :
  forallb isWellFormed items = true ->
  cleanVttTranscript (document items)
  = join [10] (List.map render (turns (cuesOf items))).
Proof.
  intros H. destruct items as [|i items]; [reflexivity|].
  pose proof (itemLines_oneLine _ H) as Hlines.
  unfold cleanVttTranscript, cleanLines, document.
  rewrite (fold_cleanStep_trim _
             (splitLines_join_trim (ls := List.map itemLine (i :: items))
                ltac:(discriminate) Hlines)).
  rewrite (fold_cleanStep_items _ _ H) by reflexivity.
  cbn [cleanedLines app]. rewrite mergeSpeakerLines_paragraphs.
  now rewrite (paragraphsOf_cues _ (cuesOf_wellFormed _ H)).
Qed.

(** X17.  A transcript file as Teams writes it is cleaned to the turns of
    its cues: when every line is blank, a header, a timing line, a cue
    identifier, or a cue payload [<v Speaker>text</v>] with a plain speaker
    without [':'] and ['>'] and a plain text, the result has one paragraph
    [Speaker: text] for each run of cues of the same speaker, with the
    texts of the run joined by single spaces, in the order of the file, and
    nothing else; so it is with line feeds and with carriage returns and
    line feeds between the lines. *)
Theorem cleanVttTranscript_merges_cues (items : list Item) :
  forallb isWellFormed items = true ->
  cleanVttTranscript (join [10] (List.map itemLine items))
    = join [10] (List.map render (turns (cuesOf items)))
  /\ cleanVttTranscript (join [13; 10] (List.map itemLine items))
     = join [10] (List.map render (turns (cuesOf items))).
Proof.
  intros H. pose proof (cleanVttTranscript_document _ H) as E. unfold document in E.
  split; [exact E|]. rewrite <- E.
  unfold cleanVttTranscript, cleanLines.
  now rewrite (fold_cleanStep_trim _
                 (splitLines_line_endings _ (itemLines_oneLine _ H))).
Qed.

(** Three cues, two of them in a row of the same speaker. *)
Lemma cleanVttTranscript_cues_witness :
  cleanVttTranscript (join [10] (List.map itemLine standupItems))
    = js ("Alice Smith: Good morning: shall we start? Bob first." ++ lf
          ++ "Bob: Nothing new > yesterday.")%string
  /\ cleanVttTranscript (join [13; 10] (List.map itemLine standupItems))
     = js ("Alice Smith: Good morning: shall we start? Bob first." ++ lf
           ++ "Bob: Nothing new > yesterday.")%string.
Proof.
  apply (cleanVttTranscript_merges_cues standupItems).
  vm_compute; reflexivity.
Defined.

(** The same file with either line ending. *)
Lemma cleanVttTranscript_line_endings_witness :
  cleanVttTranscript (join [13; 10] (List.map itemLine standupItems))
  = cleanVttTranscript (join [10] (List.map itemLine standupItems)).
Proof.
  apply (cleanVttTranscript_line_endings (List.map itemLine standupItems)).
  vm_compute; reflexivity.
Defined.

(** *** Nothing is lost in the merge pass *)

Lemma isKeptIn_grows (es es' : list Entry) (line : jsstring) :
  growsTo es es' -> isKeptIn es line -> isKeptIn es' line.
Proof.
  intros Hg. unfold isKeptIn. destruct (speakerMatch line) as [[g1 g2]|].
  - intros (text & Hin & Hinc). destruct (Hg _ Hin) as [H|(sp & tx & more & E & H)].
    + now exists text.
    + injection E as <- <-. exists (text ++ more). split; [exact H|].
      now apply includes_left.
  - intros [Hin|(sp & text & Hin & Hinc)].
    + destruct (Hg _ Hin) as [H|(sp & tx & more & E & H)]; [now left|discriminate].
    + right. destruct (Hg _ Hin) as [H|(sp' & tx & more & E & H)].
      * now exists sp, text.
      * injection E as <- <-. exists sp, (text ++ more). split; [exact H|].
        now apply includes_left.
Qed.

Lemma growsTo_snoc (es : list Entry) (e : Entry) : growsTo es (es ++ [e]).
Proof. intros x Hx. left. apply in_or_app. now left. Qed.

(** The turn at the end gets more text. *)
Lemma growsTo_last (es : list Entry) (sp text more : jsstring) :
  growsTo (es ++ [Turn sp text]) (es ++ [Turn sp (text ++ more)]).
Proof.
  intros x Hx. apply in_app_or in Hx as [Hx|[<-|[]]].
  - left. apply in_or_app. now left.
  - right. exists sp, text, more. split; [reflexivity|].
    apply in_or_app. right. now left.
Qed.

(** One step of the merge pass loses no paragraph, and keeps its line. *)
Lemma viewStep_keeps (st : ViewState) (line : jsstring) :
  isTrimmedLine line ->
  growsTo (viewFlush st) (viewFlush (viewStep st line))
  /\ isKeptIn (viewFlush (viewStep st line)) line.
Proof.
  intros Hline. unfold viewStep, isKeptIn.
  destruct (speakerMatch line) as [[g1 g2]|] eqn:Hm.
  - pose proof (speakerMatch_speaker Hline Hm) as Hsp.
    pose proof (proj2 (truthy_nonempty _) Hsp) as Ht.
    destruct (streq (trim g1) (speaker st)) eqn:Heq.
    + apply streq_eq in Heq. unfold viewFlush. cbn [speaker entries buffer].
      rewrite <- Heq, Ht. split; [apply growsTo_last|].
      exists (buffer st ++ js " " ++ trim g2). split.
      * apply in_or_app. right. now left.
      * apply includes_right, includes_right, includes_self.
    + unfold viewFlush at 2 3. cbn [speaker entries buffer]. rewrite Ht.
      change (if truthy (speaker st)
              then entries st ++ [Turn (speaker st) (buffer st)]
              else entries st) with (viewFlush st).
      split; [apply growsTo_snoc|].
      exists (trim g2). split; [apply in_or_app; right; now left|apply includes_self].
  - destruct (truthy (speaker st)) eqn:Ht.
    + unfold viewFlush. cbn [speaker entries buffer]. rewrite Ht.
      split; [apply growsTo_last|]. right.
      exists (speaker st), (buffer st ++ js " " ++ line). split.
      * apply in_or_app. right. now left.
      * apply includes_right, includes_right, includes_self.
    + unfold viewFlush. cbn [speaker entries buffer]. rewrite Ht.
      split; [apply growsTo_snoc|]. left. apply in_or_app. right. now left.
Qed.

Lemma fold_viewStep_keeps (lines : list jsstring) (st : ViewState) :
  Forall isTrimmedLine lines ->
  growsTo (viewFlush st) (viewFlush (fold_left viewStep lines st))
  /\ forall line, In line lines ->
       isKeptIn (viewFlush (fold_left viewStep lines st)) line.
Proof.
  revert st. induction lines as [|l ls IH]; intros st Hl.
  - split; [intros e He; now left|intros line []].
  - inversion Hl as [|? ? Hl1 Hls]; subst. cbn [fold_left].
    destruct (@viewStep_keeps st l Hl1) as [Hg Hk].
    destruct (IH (viewStep st l) Hls) as [Hg2 Hk2].
    split.
    + intros e He. destruct (Hg _ He) as [H|(sp & tx & more & -> & H)].
      * apply Hg2, H.
      * destruct (Hg2 _ H) as [H2|(sp2 & tx2 & more2 & E & H2)].
        -- right. now exists sp, tx, more.
        -- injection E as <- <-. right. exists sp, tx, (more ++ more2).
           split; [reflexivity|]. now rewrite app_assoc.
    + intros line [<-|Hin]; [|now apply Hk2].
      exact (@isKeptIn_grows _ _ _ Hg2 Hk).
Qed.

Lemma skipSpaces_trim (s : jsstring) : trim (skipSpaces s) = trim s.
Proof.
  unfold trim. f_equal. induction s as [|c r IH]; [reflexivity|].
  cbn [skipSpaces trimStart]. destruct (isSpace c) eqn:Hc; [exact IH|].
  cbn [trimStart]. now rewrite Hc.
Qed.

Lemma skipSpaces_terminators (s : jsstring) :
  hasNoLineTerminator s = true -> hasNoLineTerminator (skipSpaces s) = true.
Proof.
  unfold hasNoLineTerminator. induction s as [|c r IH]; [reflexivity|].
  cbn [skipSpaces]. destruct (isSpace c); [|intros H; exact H].
  cbn [forallb]. intros H. apply andb_true_iff in H as [_ Hr]. exact (IH Hr).
Qed.

(** In a line without line terminator the second group of the match is
    all that follows the first colon. *)
Lemma speakerMatch_whole (prefix rest : jsstring) :
  prefix <> [] -> forallb notColon prefix = true ->
  hasNoLineTerminator rest = true ->
  speakerMatch (prefix ++ 58 :: rest) = Some (prefix, skipSpaces rest).
Proof.
  intros Hne Hp Hr. unfold speakerMatch.
  rewrite span_app; [|exact Hp|reflexivity].
  destruct prefix as [|c p]; [congruence|].
  fold (hasNoLineTerminator (skipSpaces rest)).
  pose proof (@skipSpaces_terminators rest Hr) as Hs. unfold hasNoLineTerminator in Hs.
  rewrite (@span_all _ (skipSpaces rest) Hs). reflexivity.
Qed.

Lemma speakerMatch_none (line : jsstring) :
  forallb notColon line = true \/ (exists rest, line = 58 :: rest) ->
  speakerMatch line = None.
Proof.
  unfold speakerMatch. intros [H|(rest & ->)].
  - rewrite (@span_all _ line H). destruct line; reflexivity.
  - reflexivity.
Qed.

(** X18.  The merge pass keeps every line that holds no line terminator
    (no carriage return, line separator or paragraph separator left inside
    it), with its attribution.  When such a line reads [prefix:rest], with
    a prefix that is not empty and has no colon, the result has a turn of
    the speaker [prefix], trimmed, whose text contains [rest], trimmed.
    When it has no colon, or starts with one, it is a paragraph of its own
    or part of the text of a turn.  In both cases what the line says is
    part of the text cleanVttTranscript returns. *)
Theorem cleanVttTranscript_keeps_every_line (rawVtt line : jsstring) :
  In line (cleanLines rawVtt) ->
  hasNoLineTerminator line = true ->
  let paragraphs := cleanedTranscript rawVtt in
  let output := cleanVttTranscript rawVtt in
  (forall prefix rest,
     line = prefix ++ 58 :: rest -> prefix <> [] -> forallb notColon prefix = true ->
     (exists text, In (Turn (trim prefix) text) paragraphs
                   /\ includes text (trim rest) = true)
     /\ includes output (trim rest) = true)
  /\ (forallb notColon line = true \/ (exists rest, line = 58 :: rest) ->
      (In (Unattributed line) paragraphs
       \/ exists speaker text, In (Turn speaker text) paragraphs
                               /\ includes text line = true)
      /\ includes output line = true).
Proof.
  intros Hin Hterm paragraphs output.
  destruct (@fold_viewStep_keeps (cleanLines rawVtt) viewInit (cleanLines_trimmed rawVtt)) as [_ Hk].
  specialize (Hk _ Hin). fold (paragraphsOf (cleanLines rawVtt)) in Hk.
  fold (cleanedTranscript rawVtt) in Hk. fold paragraphs in Hk.
  assert (Hout : output = join [10] (List.map render paragraphs)).
  { unfold output, cleanVttTranscript. now rewrite mergeSpeakerLines_paragraphs. }
  unfold isKeptIn in Hk. split.
  - intros prefix rest E Hne Hp.
    assert (Hrest : hasNoLineTerminator rest = true).
    { unfold hasNoLineTerminator in *. rewrite E, forallb_app in Hterm.
      apply andb_true_iff in Hterm as [_ H]. cbn [forallb] in H.
      apply andb_true_iff in H as [_ H]. exact H. }
    rewrite E, (@speakerMatch_whole prefix rest Hne Hp Hrest), skipSpaces_trim in Hk.
    destruct Hk as (text & Ht & Hinc). split; [now exists text|].
    rewrite Hout. apply (@includes_join _ (render (Turn (trim prefix) text)) _ [10]).
    + apply in_map_iff. now exists (Turn (trim prefix) text).
    + cbn [render]. unfold paragraph. now apply includes_right, includes_right.
  - intros Hnone. rewrite (@speakerMatch_none line Hnone) in Hk. split; [exact Hk|].
    rewrite Hout. destruct Hk as [Hu|(sp & text & Ht & Hinc)].
    + apply (@includes_join _ (render (Unattributed line)) _ [10]).
      * apply in_map_iff. now exists (Unattributed line).
      * apply includes_self.
    + apply (@includes_join _ (render (Turn sp text)) _ [10]).
      * apply in_map_iff. now exists (Turn sp text).
      * cbn [render]. unfold paragraph. now apply includes_right, includes_right.
Qed.

(** The second line of Alice in the literal case. *)
Lemma cleanVttTranscript_keeps_witness :
  (exists text, In (Turn (js "Alice") text) (cleanedTranscript literalVtt)
                /\ includes text (js "How are you?") = true)
  /\ includes (cleanVttTranscript literalVtt) (js "How are you?") = true.
Proof.
  destruct (@cleanVttTranscript_keeps_every_line literalVtt (js "Alice: How are you?"))
    as [H _].
  - vm_compute. right. left. reflexivity.
  - reflexivity.
  - apply (H (js "Alice") (js " How are you?")); [reflexivity|discriminate|reflexivity].
Defined.

(** What follows a carriage return inside a line with a speaker is lost:
    the second group of the match ends there. *)
Lemma cleanVttTranscript_drops_after_carriage_return :
  cleanLines brokenCue = [js "Alice: first" ++ [13] ++ js "second"; js "Bob: ok"]
  /\ cleanVttTranscript brokenCue = js "Alice: first" ++ [10] ++ js "Bob: ok"
  /\ includes (cleanVttTranscript brokenCue) (js "second") = false.
Proof. vm_compute. repeat split. Qed.

End VttRuns.

Module MarkupFacts.

Import JsString VttParser Transcript Cues StringFacts VttFacts VttRuns.
Open Scope N_scope.

(** *** What the replacements leave of the code units *)

Lemma span_units (p q : N -> bool) (s : jsstring) :
  forallb p s = true ->
  forallb p (fst (span q s)) = true /\ forallb p (snd (span q s)) = true.
Proof.
  induction s as [|c r IH]; [split; reflexivity|]. cbn [forallb span]. intros H.
  apply andb_true_iff in H as [Hc Hr]. destruct (IH Hr) as [H1 H2].
  destruct (q c).
  - destruct (span q r) as [a b]. cbn [fst snd forallb] in *. now rewrite Hc, H1, H2.
  - cbn [fst snd forallb]. now rewrite Hc, Hr.
Qed.

Lemma trimStart_units (p : N -> bool) (s : jsstring) :
  forallb p s = true -> forallb p (trimStart s) = true.
Proof.
  induction s as [|c r IH]; [reflexivity|]. cbn [forallb trimStart]. intros H.
  destruct (isSpace c); [|exact H]. apply andb_true_iff in H as [_ Hr]. exact (IH Hr).
Qed.

Lemma trimEnd_units (p : N -> bool) (s : jsstring) :
  forallb p s = true -> forallb p (trimEnd s) = true.
Proof.
  induction s as [|c r IH]; [reflexivity|]. cbn [forallb trimEnd]. intros H.
  apply andb_true_iff in H as [Hc Hr]. specialize (IH Hr).
  destruct (trimEnd r) as [|x r'].
  - destruct (isSpace c); [reflexivity|]. cbn [forallb]. now rewrite Hc.
  - cbn [forallb] in *. now rewrite Hc, IH.
Qed.

Lemma trim_units (p : N -> bool) (s : jsstring) :
  forallb p s = true -> forallb p (trim s) = true.
Proof. intros H. now apply trimEnd_units, trimStart_units. Qed.

Lemma removeTags_units (p : N -> bool) (s : jsstring) :
  forall k, forallb p s = true -> forallb p (removeTags k s) = true.
Proof.
  induction s as [|c r IH]; intros k H; [reflexivity|]. cbn [forallb] in H.
  apply andb_true_iff in H as [Hc Hr]. cbn [removeTags].
  destruct k as [|k]; [|exact (IH _ Hr)].
  destruct (matchTag (c :: r)); [exact (IH _ Hr)|].
  cbn [forallb]. now rewrite Hc, (IH _ Hr).
Qed.

Lemma collapseSpaces_units (p : N -> bool) (s : jsstring) :
  p 32 = true ->
  forall b, forallb p s = true -> forallb p (collapseSpaces b s) = true.
Proof.
  intros H32. induction s as [|c r IH]; intros b H; [reflexivity|]. cbn [forallb] in H.
  apply andb_true_iff in H as [Hc Hr]. cbn [collapseSpaces].
  destruct (isSpace c); [destruct b; [exact (IH _ Hr)|destruct (startsWithSpace r)]|];
    cbn [forallb]; rewrite ?H32, ?Hc, (IH _ Hr); reflexivity.
Qed.

(** *** No tag is left in a cleaned line *)

Lemma matchTag_other (c : N) (r : jsstring) : (c =? 60) = false -> matchTag (c :: r) = None.
Proof. intros H. unfold matchTag. now rewrite H. Qed.

(** Where ['<'] opens no tag: at the end, before ['>'], or with no ['>']
    after it. *)
Lemma matchTag_none (r : jsstring) :
  matchTag (60 :: r) = None
  <-> r = [] \/ (exists r', r = 62 :: r') \/ forallb notGt r = true.
Proof.
  unfold matchTag. change (60 =? 60) with true. cbv iota.
  destruct r as [|x r']; [cbn; split; auto|].
  cbn [span]. destruct (notGt x) eqn:Hx.
  - pose proof (span_prefix notGt r') as E.
    destruct (span notGt r') as [a b] eqn:Es. cbn [fst snd] in E.
    destruct b as [|y b].
    + split; [intros _|reflexivity]. right. right. cbn [forallb]. rewrite Hx.
      rewrite E, app_nil_r. clear E.
      revert a Es. induction r' as [|z r0 IH]; intros a Es.
      * cbn in Es. now injection Es as <-.
      * cbn [span] in Es. destruct (notGt z) eqn:Hz; [|discriminate].
        destruct (span notGt r0) as [a0 b0]. injection Es as <- ->.
        cbn [forallb]. rewrite Hz. now apply (IH a0).
    + split; [discriminate|]. intros [H|[[r0 H]|H]].
      * discriminate.
      * injection H as -> _. discriminate.
      * exfalso. cbn [forallb] in H. apply andb_true_iff in H as [_ H].
        rewrite E, forallb_app in H. apply andb_true_iff in H as [_ H].
        cbn [forallb] in H. apply andb_true_iff in H as [Hy _].
        assert (Hn : notGt y = false).
        { clear - Es. revert a Es. induction r' as [|z r0 IH]; intros a Es.
          - discriminate.
          - cbn [span] in Es. destruct (notGt z) eqn:Hz.
            + destruct (span notGt r0) as [a0 b0]. injection Es as <- ->.
              now apply (IH a0).
            + injection Es as _ <- _. exact Hz. }
        congruence.
  - split; [intros _|reflexivity]. right. left. exists r'.
    unfold notGt in Hx. apply negb_false_iff, N.eqb_eq in Hx. now subst.
Qed.

Lemma matchTag_some (c : N) (r : jsstring) (len : nat) :
  matchTag (c :: r) = Some len ->
  exists body rest,
    r = (body ++ [62]) ++ rest /\ (len - 1)%nat = List.length (body ++ [62]).
Proof.
  unfold matchTag. destruct (c =? 60); [|discriminate].
  pose proof (span_prefix notGt r) as E.
  assert (Hhead : forall a y b, span notGt r = (a, y :: b) -> y = 62).
  { clear. induction r as [|z r0 IH]; intros a y b Es; [discriminate|].
    cbn [span] in Es. destruct (notGt z) eqn:Hz.
    - destruct (span notGt r0) as [a0 b0]. injection Es as <- ->. exact (IH _ _ _ eq_refl).
    - injection Es as _ <- _. unfold notGt in Hz.
      now apply negb_false_iff, N.eqb_eq in Hz. }
  destruct (span notGt r) as [a b]. cbn [fst snd] in E.
  destruct a as [|x a]; [discriminate|]. destruct b as [|y b]; [discriminate|].
  intros H. injection H as <-. rewrite (Hhead _ _ _ eq_refl) in E.
  exists (x :: a), b. split; [now rewrite <- app_assoc|].
  rewrite length_app. cbn [List.length]. lia.
Qed.

Lemma removeTags_skip (a b : jsstring) :
  removeTags (List.length a) (a ++ b) = removeTags 0 b.
Proof. induction a as [|c a IH]; [destruct b; reflexivity|exact IH]. Qed.

Lemma removeTags_clean (n : nat) :
  forall s, (List.length s <= n)%nat -> hasNoTag (removeTags 0 s) = true.
Proof.
  induction n as [|n IH]; intros s Hlen.
  - destruct s; [reflexivity|cbn in Hlen; lia].
  - destruct s as [|c r]; [reflexivity|]. cbn [List.length] in Hlen.
    cbn [removeTags]. destruct (matchTag (c :: r)) as [len|] eqn:Hm.
    + destruct (matchTag_some _ _ Hm) as (body & rest & -> & ->).
      rewrite removeTags_skip. apply IH. rewrite !length_app in Hlen. lia.
    + cbn [hasNoTag]. rewrite (IH r) by lia. rewrite andb_true_r.
      destruct (N.eqb_spec c 60) as [->|Hc];
        [|rewrite matchTag_other; [reflexivity|now apply N.eqb_neq]].
      assert (E : matchTag (60 :: removeTags 0 r) = None); [|now rewrite E].
      apply matchTag_none. apply matchTag_none in Hm as [->|[[r' ->]|Hr]].
      * now left.
      * right. left. exists (removeTags 0 r'). cbn [removeTags].
        now rewrite matchTag_other.
      * right. right. now apply removeTags_units.
Qed.

Lemma hasNoTag_collapseSpaces (s : jsstring) :
  forall b, hasNoTag s = true -> hasNoTag (collapseSpaces b s) = true.
Proof.
  induction s as [|c r IH]; intros b H; [reflexivity|]. cbn [hasNoTag] in H.
  apply andb_true_iff in H as [Hm Hr]. cbn [collapseSpaces].
  destruct (isSpace c) eqn:Hs.
  - assert (Hc : (c =? 60) = false) by (destruct (N.eqb_spec c 60); [subst; discriminate|reflexivity]).
    destruct b; [exact (IH _ Hr)|]. destruct (startsWithSpace r); cbn [hasNoTag];
      rewrite (IH _ Hr), andb_true_r, matchTag_other; reflexivity || exact Hc.
  - cbn [hasNoTag]. rewrite (IH _ Hr), andb_true_r.
    destruct (N.eqb_spec c 60) as [->|Hc];
      [|rewrite matchTag_other; [reflexivity|now apply N.eqb_neq]].
    assert (E : matchTag (60 :: collapseSpaces false r) = None); [|now rewrite E].
    destruct (matchTag (60 :: r)) eqn:Hm0; [discriminate|].
    apply matchTag_none. apply matchTag_none in Hm0 as [->|[[r' ->]|Hgt]].
    + now left.
    + right. left. exists (collapseSpaces false r'). reflexivity.
    + right. right. now apply collapseSpaces_units.
Qed.

Lemma hasNoTag_trimStart (s : jsstring) : hasNoTag s = true -> hasNoTag (trimStart s) = true.
Proof.
  induction s as [|c r IH]; [reflexivity|]. intros H. cbn [trimStart].
  destruct (isSpace c); [|exact H]. cbn [hasNoTag] in H.
  apply andb_true_iff in H as [_ Hr]. exact (IH Hr).
Qed.

Lemma hasNoTag_trimEnd (s : jsstring) : hasNoTag s = true -> hasNoTag (trimEnd s) = true.
Proof.
  induction s as [|c r IH]; [reflexivity|]. intros H. cbn [hasNoTag] in H.
  apply andb_true_iff in H as [Hm Hr]. specialize (IH Hr). cbn [trimEnd].
  destruct (trimEnd r) as [|x r'] eqn:Et.
  - destruct (isSpace c); [reflexivity|]. cbn [hasNoTag]. rewrite andb_true_r.
    unfold matchTag. destruct (c =? 60); reflexivity.
  - cbn [hasNoTag] in IH |- *. rewrite IH, andb_true_r.
    destruct (N.eqb_spec c 60) as [->|Hc];
      [|rewrite matchTag_other; [reflexivity|now apply N.eqb_neq]].
    assert (E : matchTag (60 :: x :: r') = None); [|now rewrite E].
    destruct (matchTag (60 :: r)) eqn:Hm0; [discriminate|].
    apply matchTag_none. apply matchTag_none in Hm0 as [->|[[r0 ->]|Hgt]].
    + discriminate.
    + right. left. cbn [trimEnd] in Et. change (isSpace 62) with false in Et.
      destruct (trimEnd r0); injection Et as <- <-; now eexists.
    + right. right. rewrite <- Et. now apply trimEnd_units.
Qed.

Lemma cleanDialogue_clean (trimmed : jsstring) : hasNoTag (cleanDialogue trimmed) = true.
Proof.
  unfold cleanDialogue, trim.
  apply hasNoTag_trimEnd, hasNoTag_trimStart, hasNoTag_collapseSpaces.
  now apply (removeTags_clean (n := List.length (removeVoiceClose 0 (replaceVoiceOpen 0 trimmed)))).
Qed.

Lemma fold_cleanStep_clean (lines : list jsstring) (st : LoopState) :
  Forall (fun l => hasNoTag l = true) (cleanedLines st) ->
  Forall (fun l => hasNoTag l = true) (cleanedLines (fold_left cleanStep lines st)).
Proof.
  revert st. induction lines as [|l ls IH]; intros st H; [exact H|].
  cbn [fold_left]. apply IH. unfold cleanStep.
  repeat match goal with
         | |- context [if ?b then _ else _] => destruct b
         end; cbn [cleanedLines]; try exact H.
  apply Forall_app. split; [exact H|]. constructor; [apply cleanDialogue_clean|constructor].
Qed.

(** X19.  No line the loop of cleanVttTranscript keeps holds a tag: in none
    of them does ['<'] come before one or more code units other than ['>']
    and a ['>'], whatever the input. *)
Theorem cleanVttTranscript_lines_have_no_tag (rawVtt : jsstring) :
  Forall (fun l => hasNoTag l = true) (cleanLines rawVtt)
  /\ forall l pre body post,
       In l (cleanLines rawVtt) -> l = pre ++ 60 :: body ++ 62 :: post ->
       body = [] \/ In 62 body.
Proof.
  assert (H : Forall (fun l => hasNoTag l = true) (cleanLines rawVtt))
    by (apply fold_cleanStep_clean; constructor).
  split; [exact H|]. intros l pre body post Hin ->.
  pose proof (proj1 (Forall_forall _ _) H _ Hin) as Hl. clear - Hl.
  induction pre as [|c pre IH].
  - cbn [app hasNoTag] in Hl. apply andb_true_iff in Hl as [Hm _].
    destruct (matchTag (60 :: body ++ 62 :: post)) eqn:E; [discriminate|].
    apply matchTag_none in E as [E|[[r' E]|E]].
    + destruct body; discriminate.
    + destruct body as [|x body]; [now left|]. injection E as -> _. right. now left.
    + rewrite forallb_app in E. apply andb_true_iff in E as [_ E]. discriminate.
  - cbn [app hasNoTag] in Hl. apply andb_true_iff in Hl as [_ Hl]. exact (IH Hl).
Qed.

(** *** The lines of the output *)

Lemma forallb_last (p : N -> bool) (ws : jsstring) (d : N) :
  ws <> [] -> forallb p ws = true -> p (last ws d) = true.
Proof.
  induction ws as [|c r IH]; [congruence|]. intros _ H. cbn [forallb] in H.
  apply andb_true_iff in H as [Hc Hr]. destruct r as [|x r']; [exact Hc|].
  apply IH; [discriminate|exact Hr].
Qed.

Lemma matchVoiceOpen_units (p : N -> bool) (s name : jsstring) (len : nat) :
  matchVoiceOpen s = Some (name, len) -> forallb p s = true -> forallb p name = true.
Proof.
  unfold matchVoiceOpen. destruct s as [|lt [|v rest]]; try discriminate.
  destruct ((lt =? 60) && (upperAscii v =? 86)); [|discriminate].
  intros H Hs. cbn [forallb] in Hs. apply andb_true_iff in Hs as [_ Hs].
  apply andb_true_iff in Hs as [_ Hrest].
  destruct (span_units p isSpace rest Hrest) as [Hws Hrest1].
  destruct (span isSpace rest) as [ws rest1]. cbn [fst snd] in Hws, Hrest1.
  destruct (span_units p notGt rest1 Hrest1) as [Hname _].
  destruct (span notGt rest1) as [name0 rest2]. cbn [fst] in Hname.
  destruct ws as [|w ws]; [discriminate|]. destruct rest2 as [|y rest2]; [discriminate|].
  destruct name0 as [|x name0].
  - destruct ws as [|w2 ws]; [discriminate|]. injection H as <- _.
    cbn [forallb]. rewrite andb_true_r.
    change (p (last (w :: w2 :: ws) 0) = true).
    apply forallb_last; [discriminate|exact Hws].
  - injection H as <- _. exact Hname.
Qed.

Lemma replaceVoiceOpen_units (p : N -> bool) (s : jsstring) :
  p 58 = true -> p 32 = true ->
  forall k, forallb p s = true -> forallb p (replaceVoiceOpen k s) = true.
Proof.
  intros H58 H32. induction s as [|c r IH]; intros k H; [reflexivity|].
  pose proof H as Hall. cbn [forallb] in H. apply andb_true_iff in H as [Hc Hr].
  cbn [replaceVoiceOpen]. destruct k as [|k]; [|exact (IH _ Hr)].
  destruct (matchVoiceOpen (c :: r)) as [[name len]|] eqn:Hm.
  - rewrite !forallb_app, (matchVoiceOpen_units p _ Hm Hall), (IH _ Hr).
    cbn [js forallb List.map list_ascii_of_string]. cbn. now rewrite H58, H32.
  - cbn [forallb]. now rewrite Hc, (IH _ Hr).
Qed.

Lemma removeVoiceClose_units (p : N -> bool) (s : jsstring) :
  forall k, forallb p s = true -> forallb p (removeVoiceClose k s) = true.
Proof.
  induction s as [|c r IH]; intros k H; [reflexivity|]. cbn [forallb] in H.
  apply andb_true_iff in H as [Hc Hr]. cbn [removeVoiceClose].
  destruct k as [|k]; [|exact (IH _ Hr)].
  destruct (matchVoiceClose (c :: r)); [exact (IH _ Hr)|].
  cbn [forallb]. now rewrite Hc, (IH _ Hr).
Qed.

Lemma cleanDialogue_units (p : N -> bool) (s : jsstring) :
  p 58 = true -> p 32 = true ->
  forallb p s = true -> forallb p (cleanDialogue s) = true.
Proof.
  intros H58 H32 H. unfold cleanDialogue.
  apply trim_units, collapseSpaces_units; [exact H32|].
  apply removeTags_units, removeVoiceClose_units.
  now apply replaceVoiceOpen_units.
Qed.

Lemma splitLines_oneLine (s : jsstring) :
  Forall (fun l => isOneLine l = true) (splitLines s).
Proof.
  induction s as [|c r IH]; [repeat constructor|]. cbn [splitLines].
  destruct (N.eqb_spec c 10) as [->|Hc]; [constructor; [reflexivity|exact IH]|].
  destruct ((c =? 13) && startsWithLF r); [exact IH|].
  destruct (splitLines r) as [|l ls]; [repeat constructor|].
  - cbn. apply N.eqb_neq in Hc. now rewrite Hc.
  - inversion IH as [|? ? Hl Hls]; subst. constructor; [|exact Hls].
    cbn [isOneLine forallb]. apply N.eqb_neq in Hc. rewrite Hc. exact Hl.
Qed.

Lemma fold_cleanStep_oneLine (lines : list jsstring) (st : LoopState) :
  Forall (fun l => isOneLine l = true) lines ->
  Forall (fun l => isOneLine l = true) (cleanedLines st) ->
  Forall (fun l => isOneLine l = true) (cleanedLines (fold_left cleanStep lines st)).
Proof.
  revert st. induction lines as [|l ls IH]; intros st Hl H; [exact H|].
  inversion Hl as [|? ? Hl1 Hls]; subst. cbn [fold_left]. apply IH; [exact Hls|].
  unfold cleanStep.
  repeat match goal with
         | |- context [if ?b then _ else _] => destruct b
         end; cbn [cleanedLines]; try exact H.
  apply Forall_app. split; [exact H|]. constructor; [|constructor].
  apply cleanDialogue_units; [reflexivity|reflexivity|]. now apply trim_units.
Qed.

Lemma cleanLines_oneLine (rawVtt : jsstring) :
  Forall (fun l => isOneLine l = true) (cleanLines rawVtt).
Proof.
  apply fold_cleanStep_oneLine; [apply splitLines_oneLine|constructor].
Qed.

Lemma speakerMatch_units (p : N -> bool) (l g1 g2 : jsstring) :
  speakerMatch l = Some (g1, g2) -> forallb p l = true ->
  forallb p g1 = true /\ forallb p g2 = true.
Proof.
  unfold speakerMatch. intros H Hl.
  destruct (span_units p notColon l Hl) as [H1 H2].
  destruct (span notColon l) as [a b]. cbn [fst snd] in H1, H2.
  destruct a as [|x a]; [discriminate|]. destruct b as [|y b]; [discriminate|].
  injection H as <- <-. split; [exact H1|].
  cbn [forallb] in H2. apply andb_true_iff in H2 as [_ H2].
  assert (H3 : forallb p (skipSpaces b) = true).
  { clear - H2. induction b as [|c r IH]; [reflexivity|]. cbn [skipSpaces].
    destruct (isSpace c); [|exact H2]. cbn [forallb] in H2.
    apply andb_true_iff in H2 as [_ H2]. exact (IH H2). }
  apply (span_units p _ _ H3).
Qed.

Lemma turn_isOutputLine (sp tx : jsstring) :
  sp <> [] -> startsWithSpace sp = false -> isOneLine sp = true -> isOneLine tx = true ->
  isOutputLine (render (Turn sp tx)).
Proof.
  intros Hne Hs H1 H2. cbn [render]. rewrite paragraph_eq. split; [|split].
  - destruct sp; [congruence|discriminate].
  - destruct sp; [congruence|exact Hs].
  - unfold isOneLine in *. rewrite forallb_app, H1. cbn [forallb]. exact H2.
Qed.

Lemma viewStep_outputLines (st : ViewState) (line : jsstring) :
  isTrimmedLine line -> isOneLine line = true ->
  hasOutputLines st -> hasOutputLines (viewStep st line).
Proof.
  intros Hline Hone (He & Hs & H1 & H2). unfold viewStep.
  destruct (speakerMatch line) as [[g1 g2]|] eqn:Hm.
  - destruct (speakerMatch_units (fun c => negb (c =? 10)) _ Hm Hone) as [Hg1 Hg2].
    pose proof (trim_units _ _ Hg1) as Ht1. pose proof (trim_units _ _ Hg2) as Ht2.
    destruct (streq (trim g1) (speaker st)).
    + split; [exact He|]. split; [exact Hs|]. split; [exact H1|].
      cbn [buffer]. unfold isOneLine in *. rewrite !forallb_app, H2, Ht2. reflexivity.
    + split; [|split; [apply trim_head|split; [exact Ht1|exact Ht2]]].
      cbn [entries]. destruct (truthy (speaker st)) eqn:Ht; [|exact He].
      apply Forall_app. split; [exact He|]. constructor; [|constructor].
      apply turn_isOutputLine; try assumption. now apply truthy_nonempty.
  - destruct (truthy (speaker st)) eqn:Ht.
    + split; [exact He|]. split; [exact Hs|]. split; [exact H1|].
      cbn [buffer]. unfold isOneLine in *. rewrite !forallb_app, H2, Hone. reflexivity.
    + split; [|split; [exact Hs|split; [exact H1|exact H2]]].
      cbn [entries]. apply Forall_app. split; [exact He|]. constructor; [|constructor].
      destruct Hline as [Hne Hsp]. cbn [render]. repeat split; assumption.
Qed.

Lemma fold_viewStep_outputLines (lines : list jsstring) (st : ViewState) :
  Forall isTrimmedLine lines -> Forall (fun l => isOneLine l = true) lines ->
  hasOutputLines st -> hasOutputLines (fold_left viewStep lines st).
Proof.
  revert st. induction lines as [|l ls IH]; intros st Ht Ho H; [exact H|].
  inversion Ht; subst. inversion Ho; subst. cbn [fold_left].
  apply IH; try assumption. now apply viewStep_outputLines.
Qed.

(** X20.  The text cleanVttTranscript returns has no blank line: it is a
    sequence of paragraphs separated by single line feeds, and each
    paragraph is not empty, does not start with white space and holds no
    line feed; so the text neither starts nor ends with a line feed. *)
Theorem cleanVttTranscript_has_no_blank_line (rawVtt : jsstring) :
  let paragraphs := List.map render (cleanedTranscript rawVtt) in
  cleanVttTranscript rawVtt = join [10] paragraphs
  /\ Forall isOutputLine paragraphs
  /\ (cleanVttTranscript rawVtt = [] <-> paragraphs = []).
Proof.
  intros paragraphs. subst paragraphs.
  assert (Hall : Forall isOutputLine (List.map render (cleanedTranscript rawVtt))).
  { unfold cleanedTranscript, paragraphsOf.
    assert (H : hasOutputLines (fold_left viewStep (cleanLines rawVtt) viewInit)).
    { apply fold_viewStep_outputLines;
        [apply cleanLines_trimmed|apply cleanLines_oneLine|].
      repeat split. constructor. }
    destruct H as (He & Hs & H1 & H2). apply Forall_map. unfold viewFlush.
    destruct (truthy (speaker _)) eqn:Ht; [|exact He].
    apply Forall_app. split; [exact He|]. constructor; [|constructor].
    apply turn_isOutputLine; try assumption. now apply truthy_nonempty. }
  split; [apply mergeSpeakerLines_paragraphs|]. split; [exact Hall|].
  unfold cleanVttTranscript. rewrite mergeSpeakerLines_paragraphs.
  fold (cleanedTranscript rawVtt).
  destruct (List.map render (cleanedTranscript rawVtt)) as [|p ps]; [split; reflexivity|].
  split; [|discriminate]. intros E. exfalso.
  inversion Hall as [|? ? (Hne & _) _]; subst. apply Hne.
  destruct ps as [|q ps]; [exact E|].
  change (join [10] (p :: q :: ps)) with (p ++ 10 :: join [10] (q :: ps)) in E.
  now apply app_eq_nil in E as [E _].
Qed.

(** *** Comment blocks *)

Lemma isNoteLine_not_header (t : jsstring) : isNoteLine t = true -> isHeaderLine t = false.
Proof.
  unfold isNoteLine, isHeaderLine. intros H. apply andb_true_iff in H as [H _].
  destruct t as [|c r]; [discriminate|]. cbn [js List.map list_ascii_of_string startsWithCI] in *.
  cbn in H |- *. apply andb_true_iff in H as [H _]. apply N.eqb_eq in H. now rewrite H.
Qed.

Lemma isNoteLine_truthy (t : jsstring) : isNoteLine t = true -> truthy t = true.
Proof. destruct t; [discriminate|reflexivity]. Qed.

(** Inside a comment block the loop passes over a line that is not blank. *)
Lemma cleanStep_in_note (st : LoopState) (l : jsstring) :
  skipNote st = true -> truthy (trim l) = true -> cleanStep st l = st.
Proof.
  intros Hskip Ht. unfold cleanStep. rewrite Ht, Hskip. cbn [negb].
  destruct (isHeaderLine (trim l)); [reflexivity|].
  destruct (isNoteLine (trim l)); [|reflexivity].
  destruct st as [ls sk]. cbn in *. now subst.
Qed.

Lemma fold_cleanStep_in_note (body : list jsstring) (st : LoopState) :
  skipNote st = true -> forallb (fun l => truthy (trim l)) body = true ->
  fold_left cleanStep body st = st.
Proof.
  intros Hskip. induction body as [|l ls IH]; [reflexivity|]. cbn [forallb fold_left].
  intros H. apply andb_true_iff in H as [Hl Hls].
  rewrite (cleanStep_in_note st l Hskip Hl). exact (IH Hls).
Qed.

(** From a NOTE line to the blank line that ends its block the loop keeps
    nothing. *)
Lemma fold_cleanStep_comment (note : jsstring) (body : list jsstring) (st : LoopState) :
  isNoteLine (trim note) = true ->
  forallb (fun l => truthy (trim l)) body = true ->
  fold_left cleanStep (note :: body ++ [[]]) st
  = {| cleanedLines := cleanedLines st; skipNote := false |}.
Proof.
  intros Hn Hb. cbn [fold_left]. rewrite fold_left_app.
  assert (E : cleanStep st note = {| cleanedLines := cleanedLines st; skipNote := true |}).
  { unfold cleanStep.
    now rewrite (isNoteLine_truthy _ Hn), (isNoteLine_not_header _ Hn), Hn. }
  rewrite E.
  rewrite (@fold_cleanStep_in_note body
             {| cleanedLines := cleanedLines st; skipNote := true |} eq_refl Hb).
  reflexivity.
Qed.

Lemma cleanLines_lines (lines : list jsstring) :
  lines <> [] -> forallb isOneLine lines = true ->
  cleanLines (join [10] lines)
  = cleanedLines (fold_left cleanStep lines {| cleanedLines := []; skipNote := false |}).
Proof.
  intros Hne H. unfold cleanLines.
  now rewrite (fold_cleanStep_trim _ (@splitLines_join_trim lines Hne H)).
Qed.

(** X24.  A comment block is ignored: a NOTE line and the lines after it,
    none of them blank, up to the blank line that ends the block, put after
    a blank line of a file, change nothing in the cleaned text, whatever
    stands in the block. *)
Theorem cleanVttTranscript_ignores_comment_blocks (before after body : list jsstring) (note : jsstring) :
  forallb isOneLine (before ++ note :: body ++ after) = true ->
  isNoteLine (trim note) = true ->
  forallb (fun l => truthy (trim l)) body = true ->
  cleanVttTranscript (join [10] (before ++ [[]] ++ (note :: body ++ [[]]) ++ after))
  = cleanVttTranscript (join [10] (before ++ [[]] ++ after)).
Proof.
  intros Hone Hn Hb. unfold cleanVttTranscript. f_equal.
  rewrite !forallb_app in Hone. cbn [forallb] in Hone. rewrite forallb_app in Hone.
  apply andb_true_iff in Hone as [H1 H2]. apply andb_true_iff in H2 as [H2 H3].
  apply andb_true_iff in H3 as [H3 H4].
  rewrite !cleanLines_lines;
    try (destruct before; discriminate);
    try (rewrite !forallb_app; cbn [forallb]; rewrite ?forallb_app; cbn [forallb];
         now rewrite ?H1, ?H2, ?H3, ?H4).
  rewrite !fold_left_app. f_equal. cbn [fold_left app].
  set (st := fold_left cleanStep before {| cleanedLines := []; skipNote := false |}).
  assert (E : cleanStep st [] = {| cleanedLines := cleanedLines st; skipNote := false |})
    by reflexivity.
  rewrite E. f_equal.
  exact (@fold_cleanStep_comment note body
           {| cleanedLines := cleanedLines st; skipNote := false |} Hn Hb).
Qed.

(** A comment that quotes a cue, between the cues of the literal case. *)
Lemma cleanVttTranscript_comment_witness :
  cleanVttTranscript
    (join [10] (commentedLines [js "NOTE reviewed"; js "<v Bob>not said</v>"; []]))
  = cleanVttTranscript (join [10] (commentedLines [])).
Proof.
  apply (cleanVttTranscript_ignores_comment_blocks
           [js "WEBVTT"; []; js "1"; js "00:00:00.000 --> 00:00:02.000";
            js "<v Alice>Hello there.</v>"]
           [js "2"; js "00:00:02.000 --> 00:00:04.000"; js "<v Alice>How are you?</v>"]
           [js "<v Bob>not said</v>"] (js "NOTE reviewed"));
    vm_compute; reflexivity.
Defined.

End MarkupFacts.

(* ================================================================== *)
(** ** Properties of the save tool and of the dispatch *)

Module ToolFacts.

Import JsString VttParser JsNumber Graph Server SaveTranscript Trace Tools StringFacts GraphRuns.
Open Scope N_scope.

Section Handlers.

Context {G : GraphService}.

Variables SHAREPOINT_SITE_URL SHAREPOINT_FOLDER : option jsstring.
Variable hostMessage : exn -> jsstring.

(** A string got by [||] is not empty. *)
Lemma orElse_truthy (a b : option jsstring) (u : jsstring) :
  orElse a b = Some u -> truthy u = true.
Proof.
  unfold orElse, given. destruct a as [x|]; [destruct (truthy x) eqn:Hx|].
  - intros H. now injection H as <-.
  - destruct b as [y|]; [|discriminate].
    destruct (truthy y) eqn:Hy; [|discriminate]. intros H. now injection H as <-.
  - destruct b as [y|]; [|discriminate].
    destruct (truthy y) eqn:Hy; [|discriminate]. intros H. now injection H as <-.
Qed.

(** handleSaveTranscript flags as errors the answers to missing arguments
    only. *)
Lemma handleSaveTranscript_error_flag
    (resolveSiteId : jsstring -> jsstring -> M jsstring)
    (uploadToSharePoint : jsstring -> jsstring -> jsstring -> jsstring -> jsstring -> M jsstring)
    (graphToken : jsstring) (args : ToolArgs.t) (s : service) (result : ToolResult) :
  outcome (handleSaveTranscript SHAREPOINT_SITE_URL SHAREPOINT_FOLDER
             resolveSiteId uploadToSharePoint graphToken args s) = Returned result ->
  (isError result = true
   <-> given (ToolArgs.meetingName args) = None
       \/ orElse (ToolArgs.siteUrl args) SHAREPOINT_SITE_URL = None).
Proof.
  unfold handleSaveTranscript.
  destruct (given (ToolArgs.meetingName args)) as [name|];
    [|intros E; injection E as <-; split; [now left|reflexivity]].
  destruct (orElse (ToolArgs.siteUrl args) SHAREPOINT_SITE_URL) as [u|] eqn:Hu.
  - rewrite (orElse_truthy _ _ Hu). cbn [negb].
    assert (Hno : forall r : ToolResult,
               isError r = false ->
               (isError r = true <-> Some name = None \/ Some u = None)).
    { intros r Hr. rewrite Hr. split; [discriminate|intros [H|H]; discriminate]. }
    unfold bind.
    destruct (outcome (findMeetingsByName graphToken name (ToolArgs.meetingDate args) s))
      as [[|m rest]|e]; cbn [ret outcome after emitted];
      [intros E; injection E as <-; now apply Hno| |discriminate].
    destruct (outcome (listTranscripts graphToken (OnlineMeeting.id m)
                         (after (findMeetingsByName graphToken name
                                   (ToolArgs.meetingDate args) s))))
      as [[|t ts]|e]; cbn [ret outcome after emitted];
      [intros E; injection E as <-; now apply Hno| |discriminate].
    repeat match goal with
           | |- outcome match outcome ?r with Returned _ => _ | Thrown _ => _ end = _ -> _ =>
               destruct (outcome r); cbn [ret outcome after emitted]; [|discriminate]
           end.
    intros E. injection E as <-. now apply Hno.
  - cbn [truthy negb ret outcome]. intros E. injection E as <-.
    split; [now right|reflexivity].
Qed.

(** X21.  handleSaveTranscript checks its arguments before it sends
    anything, and turns to SharePoint only with a transcript in hand:
    without a meeting name, or without a site URL in the arguments and in
    the environment, it answers with an error and sends nothing; and unless
    a meeting was found, a transcript listed for it and its content
    downloaded, its run is the same whatever resolveSiteId and
    uploadToSharePoint are, that is, they are not called; the answers to
    missing arguments are its only answers flagged as errors. *)
Theorem handleSaveTranscript_uploads_only_a_transcript
    (resolveSiteId resolveSiteId' : jsstring -> jsstring -> M jsstring)
    (uploadToSharePoint uploadToSharePoint' :
       jsstring -> jsstring -> jsstring -> jsstring -> jsstring -> M jsstring)
    (graphToken : jsstring) (args : ToolArgs.t) (s : service) :
  let run := handleSaveTranscript SHAREPOINT_SITE_URL SHAREPOINT_FOLDER
               resolveSiteId uploadToSharePoint graphToken args s in
  let run' := handleSaveTranscript SHAREPOINT_SITE_URL SHAREPOINT_FOLDER
                resolveSiteId' uploadToSharePoint' graphToken args s in
  (given (ToolArgs.meetingName args) = None -> run = ret nameRequired s)
  /\ (forall name, given (ToolArgs.meetingName args) = Some name ->
        orElse (ToolArgs.siteUrl args) SHAREPOINT_SITE_URL = None ->
        run = ret siteRequired s)
  /\ (forall name, given (ToolArgs.meetingName args) = Some name ->
        let found := findMeetingsByName graphToken name (ToolArgs.meetingDate args) s in
        match outcome found with
        | Returned (m :: _) =>
            let listed := listTranscripts graphToken (OnlineMeeting.id m) (after found) in
            match outcome listed with
            | Returned (t :: _) =>
                match outcome (getTranscriptContent graphToken (OnlineMeeting.id m)
                                 (TranscriptInfo.id t) (after listed)) with
                | Returned _ => True
                | Thrown _ => run = run'
                end
            | _ => run = run'
            end
        | _ => run = run'
        end)
  /\ (forall result, outcome run = Returned result ->
        (isError result = true
         <-> given (ToolArgs.meetingName args) = None
             \/ orElse (ToolArgs.siteUrl args) SHAREPOINT_SITE_URL = None)).
Proof.
  intros run run'. subst run run'.
  split; [|split; [|split]]; [| | |apply handleSaveTranscript_error_flag];
    unfold handleSaveTranscript.
  - intros ->. reflexivity.
  - intros name -> ->. reflexivity.
  - intros name ->. cbv zeta.
    destruct (negb (truthy match orElse (ToolArgs.siteUrl args) SHAREPOINT_SITE_URL with
                           | Some u => u
                           | None => []
                           end)).
    + destruct (outcome (findMeetingsByName graphToken name (ToolArgs.meetingDate args) s))
        as [[|m rest]|e]; try reflexivity.
      destruct (outcome (listTranscripts graphToken (OnlineMeeting.id m)
                           (after (findMeetingsByName graphToken name
                                     (ToolArgs.meetingDate args) s))))
        as [[|t ts]|e]; try reflexivity.
      match goal with
      | |- match outcome ?r with Returned _ => _ | Thrown _ => _ end =>
          destruct (outcome r); [exact I|reflexivity]
      end.
    + unfold bind.
      destruct (outcome (findMeetingsByName graphToken name (ToolArgs.meetingDate args) s))
        as [[|m rest]|e]; try reflexivity.
      cbn [outcome after emitted].
      destruct (outcome (listTranscripts graphToken (OnlineMeeting.id m)
                           (after (findMeetingsByName graphToken name
                                     (ToolArgs.meetingDate args) s))))
        as [[|t ts]|e]; try reflexivity.
      cbn [outcome after emitted].
      match goal with
      | |- match outcome ?r with Returned _ => _ | Thrown _ => _ end =>
          destruct (outcome r); [exact I|reflexivity]
      end.
Qed.

(** The switch sends nothing for a name that is no tool. *)
Lemma dispatch_unknown
    (resolveSiteId : jsstring -> jsstring -> M jsstring)
    (uploadToSharePoint : jsstring -> jsstring -> jsstring -> jsstring -> jsstring -> M jsstring)
    (graphToken name : jsstring) (args : ToolArgs.t) (s : service) :
  name <> js "list_recent_meetings" -> name <> js "get_meeting_transcript" ->
  name <> js "save_transcript" ->
  dispatch SHAREPOINT_SITE_URL SHAREPOINT_FOLDER resolveSiteId uploadToSharePoint
    graphToken name args s
  = ret (unknownTool name) s.
Proof.
  intros H1 H2 H3. unfold dispatch.
  apply streq_neq in H1, H2, H3. now rewrite H1, H2, H3.
Qed.

(** X22.  The handler of a tool call never throws: what the handler of
    the tool returns is the result, with the same requests; an exception
    of the handler becomes a result flagged as an error whose text is
    [Error: ] and the message, which for a failed Graph request is
    [Graph API ], the status, a colon and the body of the answer; a name
    that is no tool gets the error [Unknown tool: ] and the name, and
    nothing is sent. *)
Theorem callTool_never_throws
    (resolveSiteId : jsstring -> jsstring -> M jsstring)
    (uploadToSharePoint : jsstring -> jsstring -> jsstring -> jsstring -> jsstring -> M jsstring)
    (graphToken name : jsstring) (args : ToolArgs.t) (s : service) :
  let handler := dispatch SHAREPOINT_SITE_URL SHAREPOINT_FOLDER resolveSiteId
                   uploadToSharePoint graphToken name args s in
  let run := callTool SHAREPOINT_SITE_URL SHAREPOINT_FOLDER resolveSiteId
               uploadToSharePoint hostMessage graphToken name args s in
  (exists result, outcome run = Returned result)
  /\ emitted run = emitted handler
  /\ after run = after handler
  /\ (forall result, outcome handler = Returned result -> outcome run = Returned result)
  /\ (forall err, outcome handler = Thrown err ->
        outcome run
        = Returned {| content := js "Error: " ++ message hostMessage err; isError := true |})
  /\ (forall status body,
        outcome handler = Thrown (GraphApiError status body) ->
        outcome run
        = Returned {| content := js "Error: Graph API " ++ showNat (N.to_nat status)
                                  ++ js ": " ++ body;
                      isError := true |})
  /\ (name <> js "list_recent_meetings" -> name <> js "get_meeting_transcript" ->
      name <> js "save_transcript" ->
      outcome run = Returned (unknownTool name) /\ emitted run = []).
Proof.
  intros handler run. subst run. unfold callTool, tryCatch. fold handler.
  destruct (outcome handler) as [r|e] eqn:Ho.
  - split; [now exists r|]. split; [reflexivity|]. split; [reflexivity|].
    split; [intros result E; now rewrite <- E|].
    split; [intros err E; discriminate|]. split; [intros st b E; discriminate|].
    intros H1 H2 H3. subst handler.
    rewrite (dispatch_unknown resolveSiteId uploadToSharePoint graphToken args s H1 H2 H3) in *.
    cbn [ret outcome emitted] in *. split; reflexivity.
  - cbn [ret outcome after emitted]. rewrite app_nil_r.
    split; [now eexists|]. split; [reflexivity|]. split; [reflexivity|].
    split; [intros result E; discriminate|].
    split; [intros err E; now injection E as <-|].
    split; [intros st b E; injection E as ->; reflexivity|].
    intros H1 H2 H3. subst handler.
    rewrite (dispatch_unknown resolveSiteId uploadToSharePoint graphToken args s H1 H2 H3) in Ho.
    discriminate.
Qed.

End Handlers.

(** *** Runs against the scripted services *)

(** What becomes of the malformed join URL: the search for Sync is
    answered by an error with the message of the URIError. *)
Lemma callTool_malformed_join_url (hostMessage : exn -> jsstring) :
  outcome (@callTool Scenario.brokenLinkService None None
             (fun _ _ => ret []) (fun _ _ _ _ _ => ret []) hostMessage
             Scenario.token (js "get_meeting_transcript")
             {| ToolArgs.date := None; ToolArgs.limit := None;
                ToolArgs.meetingName := Some (js "sync"); ToolArgs.meetingDate := None;
                ToolArgs.siteUrl := None; ToolArgs.folderPath := None |} tt)
  = Returned {| content := js "Error: " ++ hostMessage URIError; isError := true |}.
Proof. reflexivity. Qed.

End ToolFacts.
